(** * cel3ds/3dsread.cpp: the 3DS chunk reader

    A shallow embedding of Celestia's reader for the 3D Studio chunk format
    ([src/cel3ds/3dsread.cpp]) and the properties of its chunk engine.

    The byte cursor [std::istream&] is threaded explicitly: every function
    that takes the stream returns the stream it leaves behind.  Objects that
    the C++ code mutates through a pointer are returned next to the stream.
    The chunk loop of [read3DSChunks] is driven by a fuel counter and a run
    that exhausts it has no result ([None]). *)

From Stdlib Require Import String.
From Stdlib Require Import ZArith List Bool Lia.
From Stdlib Require Import Init.Byte Strings.Byte.
From Stdlib Require Import SpecFloat.
Import ListNotations.
Local Open Scope Z_scope.

(** ** Fixed-width integers *)

(** [std::uint16_t], [std::int16_t] and [std::int32_t] are integers of [Z]
    reduced to their range. *)
Definition wrap_u16 (z : Z) : Z := z mod 2 ^ 16.
Definition wrap_i16 (z : Z) : Z := (z + 2 ^ 15) mod 2 ^ 16 - 2 ^ 15.
Definition wrap_i32 (z : Z) : Z := (z + 2 ^ 31) mod 2 ^ 32 - 2 ^ 31.

Definition INT32_MAX : Z := 2 ^ 31 - 1.
Definition INT32_MIN : Z := - 2 ^ 31.

(** [a + b] and [a - b] on [std::int32_t], two's complement. *)
Definition add32 (a b : Z) : Z := wrap_i32 (a + b).
Definition sub32 (a b : Z) : Z := wrap_i32 (a - b).

Definition READ_FAILURE : Z := -1.
Definition UNKNOWN_CHUNK : Z := -2.

(** ** Bytes on the wire *)

Definition byte_val (b : byte) : Z := Z.of_N (Byte.to_N b).

(** Modelled from the spec: the macros [LE_TO_CPU_INT16], [LE_TO_CPU_INT32]
    and [LE_TO_CPU_FLOAT] of celutil/bytes.h are not part of the sources at
    hand; the wire format is little-endian, so the bytes of a field, in
    stream order, weigh 1, 256, 65536, ... *)
Fixpoint le_value (bs : list byte) : Z :=
  match bs with
  | [] => 0
  | b :: bs' => byte_val b + 256 * le_value bs'
  end.

(** ** Single-precision floats *)

(** A [float] is an IEEE-754 binary32 value: precision 24, emax 128. *)
Definition float32 : Type := spec_float.

Definition f32_prec : Z := 24.
Definition f32_emax : Z := 128.

(** The value of a 32-bit pattern: sign bit 31, biased exponent in bits
    30..23, fraction in bits 22..0. *)
Definition float32_of_bits (w : Z) : float32 :=
  let sign := Z.testbit w 31 in
  let e := Z.land (Z.shiftr w 23) 255 in
  let m := Z.land w (2 ^ 23 - 1) in
  if e =? 0 then
    match m with
    | Zpos p => S754_finite sign p (-149)
    | _ => S754_zero sign
    end
  else if e =? 255 then
    if m =? 0 then S754_infinity sign else S754_nan
  else
    match m + 2 ^ 23 with
    | Zpos p => S754_finite sign p (e - 150)
    | _ => S754_nan
    end.

(** The 32-bit pattern of a float; every NaN is taken for the quiet NaN
    0x7fc00000, the payload not being part of [spec_float]. *)
Definition float32_bits (x : float32) : Z :=
  match x with
  | S754_zero sign => if sign then 2 ^ 31 else 0
  | S754_infinity sign => (if sign then 2 ^ 31 else 0) + 0x7f800000
  | S754_nan => 0x7fc00000
  | S754_finite sign m e =>
    (if sign then 2 ^ 31 else 0) +
    (if Z.pos m <? 2 ^ 23 then Z.pos m else (e + 150) * 2 ^ 23 + (Z.pos m - 2 ^ 23))
  end.

(** The [n] low-order bytes of [z], least significant first. *)
Fixpoint le_bytes (n : nat) (z : Z) : list byte :=
  match n with
  | O => []
  | S n' =>
    match Byte.of_N (Z.to_N (z mod 256)) with
    | Some b => b :: le_bytes n' (z / 256)
    | None => []
    end
  end.

(** The float [x] after the bytes [bs] were stored over its low-order
    bytes. *)
Definition store_bytes_le (bs : list byte) (x : float32) : float32 :=
  float32_of_bits
    (le_value (firstn 4 bs ++ skipn (length bs) (le_bytes 4 (float32_bits x)))).

(** [static_cast<float>(n)] for an integer [n]. *)
Definition float32_of_Z (n : Z) : float32 :=
  binary_normalize f32_prec f32_emax n 0 false.

Definition f32_sub : float32 -> float32 -> float32 := SFsub f32_prec f32_emax.
Definition f32_div : float32 -> float32 -> float32 := SFdiv f32_prec f32_emax.
Definition f32_neg : float32 -> float32 := SFopp.
Definition f32_ltb : float32 -> float32 -> bool := SFltb.
Definition f32_leb : float32 -> float32 -> bool := SFleb.

(** ** The input stream *)

(** [std::istream] as the reader sees it: the bytes not yet extracted, the
    number of bytes extracted so far, and the two state bits the unformatted
    input functions set.  [good()] holds while neither bit is set. *)
Record istream : Type := mkStream {
  rest : list byte;
  gpos : Z;
  eofbit : bool;
  failbit : bool
}.

Definition good (s : istream) : bool := negb (eofbit s || failbit s).

Definition setstate (eof fail : bool) (s : istream) : istream :=
  {| rest := rest s; gpos := gpos s;
     eofbit := eofbit s || eof; failbit := failbit s || fail |}.

(** The cursor after [n] bytes were extracted. *)
Definition advance (n : nat) (s : istream) : istream :=
  {| rest := skipn n (rest s); gpos := gpos s + Z.of_nat (Nat.min n (length (rest s)));
     eofbit := eofbit s; failbit := failbit s |}.

(** [in.read(buf, n)]: on a stream that is not good nothing is extracted and
    failbit is set; otherwise [n] bytes are extracted, or all that are left
    when fewer remain, and then both eofbit and failbit are set. *)
Definition stream_read (n : nat) (s : istream) : list byte * istream :=
  if good s then
    if (n <=? length (rest s))%nat
    then (firstn n (rest s), advance n s)
    else (rest s, setstate true true (advance (length (rest s)) s))
  else ([], setstate false true s).

(** [in.ignore(n)]: extracts and discards [n] bytes; end of input before
    that sets eofbit. *)
Definition stream_ignore (n : Z) (s : istream) : istream :=
  if good s then
    if n <=? 0 then s
    else if n <=? Z.of_nat (length (rest s))
    then advance (Z.to_nat n) s
    else setstate true false (advance (length (rest s)) s)
  else setstate false true s.

(** ** Primitive field readers *)

Definition readInt (s : istream) : option Z * istream :=
  let (bs, s') := stream_read 4 s in
  if good s' then (Some (wrap_i32 (le_value bs)), s') else (None, s').

Definition readShort (s : istream) : option Z * istream :=
  let (bs, s') := stream_read 2 s in
  if good s' then (Some (wrap_i16 (le_value bs)), s') else (None, s').

Definition readUshort (s : istream) : option Z * istream :=
  let (bs, s') := stream_read 2 s in
  if good s' then (Some (wrap_u16 (le_value bs)), s') else (None, s').

Definition readFloat (s : istream) : option float32 * istream :=
  let (bs, s') := stream_read 4 s in
  if good s' then (Some (float32_of_bits (le_value bs)), s') else (None, s').

(** [in.get(c)] extracts one byte like [in.read(&c, 1)]. *)
Definition readUchar (s : istream) : option Z * istream :=
  let (bs, s') := stream_read 1 s in
  if good s' then (Some (le_value bs), s') else (None, s').

(** The loop of [readString]: [count] bytes are already in the buffer [acc]
    (most recent first) and [n] more may be read before [maxLength]. *)
Fixpoint readString_loop (n : nat) (count : Z) (acc : list byte) (s : istream)
  : Z * list byte * istream :=
  match n with
  | O => (READ_FAILURE, [], s)
  | S n' =>
    let (bs, s') := stream_read 1 s in
    if good s' then
      match bs with
      | [b] =>
        if byte_val b =? 0
        then (add32 count 1, rev acc, s')
        else readString_loop n' (count + 1) (b :: acc) s'
      | _ => (READ_FAILURE, [], s')
      end
    else (READ_FAILURE, [], s')
  end.

Definition maxLength : nat := 1024.

(** Returns the count (terminator included) or [READ_FAILURE], and the
    characters before the terminator. *)
Definition readString (s : istream) : Z * string * istream :=
  let '(n, bs, s') := readString_loop maxLength 0 [] s in
  (n, string_of_list_byte bs, s').

(** ** The scene graph (3dsmodel.h) *)

(** Modelled from the spec: the scene-graph types of 3dsmodel.h are not part
    of the sources at hand.  The records below carry the attributes the spec
    lists for each entity, and every mutator is the append-child,
    append-element or set-field operation the spec names for it. *)
Record M3DColor : Type := mkColor {
  red : float32;
  green : float32;
  blue : float32
}.

Definition Vector4f : Type := (float32 * float32 * float32 * float32)%type.

(** [Eigen::Matrix4f], by rows. *)
Record Matrix4f : Type := mkMatrix4f {
  row0 : Vector4f;
  row1 : Vector4f;
  row2 : Vector4f;
  row3 : Vector4f
}.





Record M3DMeshMaterialGroup : Type := mkMatGroup {
  materialName : string;
  group_faces : list Z
}.

Record M3DTriangleMesh : Type := mkTriMesh {
  points : list (float32 * float32 * float32);
  texCoords : list (float32 * float32);
  faces : list (Z * Z * Z);
  smoothingGroups : list Z;
  meshMaterialGroups : list M3DMeshMaterialGroup;
  matrix : Matrix4f
}.

Record M3DModel : Type := mkModel {
  model_name : string;
  triMeshes : list M3DTriangleMesh
}.

Record M3DMaterial : Type := mkMaterial {
  material_name : string;
  texmap : string;
  ambient : M3DColor;
  diffuse : M3DColor;
  specular : M3DColor;
  shininess : float32;
  opacity : float32
}.

Record M3DScene : Type := mkScene {
  models : list M3DModel;
  materials : list M3DMaterial;
  backgroundColor : M3DColor
}.

(** Modelled from the spec: append-vertex, append-texcoord, append-face and
    append-smoothing-group of the mesh (3dsmodel.h); each adds its argument
    after the elements already there. *)
Definition addVertex (v : float32 * float32 * float32) (t : M3DTriangleMesh) :=
  mkTriMesh (points t ++ [v]) (texCoords t) (faces t) (smoothingGroups t)
            (meshMaterialGroups t) (matrix t).

Definition addTexCoord (uv : float32 * float32) (t : M3DTriangleMesh) :=
  mkTriMesh (points t) (texCoords t ++ [uv]) (faces t) (smoothingGroups t)
            (meshMaterialGroups t) (matrix t).

Definition addFace (v0 v1 v2 : Z) (t : M3DTriangleMesh) :=
  mkTriMesh (points t) (texCoords t) (faces t ++ [(v0, v1, v2)])
            (smoothingGroups t) (meshMaterialGroups t) (matrix t).

Definition addSmoothingGroups (g : Z) (t : M3DTriangleMesh) :=
  mkTriMesh (points t) (texCoords t) (faces t) (smoothingGroups t ++ [g])
            (meshMaterialGroups t) (matrix t).

(** Modelled from the spec: append-child mesh <- materialGroup. *)
Definition addMeshMaterialGroup (g : M3DMeshMaterialGroup) (t : M3DTriangleMesh) :=
  mkTriMesh (points t) (texCoords t) (faces t) (smoothingGroups t)
            (meshMaterialGroups t ++ [g]) (matrix t).

(** Modelled from the spec: set-scalar-field matrix. *)
Definition setMatrix (m : Matrix4f) (t : M3DTriangleMesh) :=
  mkTriMesh (points t) (texCoords t) (faces t) (smoothingGroups t)
            (meshMaterialGroups t) m.

(** Modelled from the spec: query-current-face-count, the number of faces
    the mesh holds at the time of the call. *)
Definition getFaceCount (t : M3DTriangleMesh) : Z := Z.of_nat (length (faces t)).

(** Modelled from the spec: append-child model <- mesh. *)
Definition addTriMesh (t : M3DTriangleMesh) (m : M3DModel) :=
  mkModel (model_name m) (triMeshes m ++ [t]).

(** Modelled from the spec: set-scalar-field name, of a model and of a
    material, and the other set-scalar-field operations of a material. *)
Definition setModelName (n : string) (m : M3DModel) := mkModel n (triMeshes m).

Definition setName (n : string) (m : M3DMaterial) :=
  mkMaterial n (texmap m) (ambient m) (diffuse m) (specular m) (shininess m) (opacity m).

Definition setTextureMap (n : string) (m : M3DMaterial) :=
  mkMaterial (material_name m) n (ambient m) (diffuse m) (specular m) (shininess m) (opacity m).

Definition setAmbientColor (c : M3DColor) (m : M3DMaterial) :=
  mkMaterial (material_name m) (texmap m) c (diffuse m) (specular m) (shininess m) (opacity m).

Definition setDiffuseColor (c : M3DColor) (m : M3DMaterial) :=
  mkMaterial (material_name m) (texmap m) (ambient m) c (specular m) (shininess m) (opacity m).

Definition setSpecularColor (c : M3DColor) (m : M3DMaterial) :=
  mkMaterial (material_name m) (texmap m) (ambient m) (diffuse m) c (shininess m) (opacity m).

Definition setShininess (x : float32) (m : M3DMaterial) :=
  mkMaterial (material_name m) (texmap m) (ambient m) (diffuse m) (specular m) x (opacity m).

Definition setOpacity (x : float32) (m : M3DMaterial) :=
  mkMaterial (material_name m) (texmap m) (ambient m) (diffuse m) (specular m) (shininess m) x.

(** Modelled from the spec: append-child scene <- model and scene <-
    material, and set-scalar-field background color. *)
Definition addModel (m : M3DModel) (sc : M3DScene) :=
  mkScene (models sc ++ [m]) (materials sc) (backgroundColor sc).

Definition addMaterial (m : M3DMaterial) (sc : M3DScene) :=
  mkScene (models sc) (materials sc ++ [m]) (backgroundColor sc).

Definition setBackgroundColor (c : M3DColor) (sc : M3DScene) :=
  mkScene (models sc) (materials sc) c.

(** Modelled from the spec: construct-empty.  What the spec leaves open
    about 3dsmodel.h is a parameter of the reader:
    the scalar fields of freshly constructed objects.  The same record holds
    the contents of the locals [color], [t] and [matrix] of the handlers, which
    the source declares without an initialiser. *)
Class Model3DS : Type := {
  new_material : M3DMaterial;
  new_mesh_matrix : Matrix4f;
  new_scene_background : M3DColor;
  local_color : M3DColor;
  local_float : float32;
  local_matrix : Matrix4f
}.

(** Modelled from the spec: [std::make_unique<X>()] is construct-empty, an
    object without children. *)
Definition new_M3DMeshMaterialGroup : M3DMeshMaterialGroup := mkMatGroup EmptyString [].

Definition new_M3DTriangleMesh `{Model3DS} : M3DTriangleMesh :=
  mkTriMesh [] [] [] [] [] new_mesh_matrix.

Definition new_M3DModel : M3DModel := mkModel EmptyString [].

Definition new_M3DMaterial `{Model3DS} : M3DMaterial := new_material.

Definition new_M3DScene `{Model3DS} : M3DScene := mkScene [] [] new_scene_background.

(** ** Chunk type tags (3dschunk.h) *)

(** The enumerators of 3dschunk.h are not part of the sources at hand; the
    reader is parametric in their values.  The case labels of one [switch]
    are pairwise distinct, which C++ requires of them. *)
Class ChunkTags : Type := {
  M3DCHUNK_MAGIC : Z;
  M3DCHUNK_MESHDATA : Z;
  M3DCHUNK_NAMED_OBJECT : Z;
  M3DCHUNK_MATERIAL_ENTRY : Z;
  M3DCHUNK_BACKGROUND_COLOR : Z;
  M3DCHUNK_TRIANGLE_MESH : Z;
  M3DCHUNK_POINT_ARRAY : Z;
  M3DCHUNK_MESH_TEXTURE_COORDS : Z;
  M3DCHUNK_FACE_ARRAY : Z;
  M3DCHUNK_MESH_MATRIX : Z;
  M3DCHUNK_MESH_MATERIAL_GROUP : Z;
  M3DCHUNK_MESH_SMOOTH_GROUP : Z;
  M3DCHUNK_COLOR_24 : Z;
  M3DCHUNK_COLOR_FLOAT : Z;
  M3DCHUNK_INT_PERCENTAGE : Z;
  M3DCHUNK_FLOAT_PERCENTAGE : Z;
  M3DCHUNK_MATERIAL_MAPNAME : Z;
  M3DCHUNK_MATERIAL_NAME : Z;
  M3DCHUNK_MATERIAL_AMBIENT : Z;
  M3DCHUNK_MATERIAL_DIFFUSE : Z;
  M3DCHUNK_MATERIAL_SPECULAR : Z;
  M3DCHUNK_MATERIAL_SHININESS : Z;
  M3DCHUNK_MATERIAL_TRANSPARENCY : Z;
  M3DCHUNK_MATERIAL_TEXMAP : Z;
  face_array_labels :
    NoDup [M3DCHUNK_MESH_MATERIAL_GROUP; M3DCHUNK_MESH_SMOOTH_GROUP];
  tri_mesh_labels :
    NoDup [M3DCHUNK_POINT_ARRAY; M3DCHUNK_MESH_TEXTURE_COORDS;
           M3DCHUNK_FACE_ARRAY; M3DCHUNK_MESH_MATRIX];
  color_labels : NoDup [M3DCHUNK_COLOR_24; M3DCHUNK_COLOR_FLOAT];
  percentage_labels :
    NoDup [M3DCHUNK_INT_PERCENTAGE; M3DCHUNK_FLOAT_PERCENTAGE];
  material_labels :
    NoDup [M3DCHUNK_MATERIAL_NAME; M3DCHUNK_MATERIAL_AMBIENT;
           M3DCHUNK_MATERIAL_DIFFUSE; M3DCHUNK_MATERIAL_SPECULAR;
           M3DCHUNK_MATERIAL_SHININESS; M3DCHUNK_MATERIAL_TRANSPARENCY;
           M3DCHUNK_MATERIAL_TEXMAP];
  scene_labels :
    NoDup [M3DCHUNK_NAMED_OBJECT; M3DCHUNK_MATERIAL_ENTRY;
           M3DCHUNK_BACKGROUND_COLOR]
}.

(** ** The generic chunk engine *)

(** What a chunk function leaves behind: the value it returns, the stream and
    the object it was handed.  [None] is a run that exhausted the fuel of a
    nested chunk loop. *)
Definition outcome (T : Type) : Type := option (Z * istream * T).

(** [ProcessChunkFunc<T>]: stream, chunk type, content size, object. *)
Definition ProcessChunkFunc (T : Type) : Type :=
  istream -> Z -> Z -> T -> outcome T.

Section Engine.
Context {T : Type}.
Variable chunkFunc : ProcessChunkFunc T.

(** What the [switch] on [processedSize] makes of the handler's return. *)
Definition reconcile (chunkSize contentSize processedSize : Z)
           (s : istream) (obj : T) : Z * istream * T :=
  if processedSize =? READ_FAILURE then (READ_FAILURE, s, obj)
  else if processedSize =? UNKNOWN_CHUNK then
    let s' := stream_ignore contentSize s in
    (if good s' then chunkSize else READ_FAILURE, s', obj)
  else if negb (processedSize =? contentSize) then (READ_FAILURE, s, obj)
  else (chunkSize, s, obj).

Definition read3DSChunk (s : istream) (obj : T) : outcome T :=
  match readUshort s with
  | (None, s1) => Some (READ_FAILURE, s1, obj)
  | (Some chunkType, s1) =>
    match readInt s1 with
    | (None, s2) => Some (READ_FAILURE, s2, obj)
    | (Some chunkSize, s2) =>
      if chunkSize <? 6 then Some (READ_FAILURE, s2, obj)
      else
        let contentSize := sub32 chunkSize 6 in
        match chunkFunc s2 chunkType contentSize obj with
        | None => None
        | Some (processedSize, s3, obj') =>
          Some (reconcile chunkSize contentSize processedSize s3 obj')
        end
    end
  end.

(** The [while] loop of [read3DSChunks], one unit of fuel per dispatch. *)
Fixpoint read3DSChunks_loop (fuel : nat) (s : istream) (nBytes bytesRead : Z)
         (obj : T) : outcome T :=
  if bytesRead <? nBytes then
    match fuel with
    | O => None
    | S fuel' =>
      match read3DSChunk s obj with
      | None => None
      | Some (chunkSize, s', obj') =>
        if chunkSize <? 0 then Some (READ_FAILURE, s', obj')
        else read3DSChunks_loop fuel' s' nBytes (add32 bytesRead chunkSize) obj'
      end
    end
  else if negb (bytesRead =? nBytes) then Some (READ_FAILURE, s, obj)
  else Some (bytesRead, s, obj).

Definition read3DSChunks (fuel : nat) (s : istream) (nBytes : Z) (obj : T)
  : outcome T :=
  read3DSChunks_loop fuel s nBytes 0 obj.
End Engine.

(** ** Field groups *)

Definition f32_255 : float32 := float32_of_Z 255.
Definition f32_100 : float32 := float32_of_Z 100.
Definition f32_1 : float32 := float32_of_Z 1.
Definition f32_0 : float32 := float32_of_Z 0.

Definition readColor (s : istream) (color : M3DColor) : Z * istream * M3DColor :=
  match readUchar s with
  | (None, s1) => (READ_FAILURE, s1, color)
  | (Some r, s1) =>
    match readUchar s1 with
    | (None, s2) => (READ_FAILURE, s2, color)
    | (Some g, s2) =>
      match readUchar s2 with
      | (None, s3) => (READ_FAILURE, s3, color)
      | (Some b, s3) =>
        (3, s3, mkColor (f32_div (float32_of_Z r) f32_255)
                        (f32_div (float32_of_Z g) f32_255)
                        (f32_div (float32_of_Z b) f32_255))
      end
    end
  end.

Definition readFloatColor (s : istream) (color : M3DColor) : Z * istream * M3DColor :=
  match readFloat s with
  | (None, s1) => (READ_FAILURE, s1, color)
  | (Some r, s1) =>
    match readFloat s1 with
    | (None, s2) => (READ_FAILURE, s2, color)
    | (Some g, s2) =>
      match readFloat s2 with
      | (None, s3) => (READ_FAILURE, s3, color)
      | (Some b, s3) => (12, s3, mkColor r g b)
      end
    end
  end.

(** The loop that fills [elements]: [n] floats in stream order, or nothing
    at the first failed read. *)
Fixpoint readFloats (n : nat) (s : istream) : option (list float32) * istream :=
  match n with
  | O => (Some [], s)
  | S n' =>
    match readFloat s with
    | (None, s1) => (None, s1)
    | (Some x, s1) =>
      match readFloats n' s1 with
      | (None, s2) => (None, s2)
      | (Some xs, s2) => (Some (x :: xs), s2)
      end
    end
  end.

(** [m << elements[0], elements[1], elements[2], 0, ...]: the comma
    initialiser fills the matrix row by row. *)
Definition comma_init (elements : nat -> float32) : Matrix4f :=
  mkMatrix4f (elements 0%nat, elements 1%nat, elements 2%nat, f32_0)
             (elements 3%nat, elements 4%nat, elements 5%nat, f32_0)
             (elements 6%nat, elements 7%nat, elements 8%nat, f32_0)
             (elements 9%nat, elements 10%nat, elements 11%nat, f32_1).

Definition readMeshMatrix (s : istream) (m : Matrix4f) : Z * istream * Matrix4f :=
  match readFloats 12 s with
  | (None, s1) => (READ_FAILURE, s1, m)
  | (Some elements, s1) => (48, s1, comma_init (fun i => nth i elements f32_0))
  end.

Fixpoint readPointArray_loop (n : nat) (s : istream) (bytesRead : Z)
         (triMesh : M3DTriangleMesh) : Z * istream * M3DTriangleMesh :=
  match n with
  | O => (bytesRead, s, triMesh)
  | S n' =>
    match readFloat s with
    | (None, s1) => (READ_FAILURE, s1, triMesh)
    | (Some x, s1) =>
      match readFloat s1 with
      | (None, s2) => (READ_FAILURE, s2, triMesh)
      | (Some y, s2) =>
        match readFloat s2 with
        | (None, s3) => (READ_FAILURE, s3, triMesh)
        | (Some z, s3) =>
          readPointArray_loop n' s3 (add32 bytesRead 12) (addVertex (x, y, z) triMesh)
        end
      end
    end
  end.

Definition readPointArray (s : istream) (triMesh : M3DTriangleMesh)
  : Z * istream * M3DTriangleMesh :=
  match readUshort s with
  | (None, s1) => (READ_FAILURE, s1, triMesh)
  | (Some nPoints, s1) => readPointArray_loop (Z.to_nat nPoints) s1 2 triMesh
  end.

Fixpoint readTextureCoordArray_loop (n : nat) (s : istream) (bytesRead : Z)
         (triMesh : M3DTriangleMesh) : Z * istream * M3DTriangleMesh :=
  match n with
  | O => (bytesRead, s, triMesh)
  | S n' =>
    match readFloat s with
    | (None, s1) => (READ_FAILURE, s1, triMesh)
    | (Some u, s1) =>
      match readFloat s1 with
      | (None, s2) => (READ_FAILURE, s2, triMesh)
      | (Some v, s2) =>
        readTextureCoordArray_loop n' s2 (add32 bytesRead 8)
                                   (addTexCoord (u, f32_neg v) triMesh)
      end
    end
  end.

Definition readTextureCoordArray (s : istream) (triMesh : M3DTriangleMesh)
  : Z * istream * M3DTriangleMesh :=
  match readUshort s with
  | (None, s1) => (READ_FAILURE, s1, triMesh)
  | (Some nPoints, s1) =>
    readTextureCoordArray_loop (Z.to_nat nPoints) s1 (add32 0 2) triMesh
  end.

(** ** Level handlers *)

Section Handlers.
Context {tags : ChunkTags} {m3d : Model3DS}.

(** The fuel every nested [read3DSChunks] loop starts with. *)
Variable fuel : nat.

(** The index loop of a material group, [n] more face indices: the bytes
    counted when it runs to its end, [None] when it returns early. *)
Fixpoint readFaceIndices (n : nat) (s : istream) (bytesRead : Z)
         (matGroup : M3DMeshMaterialGroup)
  : option Z * istream * M3DMeshMaterialGroup :=
  match n with
  | O => (Some bytesRead, s, matGroup)
  | S n' =>
    match readUshort s with
    | (None, s1) => (None, s1, matGroup)
    | (Some faceIndex, s1) =>
      readFaceIndices n' s1 (add32 bytesRead 2)
        (mkMatGroup (materialName matGroup) (group_faces matGroup ++ [faceIndex]))
    end
  end.

(** The loop of a smoothing-group chunk: [n] more bitmasks. *)
Fixpoint readSmoothingGroups (n : nat) (s : istream) (bytesRead : Z)
         (triMesh : M3DTriangleMesh) : Z * istream * M3DTriangleMesh :=
  match n with
  | O => (bytesRead, s, triMesh)
  | S n' =>
    match readInt s with
    | (None, s1) => (READ_FAILURE, s1, triMesh)
    | (Some groups, s1) =>
      if groups <? 0 then (READ_FAILURE, s1, triMesh)
      else readSmoothingGroups n' s1 (add32 bytesRead 4)
             (addSmoothingGroups (groups mod 2 ^ 32) triMesh)
    end
  end.

Definition processFaceArrayChunk : ProcessChunkFunc M3DTriangleMesh :=
  fun s chunkType _ triMesh =>
  if chunkType =? M3DCHUNK_MESH_MATERIAL_GROUP then
    let '(bytesRead, name, s1) := readString s in
    let matGroup := mkMatGroup name (group_faces new_M3DMeshMaterialGroup) in
    if bytesRead =? READ_FAILURE then Some (READ_FAILURE, s1, triMesh)
    else
      match readUshort s1 with
      | (None, s2) => Some (READ_FAILURE, s2, triMesh)
      | (Some nFaces, s2) =>
        match readFaceIndices (Z.to_nat nFaces) s2 (add32 bytesRead 2) matGroup with
        | (None, s3, _) => Some (READ_FAILURE, s3, triMesh)
        | (Some bytesRead', s3, matGroup') =>
          Some (bytesRead', s3, addMeshMaterialGroup matGroup' triMesh)
        end
      end
  else if chunkType =? M3DCHUNK_MESH_SMOOTH_GROUP then
    let nFaces := wrap_u16 (getFaceCount triMesh) in
    Some (readSmoothingGroups (Z.to_nat nFaces) s 0 triMesh)
  else Some (UNKNOWN_CHUNK, s, triMesh).

(** The face loop of [readFaceArray], [n] more faces: the bytes counted
    when it runs to its end, [None] when it returns early. *)
Fixpoint readFaces (n : nat) (s : istream) (bytesRead : Z)
         (triMesh : M3DTriangleMesh) : option Z * istream * M3DTriangleMesh :=
  match n with
  | O => (Some bytesRead, s, triMesh)
  | S n' =>
    match readUshort s with
    | (None, s1) => (None, s1, triMesh)
    | (Some v0, s1) =>
      match readUshort s1 with
      | (None, s2) => (None, s2, triMesh)
      | (Some v1, s2) =>
        match readUshort s2 with
        | (None, s3) => (None, s3, triMesh)
        | (Some v2, s3) =>
          match readUshort s3 with
          | (None, s4) => (None, s4, triMesh)
          | (Some flags, s4) =>
            readFaces n' s4 (add32 bytesRead 8) (addFace v0 v1 v2 triMesh)
          end
        end
      end
    end
  end.

Definition readFaceArray (s : istream) (triMesh : M3DTriangleMesh)
           (contentSize : Z) : outcome M3DTriangleMesh :=
  match readUshort s with
  | (None, s1) => Some (READ_FAILURE, s1, triMesh)
  | (Some nFaces, s1) =>
    match readFaces (Z.to_nat nFaces) s1 2 triMesh with
    | (None, s2, triMesh') => Some (READ_FAILURE, s2, triMesh')
    | (Some bytesRead, s2, triMesh') =>
      if bytesRead >? contentSize then Some (READ_FAILURE, s2, triMesh')
      else if bytesRead <? contentSize then
        match read3DSChunks processFaceArrayChunk fuel s2
                            (sub32 contentSize bytesRead) triMesh' with
        | None => None
        | Some (trailingSize, s3, triMesh'') =>
          Some (add32 bytesRead trailingSize, s3, triMesh'')
        end
      else Some (bytesRead, s2, triMesh')
    end
  end.

Definition processTriMeshChunk : ProcessChunkFunc M3DTriangleMesh :=
  fun s chunkType contentSize triMesh =>
  if chunkType =? M3DCHUNK_POINT_ARRAY then Some (readPointArray s triMesh)
  else if chunkType =? M3DCHUNK_MESH_TEXTURE_COORDS then
    Some (readTextureCoordArray s triMesh)
  else if chunkType =? M3DCHUNK_FACE_ARRAY then
    readFaceArray s triMesh contentSize
  else if chunkType =? M3DCHUNK_MESH_MATRIX then
    let '(bytesRead, s1, matrix) := readMeshMatrix s local_matrix in
    if bytesRead <? 0 then Some (READ_FAILURE, s1, triMesh)
    else Some (bytesRead, s1, setMatrix matrix triMesh)
  else Some (UNKNOWN_CHUNK, s, triMesh).

Definition processModelChunk : ProcessChunkFunc M3DModel :=
  fun s chunkType contentSize model =>
  if chunkType =? M3DCHUNK_TRIANGLE_MESH then
    match read3DSChunks processTriMeshChunk fuel s contentSize
                        new_M3DTriangleMesh with
    | None => None
    | Some (bytesRead, s1, triMesh) =>
      if bytesRead =? READ_FAILURE then Some (READ_FAILURE, s1, model)
      else Some (bytesRead, s1, addTriMesh triMesh model)
    end
  else Some (UNKNOWN_CHUNK, s, model).

Definition processColorChunk : ProcessChunkFunc M3DColor :=
  fun s chunkType _ color =>
  if chunkType =? M3DCHUNK_COLOR_24 then Some (readColor s color)
  else if chunkType =? M3DCHUNK_COLOR_FLOAT then Some (readFloatColor s color)
  else Some (UNKNOWN_CHUNK, s, color).

(** [readFloat(in, *percent)] that fails.  The read is into [*percent]
    itself: the bytes it extracted before the stream ended, if any, lie
    unconverted over the first bytes of the float, its low-order bytes on a
    little-endian host (on a big-endian host they would be the high-order
    ones). *)
Definition float_after_failed_read (s : istream) (value : float32) : float32 :=
  match fst (stream_read 4 s) with
  | [] => value
  | bs => store_bytes_le bs value
  end.

Definition processPercentageChunk : ProcessChunkFunc float32 :=
  fun s chunkType _ percent =>
  if chunkType =? M3DCHUNK_INT_PERCENTAGE then
    match readShort s with
    | (None, s1) => Some (READ_FAILURE, s1, percent)
    | (Some value, s1) => Some (2, s1, float32_of_Z value)
    end
  else if chunkType =? M3DCHUNK_FLOAT_PERCENTAGE then
    match readFloat s with
    | (None, s1) => Some (READ_FAILURE, s1, float_after_failed_read s percent)
    | (Some x, s1) => Some (4, s1, x)
    end
  else Some (UNKNOWN_CHUNK, s, percent).

Definition processTexmapChunk : ProcessChunkFunc M3DMaterial :=
  fun s chunkType _ material =>
  if chunkType =? M3DCHUNK_MATERIAL_MAPNAME then
    let '(bytesRead, name, s1) := readString s in
    if bytesRead <? 0 then Some (READ_FAILURE, s1, material)
    else Some (bytesRead, s1, setTextureMap name material)
  else Some (UNKNOWN_CHUNK, s, material).

(** A colour sub-chunk group read into the local [color], then stored by
    [set]. *)
Definition readColorInto (set : M3DColor -> M3DMaterial -> M3DMaterial)
           (s : istream) (contentSize : Z) (material : M3DMaterial)
  : outcome M3DMaterial :=
  match read3DSChunks processColorChunk fuel s contentSize local_color with
  | None => None
  | Some (bytesRead, s1, color) =>
    if bytesRead <? 0 then Some (READ_FAILURE, s1, material)
    else Some (bytesRead, s1, set color material)
  end.

Definition processMaterialChunk : ProcessChunkFunc M3DMaterial :=
  fun s chunkType contentSize material =>
  if chunkType =? M3DCHUNK_MATERIAL_NAME then
    let '(bytesRead, name, s1) := readString s in
    if bytesRead <? 0 then Some (READ_FAILURE, s1, material)
    else Some (bytesRead, s1, setName name material)
  else if chunkType =? M3DCHUNK_MATERIAL_AMBIENT then
    readColorInto setAmbientColor s contentSize material
  else if chunkType =? M3DCHUNK_MATERIAL_DIFFUSE then
    readColorInto setDiffuseColor s contentSize material
  else if chunkType =? M3DCHUNK_MATERIAL_SPECULAR then
    readColorInto setSpecularColor s contentSize material
  else if chunkType =? M3DCHUNK_MATERIAL_SHININESS then
    match read3DSChunks processPercentageChunk fuel s contentSize local_float with
    | None => None
    | Some (bytesRead, s1, t) =>
      if bytesRead <? 0 then Some (READ_FAILURE, s1, material)
      else Some (bytesRead, s1, setShininess t material)
    end
  else if chunkType =? M3DCHUNK_MATERIAL_TRANSPARENCY then
    match read3DSChunks processPercentageChunk fuel s contentSize local_float with
    | None => None
    | Some (bytesRead, s1, t) =>
      if bytesRead <? 0 then Some (READ_FAILURE, s1, material)
      else Some (bytesRead, s1,
                 setOpacity (f32_sub f32_1 (f32_div t f32_100)) material)
    end
  else if chunkType =? M3DCHUNK_MATERIAL_TEXMAP then
    read3DSChunks processTexmapChunk fuel s contentSize material
  else Some (UNKNOWN_CHUNK, s, material).

Definition processSceneChunk : ProcessChunkFunc M3DScene :=
  fun s chunkType contentSize scene =>
  if chunkType =? M3DCHUNK_NAMED_OBJECT then
    let '(bytesRead, name, s1) := readString s in
    if bytesRead <? 0 then Some (READ_FAILURE, s1, scene)
    else
      let model := setModelName name new_M3DModel in
      match read3DSChunks processModelChunk fuel s1
                          (sub32 contentSize bytesRead) model with
      | None => None
      | Some (chunksSize, s2, model') =>
        if chunksSize <? 0 then Some (READ_FAILURE, s2, scene)
        else Some (add32 bytesRead chunksSize, s2, addModel model' scene)
      end
  else if chunkType =? M3DCHUNK_MATERIAL_ENTRY then
    match read3DSChunks processMaterialChunk fuel s contentSize
                        new_M3DMaterial with
    | None => None
    | Some (bytesRead, s1, material) =>
      if bytesRead <? 0 then Some (READ_FAILURE, s1, scene)
      else Some (bytesRead, s1, addMaterial material scene)
    end
  else if chunkType =? M3DCHUNK_BACKGROUND_COLOR then
    match read3DSChunks processColorChunk fuel s contentSize local_color with
    | None => None
    | Some (bytesRead, s1, color) =>
      if bytesRead <? 0 then Some (READ_FAILURE, s1, scene)
      else Some (bytesRead, s1, setBackgroundColor color scene)
    end
  else Some (UNKNOWN_CHUNK, s, scene).

Definition processTopLevelChunk : ProcessChunkFunc M3DScene :=
  fun s chunkType contentSize scene =>
  if chunkType =? M3DCHUNK_MESHDATA then
    read3DSChunks processSceneChunk fuel s contentSize scene
  else Some (UNKNOWN_CHUNK, s, scene).

(** ** The entry point *)

(** [Read3DSFile(std::istream&)]: the scene, or [None] for [nullptr], and
    the stream as the call leaves it. *)
Definition Read3DSFile (s : istream) : option (option M3DScene * istream) :=
  match readUshort s with
  | (None, s1) => Some (None, s1)
  | (Some chunkType, s1) =>
    if negb (chunkType =? M3DCHUNK_MAGIC) then Some (None, s1)
    else
      match readInt s1 with
      | (None, s2) => Some (None, s2)
      | (Some chunkSize, s2) =>
        if chunkSize <? 6 then Some (None, s2)
        else
          let scene := new_M3DScene in
          let contentSize := sub32 chunkSize 6 in
          match read3DSChunks processTopLevelChunk fuel s2 contentSize scene with
          | None => None
          | Some (bytesRead, s3, scene') =>
            if bytesRead <? 0 then Some (None, s3)
            else if negb (bytesRead =? contentSize) then Some (None, s3)
            else Some (Some scene', s3)
          end
      end
  end.
End Handlers.

(** ** Sibling chunks and their sizes *)

(** [sibling_run f s obj sizes s' obj']: dispatching [length sizes] chunks
    in a row, from stream [s] and object [obj], succeeds every time; the
    dispatcher returns [sizes] in that order and leaves [s'] and [obj']. *)
Inductive sibling_run {T : Type} (chunkFunc : ProcessChunkFunc T)
  : istream -> T -> list Z -> istream -> T -> Prop :=
| run_done : forall s obj, sibling_run chunkFunc s obj [] s obj
| run_step : forall s obj size s1 obj1 sizes s2 obj2,
    read3DSChunk chunkFunc s obj = Some (size, s1, obj1) ->
    0 <= size ->
    sibling_run chunkFunc s1 obj1 sizes s2 obj2 ->
    sibling_run chunkFunc s obj (size :: sizes) s2 obj2.

(** [bytesRead] after the chunk sizes [sizes] were added to it one by one. *)
Definition accumulate_from (bytesRead : Z) (sizes : list Z) : Z :=
  fold_left add32 sizes bytesRead.

Definition accumulate (sizes : list Z) : Z := accumulate_from 0 sizes.

(** The sum of the sizes as integers. *)
Definition total_size (sizes : list Z) : Z := fold_right Z.add 0 sizes.

(** [bytesRead] is below the budget before each of the dispatches that
    return [sizes]: the loop condition holds every time. *)
Fixpoint running_below (nBytes bytesRead : Z) (sizes : list Z) : Prop :=
  match sizes with
  | [] => True
  | size :: sizes' =>
    bytesRead < nBytes /\ running_below nBytes (add32 bytesRead size) sizes'
  end.

Definition below_budget (nBytes : Z) (sizes : list Z) : Prop :=
  running_below nBytes 0 sizes.

(** ** Forward-only reading *)

(** [no_longer s' s]: the stream [s'] has no more bytes left than [s]. *)
Definition no_longer (s' s : istream) : Prop :=
  (length (rest s') <= length (rest s))%nat.

(** [well_behaved f fuel]: on a stream shorter than [fuel] the chunk
    function [f] has a result and leaves no more bytes than it found. *)
Definition well_behaved {T : Type} (f : ProcessChunkFunc T) (fuel : nat) : Prop :=
  forall (s : istream) (chunkType contentSize : Z) (obj : T),
    (length (rest s) < fuel)%nat ->
    exists r s' obj', f s chunkType contentSize obj = Some (r, s', obj') /\ no_longer s' s.

(** [agree_below f g bound]: the chunk functions [f] and [g] do the same
    on every stream shorter than [bound]. *)
Definition agree_below {T : Type} (f g : ProcessChunkFunc T) (bound : nat) : Prop :=
  forall (s : istream) (chunkType contentSize : Z) (obj : T),
    (length (rest s) < bound)%nat ->
    f s chunkType contentSize obj = g s chunkType contentSize obj.

(** ** Byte accounting *)

(** [consumed s s' n]: the stream [s'] is [s] with the cursor exactly [n]
    bytes on, all of them taken from the stream, and no state bit set. *)
Definition consumed (s s' : istream) (n : Z) : Prop :=
  0 <= n <= Z.of_nat (length (rest s)) /\
  s' = mkStream (skipn (Z.to_nat n) (rest s)) (gpos s + n) false false.

(** [honest f]: on a good stream of less than 2 GiB, when the chunk function
    [f] answers [UNKNOWN_CHUNK] it has not touched the stream, and when it
    returns the content size it was given it has consumed exactly that many
    bytes. *)
Definition honest {T : Type} (f : ProcessChunkFunc T) : Prop :=
  forall (s : istream) (chunkType contentSize : Z) (obj : T)
         (r : Z) (s' : istream) (obj' : T),
    good s = true ->
    Z.of_nat (length (rest s)) <= INT32_MAX ->
    f s chunkType contentSize obj = Some (r, s', obj') ->
    (r = UNKNOWN_CHUNK -> s' = s /\ obj' = obj) /\
    (r = contentSize -> 0 <= contentSize -> consumed s s' contentSize).

(** [exact_or_failed s s' r]: the return value [r] is [READ_FAILURE], or it
    is the number of bytes by which the cursor moved from [s] to [s']. *)
Definition exact_or_failed (s s' : istream) (r : Z) : Prop :=
  r = READ_FAILURE \/ (0 <= r /\ consumed s s' r).

(** The fields at the start of the bytes [bs]. *)
Definition u16_at (bs : list byte) : Z := wrap_u16 (le_value (firstn 2 bs)).
Definition f32_at (bs : list byte) : float32 := float32_of_bits (le_value (firstn 4 bs)).
Definition i32_at (bs : list byte) : Z := wrap_i32 (le_value (firstn 4 bs)).

(** The first [n] float triples, float pairs, and index quadruples without
    their fourth field, of the bytes [bs]. *)
Fixpoint decode_triples (n : nat) (bs : list byte) : list (float32 * float32 * float32) :=
  match n with
  | O => []
  | S n' =>
    (f32_at bs, f32_at (skipn 4 bs), f32_at (skipn 8 bs))
      :: decode_triples n' (skipn 12 bs)
  end.

Fixpoint decode_pairs (n : nat) (bs : list byte) : list (float32 * float32) :=
  match n with
  | O => []
  | S n' => (f32_at bs, f32_at (skipn 4 bs)) :: decode_pairs n' (skipn 8 bs)
  end.

Fixpoint decode_faces (n : nat) (bs : list byte) : list (Z * Z * Z) :=
  match n with
  | O => []
  | S n' =>
    (u16_at bs, u16_at (skipn 2 bs), u16_at (skipn 4 bs))
      :: decode_faces n' (skipn 8 bs)
  end.

Fixpoint decode_u16s (n : nat) (bs : list byte) : list Z :=
  match n with
  | O => []
  | S n' => u16_at bs :: decode_u16s n' (skipn 2 bs)
  end.

(** The mesh [t] with more vertices, texture coordinates or faces after
    those it has. *)
Definition withPoints (ps : list (float32 * float32 * float32)) (t : M3DTriangleMesh) :=
  mkTriMesh (points t ++ ps) (texCoords t) (faces t) (smoothingGroups t)
            (meshMaterialGroups t) (matrix t).

Definition withTexCoords (uvs : list (float32 * float32)) (t : M3DTriangleMesh) :=
  mkTriMesh (points t) (texCoords t ++ uvs) (faces t) (smoothingGroups t)
            (meshMaterialGroups t) (matrix t).

Definition withFaces (fs : list (Z * Z * Z)) (t : M3DTriangleMesh) :=
  mkTriMesh (points t) (texCoords t) (faces t ++ fs) (smoothingGroups t)
            (meshMaterialGroups t) (matrix t).

(** A colour channel between 0 and 1. *)
Definition in_unit (x : float32) : bool := f32_leb f32_0 x && f32_leb x f32_1.

(** The V coordinate as the reader stores it. *)
Definition flip_v (uv : float32 * float32) : float32 * float32 :=
  (fst uv, f32_neg (snd uv)).

(** ** Values on the wire *)

(** The first [n] 32-bit signed fields of the bytes [bs]. *)
Fixpoint decode_int32s (n : nat) (bs : list byte) : list Z :=
  match n with
  | O => []
  | S n' => wrap_i32 (le_value (firstn 4 bs)) :: decode_int32s n' (skipn 4 bs)
  end.

(** The mesh [t] with the bitmasks [gs] after those it has. *)
Definition withSmoothingGroups (gs : list Z) (t : M3DTriangleMesh) :=
  mkTriMesh (points t) (texCoords t) (faces t) (smoothingGroups t ++ gs)
            (meshMaterialGroups t) (matrix t).

(** ** The published tag values and a concrete scene-graph instance *)

(** The chunk identifiers of the 3D Studio format. *)
#[export] Instance std_tags : ChunkTags := {|
  M3DCHUNK_MAGIC := 0x4d4d;
  M3DCHUNK_MESHDATA := 0x3d3d;
  M3DCHUNK_NAMED_OBJECT := 0x4000;
  M3DCHUNK_MATERIAL_ENTRY := 0xafff;
  M3DCHUNK_BACKGROUND_COLOR := 0x1200;
  M3DCHUNK_TRIANGLE_MESH := 0x4100;
  M3DCHUNK_POINT_ARRAY := 0x4110;
  M3DCHUNK_MESH_TEXTURE_COORDS := 0x4140;
  M3DCHUNK_FACE_ARRAY := 0x4120;
  M3DCHUNK_MESH_MATRIX := 0x4160;
  M3DCHUNK_MESH_MATERIAL_GROUP := 0x4130;
  M3DCHUNK_MESH_SMOOTH_GROUP := 0x4150;
  M3DCHUNK_COLOR_24 := 0x0011;
  M3DCHUNK_COLOR_FLOAT := 0x0010;
  M3DCHUNK_INT_PERCENTAGE := 0x0030;
  M3DCHUNK_FLOAT_PERCENTAGE := 0x0031;
  M3DCHUNK_MATERIAL_MAPNAME := 0xa300;
  M3DCHUNK_MATERIAL_NAME := 0xa000;
  M3DCHUNK_MATERIAL_AMBIENT := 0xa010;
  M3DCHUNK_MATERIAL_DIFFUSE := 0xa020;
  M3DCHUNK_MATERIAL_SPECULAR := 0xa030;
  M3DCHUNK_MATERIAL_SHININESS := 0xa040;
  M3DCHUNK_MATERIAL_TRANSPARENCY := 0xa050;
  M3DCHUNK_MATERIAL_TEXMAP := 0xa200;
  face_array_labels := ltac:(repeat constructor; simpl; intuition discriminate);
  tri_mesh_labels := ltac:(repeat constructor; simpl; intuition discriminate);
  color_labels := ltac:(repeat constructor; simpl; intuition discriminate);
  percentage_labels := ltac:(repeat constructor; simpl; intuition discriminate);
  material_labels := ltac:(repeat constructor; simpl; intuition discriminate);
  scene_labels := ltac:(repeat constructor; simpl; intuition discriminate)
|}.

Definition black : M3DColor := mkColor f32_0 f32_0 f32_0.

Definition identity4 : Matrix4f :=
  mkMatrix4f (f32_1, f32_0, f32_0, f32_0) (f32_0, f32_1, f32_0, f32_0)
             (f32_0, f32_0, f32_1, f32_0) (f32_0, f32_0, f32_0, f32_1).

#[export] Instance plain_model : Model3DS := {|
  new_material := mkMaterial EmptyString EmptyString black black black f32_1 f32_1;
  new_mesh_matrix := identity4;
  new_scene_background := black;
  local_color := black;
  local_float := f32_0;
  local_matrix := identity4
|}.

(** A stream at its start over the bytes [bs]. *)
Definition stream_of (bs : list byte) : istream := mkStream bs 0 false false.

(** ** Sample inputs *)

(** An integer-percentage chunk holding 25. *)
Definition percent25_chunk : list byte :=
  [x30; x00; x08; x00; x00; x00; x19; x00].

(** A chunk with tag 0x9999 and three content bytes, then one more byte. *)
Definition foreign_chunk : list byte :=
  [x99; x99; x09; x00; x00; x00; xaa; xbb; xcc; xff].


Definition f32_2 : float32 := float32_of_Z 2.
Definition f32_3 : float32 := float32_of_Z 3.

(** A file that starts with 0x4d4e. *)
Definition wrong_magic_file : list byte :=
  [x4e; x4d; x06; x00; x00; x00].

(** The magic tag and a total size of 6. *)
Definition empty_file : list byte :=
  [x4d; x4d; x06; x00; x00; x00].

(** Integer-percentage chunks holding -25 and 200. *)
Definition percent_minus25_chunk : list byte :=
  [x30; x00; x08; x00; x00; x00; xe7; xff].

Definition percent200_chunk : list byte :=
  [x30; x00; x08; x00; x00; x00; xc8; x00].

(** A file with one model [a]: a mesh whose face array declares one face,
    (0,1,2), followed by a smoothing-group chunk with one value, 1. *)
Definition mesh_file_one_group : list byte :=
  [x4d; x4d; x34; x00; x00; x00; x3d; x3d; x2e; x00; x00; x00;
   x00; x40; x28; x00; x00; x00; x61; x00; x00; x41; x20; x00;
   x00; x00; x20; x41; x1a; x00; x00; x00; x01; x00; x00; x00;
   x01; x00; x02; x00; x00; x00; x50; x41; x0a; x00; x00; x00;
   x01; x00; x00; x00].

(** The same file with a smoothing-group chunk that holds no value. *)
Definition mesh_file_no_group : list byte :=
  [x4d; x4d; x30; x00; x00; x00; x3d; x3d; x2a; x00; x00; x00;
   x00; x40; x24; x00; x00; x00; x61; x00; x00; x41; x1c; x00;
   x00; x00; x20; x41; x16; x00; x00; x00; x01; x00; x00; x00;
   x01; x00; x02; x00; x00; x00; x50; x41; x06; x00; x00; x00].

(** The same file with a smoothing-group chunk that holds two values, 1 and 2. *)
Definition mesh_file_two_groups : list byte :=
  [x4d; x4d; x38; x00; x00; x00; x3d; x3d; x32; x00; x00; x00;
   x00; x40; x2c; x00; x00; x00; x61; x00; x00; x41; x24; x00;
   x00; x00; x20; x41; x1e; x00; x00; x00; x01; x00; x00; x00;
   x01; x00; x02; x00; x00; x00; x50; x41; x0e; x00; x00; x00;
   x01; x00; x00; x00; x02; x00; x00; x00].

(** The same file with a smoothing-group chunk that holds the value -1. *)
Definition mesh_file_negative_group : list byte :=
  [x4d; x4d; x34; x00; x00; x00; x3d; x3d; x2e; x00; x00; x00;
   x00; x40; x28; x00; x00; x00; x61; x00; x00; x41; x20; x00;
   x00; x00; x20; x41; x1a; x00; x00; x00; x01; x00; x00; x00;
   x01; x00; x02; x00; x00; x00; x50; x41; x0a; x00; x00; x00;
   xff; xff; xff; xff].

(** The stream over [bs] with the cursor [n] bytes on. *)
Definition stream_at (n : nat) (bs : list byte) : istream :=
  mkStream (skipn n bs) (Z.of_nat n) false false.

(** The mesh of [mesh_file_one_group] once its face is read. *)
Definition one_face_mesh : M3DTriangleMesh :=
  addFace 0 1 2 (new_M3DTriangleMesh (H := plain_model)).

(** A material-group chunk that declares ten content bytes and holds four:
    the name [m] and a count of zero faces. *)
Definition short_material_group : list byte :=
  [x30; x41; x10; x00; x00; x00; x6d; x00; x00; x00].

(** Two sibling chunks, of 8 and 9 bytes, and one byte after them. *)
Definition two_siblings : list byte := percent25_chunk ++ foreign_chunk.

(** The content of a point array with one vertex, (1, 2, 3); of a texture
    coordinate array with one pair, (1, 2); of a face array with one face,
    (0, 1, 2), whose flags are 7; and of a material group [m] over the faces
    5 and 9. *)
Definition point_array_wire : list byte :=
  [x01; x00;  x00; x00; x80; x3f;  x00; x00; x00; x40;  x00; x00; x40; x40].

Definition tex_coord_array_wire : list byte :=
  [x01; x00;  x00; x00; x80; x3f;  x00; x00; x00; x40].

Definition face_array_wire : list byte :=
  [x01; x00;  x00; x00;  x01; x00;  x02; x00;  x07; x00].

Definition material_group_wire : list byte :=
  [x6d; x00;  x02; x00;  x05; x00;  x09; x00].

(** The content of a material entry: a material-name chunk holding [m]. *)
Definition material_entry_content : list byte :=
  [x00; xa0; x08; x00; x00; x00; x6d; x00].

(** A file whose header declares twelve bytes and that ends after the
    header. *)
Definition truncated_file : list byte :=
  [x4d; x4d; x0c; x00; x00; x00].

(** A chunk of a type no handler knows that declares ten bytes and holds
    seven. *)
Definition truncated_foreign_chunk : list byte :=
  [x99; x99; x0a; x00; x00; x00; xaa].

(** A smoothing-group chunk without content. *)
Definition empty_smooth_group_chunk : list byte :=
  [x50; x41; x06; x00; x00; x00].

(** A mesh that has gathered 65536 faces. *)
Definition mesh_of_65536_faces : M3DTriangleMesh :=
  withFaces (repeat (0, 0, 0) (Z.to_nat (2 ^ 16))) (new_M3DTriangleMesh (H := plain_model)).

(** The named-object chunk of the mesh files has its content at byte 18. *)
Definition model_a_with_group : M3DModel :=
  mkModel "a" [withSmoothingGroups [1] one_face_mesh].

(** * Properties *)

(** ** 32-bit arithmetic *)

Lemma wrap_i32_small (z : Z) : INT32_MIN <= z <= INT32_MAX -> wrap_i32 z = z.
Proof.
  unfold INT32_MIN, INT32_MAX, wrap_i32. intros Hz.
  rewrite Z.mod_small; lia.
Qed.

Lemma wrap_i32_range (z : Z) : INT32_MIN <= wrap_i32 z <= INT32_MAX.
Proof.
  unfold INT32_MIN, INT32_MAX, wrap_i32.
  pose proof (Z.mod_pos_bound (z + 2 ^ 31) (2 ^ 32) ltac:(lia)). lia.
Qed.

Lemma add32_small (a b : Z) :
  INT32_MIN <= a + b <= INT32_MAX -> add32 a b = a + b.
Proof. apply wrap_i32_small. Qed.

Lemma sub32_small (a b : Z) :
  INT32_MIN <= a - b <= INT32_MAX -> sub32 a b = a - b.
Proof. apply wrap_i32_small. Qed.

Lemma wrap_u16_range (z : Z) : 0 <= wrap_u16 z < 2 ^ 16.
Proof. unfold wrap_u16. apply Z.mod_pos_bound. lia. Qed.

(** ** The stream *)

Lemma good_setstate_fail (e : bool) (s : istream) : good (setstate e true s) = false.
Proof. unfold good, setstate; simpl. now rewrite !orb_true_r. Qed.

Lemma good_setstate_eof (f : bool) (s : istream) : good (setstate true f s) = false.
Proof. unfold good, setstate; simpl. now rewrite orb_true_r. Qed.

Lemma good_advance (n : nat) (s : istream) : good (advance n s) = good s.
Proof. reflexivity. Qed.

(** A read that leaves the stream good found it good, found its [n] bytes,
    and moved the cursor past them. *)
Lemma stream_read_good (n : nat) (s s' : istream) (bs : list byte) :
  stream_read n s = (bs, s') -> good s' = true ->
  good s = true /\ (n <= length (rest s))%nat /\
  bs = firstn n (rest s) /\ s' = advance n s.
Proof.
  unfold stream_read. intros H G.
  destruct (good s) eqn:Gs.
  - destruct (n <=? length (rest s))%nat eqn:L; inversion H; subst.
    + apply Nat.leb_le in L. auto.
    + now rewrite good_setstate_fail in G.
  - inversion H; subst. now rewrite good_setstate_fail in G.
Qed.

Lemma stream_read_enough (n : nat) (s : istream) :
  good s = true -> (n <= length (rest s))%nat ->
  stream_read n s = (firstn n (rest s), advance n s).
Proof.
  intros G L. unfold stream_read. rewrite G.
  apply Nat.leb_le in L. now rewrite L.
Qed.

Ltac reader_some H :=
  match type of H with
  | (let (_, _) := stream_read ?n ?s in _) = _ =>
    let bs := fresh "bs" in let s1 := fresh "s1" in
    let E := fresh "E" in let G := fresh "G" in
    destruct (stream_read n s) as [bs s1] eqn:E;
    destruct (good s1) eqn:G; inversion H; subst; clear H;
    destruct (stream_read_good _ _ _ _ E G) as (? & ? & ? & ?); subst
  end.

Lemma readUshort_Some (s s' : istream) (v : Z) :
  readUshort s = (Some v, s') ->
  good s = true /\ (2 <= length (rest s))%nat /\ s' = advance 2 s /\
  v = wrap_u16 (le_value (firstn 2 (rest s))).
Proof. unfold readUshort. intros H. reader_some H. auto. Qed.

Lemma readShort_Some (s s' : istream) (v : Z) :
  readShort s = (Some v, s') ->
  good s = true /\ (2 <= length (rest s))%nat /\ s' = advance 2 s /\
  v = wrap_i16 (le_value (firstn 2 (rest s))).
Proof. unfold readShort. intros H. reader_some H. auto. Qed.

Lemma readInt_Some (s s' : istream) (v : Z) :
  readInt s = (Some v, s') ->
  good s = true /\ (4 <= length (rest s))%nat /\ s' = advance 4 s /\
  v = wrap_i32 (le_value (firstn 4 (rest s))).
Proof. unfold readInt. intros H. reader_some H. auto. Qed.

Lemma readFloat_Some (s s' : istream) (x : float32) :
  readFloat s = (Some x, s') ->
  good s = true /\ (4 <= length (rest s))%nat /\ s' = advance 4 s /\
  x = float32_of_bits (le_value (firstn 4 (rest s))).
Proof. unfold readFloat. intros H. reader_some H. auto. Qed.

Lemma readInt_range (s s' : istream) (v : Z) :
  readInt s = (Some v, s') -> INT32_MIN <= v <= INT32_MAX.
Proof.
  intros H. apply readInt_Some in H. destruct H as (_ & _ & _ & ->).
  apply wrap_i32_range.
Qed.

Lemma readUshort_enough (s : istream) :
  good s = true -> (2 <= length (rest s))%nat ->
  readUshort s = (Some (wrap_u16 (le_value (firstn 2 (rest s)))), advance 2 s).
Proof.
  intros G L. unfold readUshort. rewrite stream_read_enough by assumption.
  now rewrite good_advance, G.
Qed.

Lemma readShort_enough (s : istream) :
  good s = true -> (2 <= length (rest s))%nat ->
  readShort s = (Some (wrap_i16 (le_value (firstn 2 (rest s)))), advance 2 s).
Proof.
  intros G L. unfold readShort. rewrite stream_read_enough by assumption.
  now rewrite good_advance, G.
Qed.

Lemma readInt_enough (s : istream) :
  good s = true -> (4 <= length (rest s))%nat ->
  readInt s = (Some (wrap_i32 (le_value (firstn 4 (rest s)))), advance 4 s).
Proof.
  intros G L. unfold readInt. rewrite stream_read_enough by assumption.
  now rewrite good_advance, G.
Qed.

Lemma readFloat_enough (s : istream) :
  good s = true -> (4 <= length (rest s))%nat ->
  readFloat s = (Some (float32_of_bits (le_value (firstn 4 (rest s)))), advance 4 s).
Proof.
  intros G L. unfold readFloat. rewrite stream_read_enough by assumption.
  now rewrite good_advance, G.
Qed.

(** Skipping bytes that are there moves the cursor past them and sets no
    state bit. *)
Lemma stream_ignore_enough (n : Z) (s : istream) :
  good s = true -> 0 <= n <= Z.of_nat (length (rest s)) ->
  stream_ignore n s =
  mkStream (skipn (Z.to_nat n) (rest s)) (gpos s + n) (eofbit s) (failbit s).
Proof.
  intros G Hn. unfold stream_ignore. rewrite G.
  destruct (n <=? 0) eqn:E0.
  - apply Z.leb_le in E0. assert (n = 0) by lia. subst n. simpl.
    destruct s; simpl. f_equal. lia.
  - destruct (n <=? Z.of_nat (length (rest s))) eqn:E1.
    + unfold advance. f_equal. rewrite Nat.min_l by lia. lia.
    + apply Z.leb_gt in E1. lia.
Qed.

(** Skipping more bytes than are left sets eofbit. *)
Lemma stream_ignore_short (n : Z) (s : istream) :
  Z.of_nat (length (rest s)) < n -> 0 < n -> good (stream_ignore n s) = false.
Proof.
  intros Hn Hp. unfold stream_ignore.
  destruct (good s) eqn:G.
  - destruct (n <=? 0) eqn:E0; [apply Z.leb_le in E0; lia|].
    destruct (n <=? Z.of_nat (length (rest s))) eqn:E1; [apply Z.leb_le in E1; lia|].
    apply good_setstate_eof.
  - apply good_setstate_fail.
Qed.

Lemma good_true (s : istream) :
  good s = true -> eofbit s = false /\ failbit s = false.
Proof.
  unfold good. destruct (eofbit s), (failbit s); simpl; intros H;
    try discriminate; auto.
Qed.

Lemma advance_enough (n : nat) (s : istream) :
  (n <= length (rest s))%nat ->
  advance n s = mkStream (skipn n (rest s)) (gpos s + Z.of_nat n) (eofbit s) (failbit s).
Proof. intros L. unfold advance. now rewrite Nat.min_l by assumption. Qed.

Lemma advance_prefix (n : nat) (s : istream) (pre tail : list byte) :
  good s = true -> rest s = pre ++ tail -> length pre = n ->
  advance n s = mkStream tail (gpos s + Z.of_nat n) false false.
Proof.
  intros G R L. destruct (good_true s G) as [E F].
  rewrite advance_enough by (rewrite R, length_app; lia).
  rewrite E, F, R, <- L, skipn_app, skipn_all, Nat.sub_diag. reflexivity.
Qed.

(** After the two fields of a chunk header the cursor is six bytes on and
    the stream is still good. *)
Lemma header_read (s s1 s2 : istream) (chunkType chunkSize : Z) :
  readUshort s = (Some chunkType, s1) ->
  readInt s1 = (Some chunkSize, s2) ->
  good s = true /\ (6 <= length (rest s))%nat /\
  s2 = mkStream (skipn 6 (rest s)) (gpos s + 6) false false.
Proof.
  intros Hty Hsz.
  apply readUshort_Some in Hty. destruct Hty as (G & L2 & -> & _).
  apply readInt_Some in Hsz. destruct Hsz as (_ & L4 & -> & _).
  rewrite (advance_enough 2 s L2) in *. cbn [rest gpos eofbit failbit] in *.
  rewrite length_skipn in L4.
  destruct (good_true s G) as [E F].
  repeat split; [assumption|lia|].
  rewrite advance_enough by (cbn [rest]; rewrite length_skipn; lia).
  cbn [rest gpos eofbit failbit]. rewrite skipn_skipn, E, F. f_equal. lia.
Qed.

(** ** The dispatcher *)

Section EngineFacts.
Context {T : Type}.
Variable chunkFunc : ProcessChunkFunc T.

Lemma reconcile_cases (chunkSize contentSize processedSize : Z)
      (s s' : istream) (obj obj' : T) (r : Z) :
  reconcile chunkSize contentSize processedSize s obj = (r, s', obj') ->
  (r = READ_FAILURE \/ r = chunkSize) /\ obj' = obj.
Proof.
  unfold reconcile. intros H.
  destruct (processedSize =? READ_FAILURE); [inversion H; auto|].
  destruct (processedSize =? UNKNOWN_CHUNK).
  - destruct (good (stream_ignore contentSize s)); inversion H; auto.
  - destruct (processedSize =? contentSize); simpl in H; inversion H; auto.
Qed.

(** The dispatcher returns [READ_FAILURE] or a chunk size, which is at
    least the six bytes of the header. *)
Lemma read3DSChunk_result (s s' : istream) (obj obj' : T) (r : Z) :
  read3DSChunk chunkFunc s obj = Some (r, s', obj') ->
  r = READ_FAILURE \/ 6 <= r <= INT32_MAX.
Proof.
  unfold read3DSChunk. intros H.
  destruct (readUshort s) as [[chunkType|] s1]; [|inversion H; auto].
  destruct (readInt s1) as [[chunkSize|] s2] eqn:E; [|inversion H; auto].
  apply readInt_range in E.
  destruct (chunkSize <? 6) eqn:L; [inversion H; auto|].
  apply Z.ltb_ge in L.
  destruct (chunkFunc s2 chunkType (sub32 chunkSize 6) obj) as [[[p s3] o3]|];
    [|discriminate].
  inversion H as [R]. apply reconcile_cases in R. destruct R as [[->| ->] _]; auto.
  right. lia.
Qed.

(** C1 (claim C1): once the header of a chunk is read, a declared total
    size below 6 makes the dispatcher fail; otherwise, when the handler
    recognises the type (it does not answer [UNKNOWN_CHUNK]), the dispatcher
    returns the total size, content size plus 6, exactly when the handler's
    return equals the content size, and [READ_FAILURE] for every other
    return. *)
Theorem read3DSChunk_recognized
        (s s1 s2 : istream) (obj : T) (chunkType chunkSize : Z) :
  readUshort s = (Some chunkType, s1) ->
  readInt s1 = (Some chunkSize, s2) ->
  (chunkSize < 6 -> read3DSChunk chunkFunc s obj = Some (READ_FAILURE, s2, obj)) /\
  (forall (processedSize : Z) (s3 : istream) (obj' : T),
      6 <= chunkSize ->
      chunkFunc s2 chunkType (chunkSize - 6) obj = Some (processedSize, s3, obj') ->
      processedSize <> UNKNOWN_CHUNK ->
      exists r,
        read3DSChunk chunkFunc s obj = Some (r, s3, obj') /\
        (r = chunkSize <-> processedSize = chunkSize - 6) /\
        (processedSize <> chunkSize - 6 -> r = READ_FAILURE)).
Proof.
  intros Hty Hsz. pose proof (readInt_range _ _ _ Hsz) as Rg.
  unfold read3DSChunk. rewrite Hty, Hsz. split.
  - intros L. apply Z.ltb_lt in L. now rewrite L.
  - intros p s3 obj' L Hf Hu.
    assert (L' : (chunkSize <? 6) = false) by (apply Z.ltb_ge; lia).
    rewrite L'. unfold INT32_MIN, INT32_MAX in Rg.
    rewrite sub32_small by (unfold INT32_MIN, INT32_MAX; lia).
    rewrite Hf. unfold reconcile.
    destruct (p =? READ_FAILURE) eqn:E1.
    { apply Z.eqb_eq in E1. subst p. exists READ_FAILURE.
      unfold READ_FAILURE. repeat split; intros; lia. }
    assert (E2 : (p =? UNKNOWN_CHUNK) = false) by (apply Z.eqb_neq; assumption).
    rewrite E2.
    destruct (p =? chunkSize - 6) eqn:E3; simpl.
    + apply Z.eqb_eq in E3. exists chunkSize. repeat split; intros; auto. lia.
    + apply Z.eqb_neq in E3. exists READ_FAILURE.
      unfold READ_FAILURE. repeat split; intros; lia.
Qed.

(** C3 (claim C3): for a chunk whose type the handler reports as unknown,
    with its declared content present in the stream, the dispatcher skips
    exactly the content, whatever its bytes are: the cursor ends the total
    size past the chunk's start, on the byte after the content, and the total
    size is returned, never [READ_FAILURE]. *)
Theorem read3DSChunk_unknown
        (s s1 s2 : istream) (obj obj' : T) (chunkType chunkSize : Z)
        (content tail : list byte) :
  readUshort s = (Some chunkType, s1) ->
  readInt s1 = (Some chunkSize, s2) ->
  6 <= chunkSize ->
  chunkFunc s2 chunkType (chunkSize - 6) obj = Some (UNKNOWN_CHUNK, s2, obj') ->
  rest s2 = content ++ tail ->
  Z.of_nat (length content) = chunkSize - 6 ->
  read3DSChunk chunkFunc s obj =
    Some (chunkSize, mkStream tail (gpos s + chunkSize) false false, obj') /\
  chunkSize <> READ_FAILURE.
Proof.
  intros Hty Hsz L Hf Hrest Hlen. pose proof (readInt_range _ _ _ Hsz) as Rg.
  split; [|unfold READ_FAILURE; lia].
  unfold read3DSChunk. rewrite Hty, Hsz.
  assert (L' : (chunkSize <? 6) = false) by (apply Z.ltb_ge; lia).
  rewrite L'. unfold INT32_MIN, INT32_MAX in Rg.
  rewrite sub32_small by (unfold INT32_MIN, INT32_MAX; lia).
  rewrite Hf. unfold reconcile.
  change (UNKNOWN_CHUNK =? READ_FAILURE) with false.
  change (UNKNOWN_CHUNK =? UNKNOWN_CHUNK) with true. cbv iota.
  destruct (header_read _ _ _ _ _ Hty Hsz) as (G & L6 & E2).
  assert (G2 : good s2 = true) by (subst s2; reflexivity).
  rewrite stream_ignore_enough; try assumption.
  2:{ rewrite Hrest, length_app. lia. }
  rewrite Hrest, <- Hlen, Nat2Z.id, skipn_app, skipn_all, Nat.sub_diag.
  subst s2. cbn [gpos eofbit failbit good orb negb skipn app].
  replace (gpos s + 6 + Z.of_nat (length content)) with (gpos s + chunkSize) by lia.
  reflexivity.
Qed.

(** ** The chunk loop *)

Lemma sibling_run_sizes (s s' : istream) (obj obj' : T) (sizes : list Z) :
  sibling_run chunkFunc s obj sizes s' obj' ->
  Forall (fun size => 6 <= size <= INT32_MAX) sizes.
Proof.
  induction 1 as [|s obj size s1 obj1 sizes s2 obj2 Hd Hs _ IH]; constructor; auto.
  apply read3DSChunk_result in Hd. destruct Hd; [unfold READ_FAILURE in *; lia|auto].
Qed.

Lemma loop_stop (fuel : nat) (s : istream) (nBytes b : Z) (obj : T) :
  nBytes <= b ->
  read3DSChunks_loop chunkFunc fuel s nBytes b obj =
  Some (if b =? nBytes then b else READ_FAILURE, s, obj).
Proof.
  intros L. apply Z.ltb_ge in L.
  destruct fuel; cbn [read3DSChunks_loop]; rewrite L;
    destruct (b =? nBytes); reflexivity.
Qed.

(** Along a run of successful dispatches that the loop condition lets
    through, the loop does what the run says. *)
Lemma loop_along_run (s s' : istream) (obj obj' : T) (sizes : list Z) :
  sibling_run chunkFunc s obj sizes s' obj' ->
  forall (nBytes b : Z) (fuel : nat),
    running_below nBytes b sizes ->
    read3DSChunks_loop chunkFunc (length sizes + fuel) s nBytes b obj =
    read3DSChunks_loop chunkFunc fuel s' nBytes (accumulate_from b sizes) obj'.
Proof.
  induction 1 as [|s obj size s1 obj1 sizes s2 obj2 Hd Hs _ IH];
    intros nBytes b fuel Hb.
  - reflexivity.
  - destruct Hb as [Hlt Hb]. cbn [length Nat.add read3DSChunks_loop].
    apply Z.ltb_lt in Hlt. rewrite Hlt, Hd.
    destruct (size <? 0) eqn:E; [apply Z.ltb_lt in E; lia|].
    now apply IH.
Qed.

Lemma loop_fuel_le (sizes : list Z) (fuel : nat) :
  (length sizes <= fuel)%nat -> exists extra, fuel = (length sizes + extra)%nat.
Proof. intros L. exists (fuel - length sizes)%nat. lia. Qed.

(** Every result of the loop comes about in one of three ways: the run met
    the budget, the run overshot it, or a dispatch failed. *)
Lemma loop_sound (nBytes : Z) :
  forall (fuel : nat) (s : istream) (b : Z) (obj : T) (r : Z) (s' : istream) (obj' : T),
    read3DSChunks_loop chunkFunc fuel s nBytes b obj = Some (r, s', obj') ->
    (exists sizes,
        sibling_run chunkFunc s obj sizes s' obj' /\
        running_below nBytes b sizes /\
        ((accumulate_from b sizes = nBytes /\ r = accumulate_from b sizes) \/
         (nBytes < accumulate_from b sizes /\ r = READ_FAILURE))) \/
    (exists sizes s1 obj1 rf,
        sibling_run chunkFunc s obj sizes s1 obj1 /\
        running_below nBytes b sizes /\
        accumulate_from b sizes < nBytes /\
        read3DSChunk chunkFunc s1 obj1 = Some (rf, s', obj') /\
        rf < 0 /\ r = READ_FAILURE).
Proof.
  assert (Stop : forall fuel s b obj r s' obj',
             nBytes <= b ->
             read3DSChunks_loop chunkFunc fuel s nBytes b obj = Some (r, s', obj') ->
             exists sizes,
               sibling_run chunkFunc s obj sizes s' obj' /\
               running_below nBytes b sizes /\
               ((accumulate_from b sizes = nBytes /\ r = accumulate_from b sizes) \/
                (nBytes < accumulate_from b sizes /\ r = READ_FAILURE))).
  { intros fuel s b obj r s' obj' L H. rewrite loop_stop in H by assumption.
    inversion H; subst. exists []. split; [constructor|]. split; [exact I|].
    unfold accumulate_from; simpl.
    destruct (b =? nBytes) eqn:E.
    - apply Z.eqb_eq in E. left. auto.
    - apply Z.eqb_neq in E. right. split; [lia|reflexivity]. }
  induction fuel as [|fuel IH]; intros s b obj r s' obj' H.
  - destruct (Z.lt_ge_cases b nBytes) as [L|L]; [|left; eapply Stop; eauto].
    cbn [read3DSChunks_loop] in H. apply Z.ltb_lt in L. rewrite L in H. discriminate.
  - destruct (Z.lt_ge_cases b nBytes) as [L|L]; [|left; eapply Stop; eauto].
    cbn [read3DSChunks_loop] in H.
    rewrite (proj2 (Z.ltb_lt _ _) L) in H.
    destruct (read3DSChunk chunkFunc s obj) as [[[size s1] obj1]|] eqn:Hd;
      [|discriminate].
    destruct (size <? 0) eqn:E.
    + apply Z.ltb_lt in E. inversion H; subst.
      right. exists [], s, obj, size.
      repeat split; auto. constructor.
    + apply Z.ltb_ge in E. apply IH in H.
      destruct H as [(sizes & Hr & Hb & Hc)|(sizes & s2 & obj2 & rf & Hr & Hb & Hc)].
      * left. exists (size :: sizes). split; [econstructor; eauto|].
        split; [split; assumption|]. exact Hc.
      * right. exists (size :: sizes), s2, obj2, rf.
        split; [econstructor; eauto|]. split; [split; assumption|]. exact Hc.
Qed.

(** While the sum fits in 32 bits the accumulator holds it. *)
Lemma accumulate_total (sizes : list Z) :
  Forall (fun size => 0 < size) sizes ->
  forall b, 0 <= b -> b + total_size sizes <= INT32_MAX ->
       accumulate_from b sizes = b + total_size sizes.
Proof.
  induction 1 as [|size sizes Hs Hf IH]; intros b Hb Hm; simpl.
  - unfold accumulate_from. simpl. lia.
  - assert (Ht : 0 <= total_size sizes).
    { clear -Hf. induction Hf; simpl; lia. }
    simpl in Hm. unfold accumulate_from in *. simpl.
    rewrite add32_small by (unfold INT32_MIN, INT32_MAX in *; lia).
    rewrite IH; lia.
Qed.

Lemma total_size_nonneg (sizes : list Z) :
  Forall (fun size => 0 < size) sizes -> 0 <= total_size sizes.
Proof. induction 1; simpl; lia. Qed.

Lemma running_below_total (sizes : list Z) :
  Forall (fun size => 0 < size) sizes ->
  forall b nBytes, 0 <= b -> b + total_size sizes <= nBytes -> nBytes <= INT32_MAX ->
              running_below nBytes b sizes.
Proof.
  induction 1 as [|size sizes Hs Hf IH]; intros b nBytes Hb Hm Hn; simpl; [exact I|].
  pose proof (total_size_nonneg _ Hf). simpl in Hm.
  split; [lia|].
  rewrite add32_small by (unfold INT32_MIN, INT32_MAX in *; lia).
  apply IH; lia.
Qed.

Lemma running_below_app (nBytes b : Z) (front back : list Z) :
  running_below nBytes b front ->
  running_below nBytes (accumulate_from b front) back ->
  running_below nBytes b (front ++ back).
Proof.
  revert b. induction front as [|size front IH]; intros b Hf Hb; simpl in *.
  - exact Hb.
  - destruct Hf as [Hlt Hf]. split; [assumption|]. now apply IH.
Qed.

Lemma total_size_app (front back : list Z) :
  total_size (front ++ back) = total_size front + total_size back.
Proof. induction front; simpl; lia. Qed.

Lemma Forall_weaken_sizes (sizes : list Z) :
  Forall (fun size => 6 <= size <= INT32_MAX) sizes ->
  Forall (fun size => 0 < size) sizes.
Proof. apply Forall_impl. intros; lia. Qed.

(** A run that the loop condition lets through and whose accumulated sizes
    are the budget makes [read3DSChunks] return the budget. *)
Lemma read3DSChunks_met (s s' : istream) (nBytes : Z) (obj obj' : T)
      (sizes : list Z) (fuel : nat) :
  sibling_run chunkFunc s obj sizes s' obj' ->
  below_budget nBytes sizes -> accumulate sizes = nBytes ->
  (length sizes <= fuel)%nat ->
  read3DSChunks chunkFunc fuel s nBytes obj = Some (nBytes, s', obj').
Proof.
  intros Hr Hb Ha Hf.
  destruct (loop_fuel_le _ _ Hf) as [extra ->]. unfold read3DSChunks.
  rewrite (loop_along_run _ _ _ _ _ Hr) by exact Hb.
  fold (accumulate sizes). rewrite Ha, loop_stop by lia.
  now rewrite Z.eqb_refl.
Qed.

(** Sizes that sum to the budget make [read3DSChunks] return it. *)
Lemma read3DSChunks_sum_met (s s' : istream) (nBytes : Z) (obj obj' : T)
      (sizes : list Z) (fuel : nat) :
  sibling_run chunkFunc s obj sizes s' obj' ->
  total_size sizes = nBytes -> nBytes <= INT32_MAX ->
  (length sizes <= fuel)%nat ->
  read3DSChunks chunkFunc fuel s nBytes obj = Some (nBytes, s', obj').
Proof.
  intros Hrun Ht Hn Hf.
  pose proof (Forall_weaken_sizes _ (sibling_run_sizes _ _ _ _ _ Hrun)) as Pos.
  apply (read3DSChunks_met s s' nBytes obj obj' sizes); auto.
  - apply running_below_total; auto; lia.
  - unfold accumulate. rewrite accumulate_total; auto; lia.
Qed.

(** C2 (claim C2): [read3DSChunks] succeeds exactly when every chunk it
    dispatches succeeds and the sizes it accumulates in [bytesRead] come to
    the budget, and a success returns the budget.  Sizes whose sum is the
    budget make it succeed; a last chunk that takes the sum past the budget,
    by one byte or more, makes it fail; a failed dispatch makes it fail with
    the stream and the object as that dispatch left them, no further chunk
    being read. *)
Theorem read3DSChunks_budget (s : istream) (nBytes : Z) (obj : T) :
  (forall s' obj',
      (exists fuel r,
          read3DSChunks chunkFunc fuel s nBytes obj = Some (r, s', obj') /\ 0 <= r) <->
      (exists sizes,
          sibling_run chunkFunc s obj sizes s' obj' /\
          below_budget nBytes sizes /\ accumulate sizes = nBytes)) /\
  (forall fuel r s' obj',
      read3DSChunks chunkFunc fuel s nBytes obj = Some (r, s', obj') ->
      0 <= r -> r = nBytes) /\
  (forall sizes s' obj' fuel,
      sibling_run chunkFunc s obj sizes s' obj' ->
      total_size sizes = nBytes -> nBytes <= INT32_MAX ->
      (length sizes <= fuel)%nat ->
      read3DSChunks chunkFunc fuel s nBytes obj = Some (nBytes, s', obj')) /\
  (forall sizes s' obj' fuel,
      sibling_run chunkFunc s obj sizes s' obj' ->
      below_budget nBytes sizes -> nBytes < accumulate sizes ->
      (length sizes <= fuel)%nat ->
      read3DSChunks chunkFunc fuel s nBytes obj = Some (READ_FAILURE, s', obj')) /\
  (forall front last s' obj' fuel,
      sibling_run chunkFunc s obj (front ++ [last]) s' obj' ->
      total_size front < nBytes < total_size (front ++ [last]) ->
      total_size (front ++ [last]) <= INT32_MAX ->
      (length (front ++ [last]) <= fuel)%nat ->
      read3DSChunks chunkFunc fuel s nBytes obj = Some (READ_FAILURE, s', obj')) /\
  (forall sizes s1 obj1 r s' obj' fuel,
      sibling_run chunkFunc s obj sizes s1 obj1 ->
      below_budget nBytes sizes -> accumulate sizes < nBytes ->
      read3DSChunk chunkFunc s1 obj1 = Some (r, s', obj') -> r < 0 ->
      (length sizes < fuel)%nat ->
      read3DSChunks chunkFunc fuel s nBytes obj = Some (READ_FAILURE, s', obj')).
Proof.
  assert (Over : forall sizes s' obj' fuel,
             sibling_run chunkFunc s obj sizes s' obj' ->
             below_budget nBytes sizes -> nBytes < accumulate sizes ->
             (length sizes <= fuel)%nat ->
             read3DSChunks chunkFunc fuel s nBytes obj = Some (READ_FAILURE, s', obj')).
  { intros sizes s' obj' fuel Hr Hb Ha Hf.
    destruct (loop_fuel_le _ _ Hf) as [extra ->]. unfold read3DSChunks.
    rewrite (loop_along_run _ _ _ _ _ Hr) by exact Hb.
    fold (accumulate sizes). rewrite loop_stop by lia.
    destruct (accumulate sizes =? nBytes) eqn:E; [apply Z.eqb_eq in E; lia|reflexivity]. }
  split; [|split; [|split; [|split; [|split]]]].
  - intros s' obj'. split.
    + intros (fuel & r & H & Hr). unfold read3DSChunks in H.
      apply loop_sound in H.
      destruct H as [(sizes & Hrun & Hb & [[Ha _]|[_ ->]])
                    |(sizes & s1 & obj1 & rf & _ & _ & _ & _ & _ & ->)];
        try (unfold READ_FAILURE in Hr; lia).
      exists sizes. auto.
    + intros (sizes & Hrun & Hb & Ha).
      exists (length sizes), nBytes.
      split; [now apply (read3DSChunks_met s s' nBytes obj obj' sizes)|].
      subst nBytes. destruct sizes as [|size sizes]; [unfold accumulate, accumulate_from; simpl; lia|].
      destruct Hb as [Hlt _]. lia.
  - intros fuel r s' obj' H Hr. unfold read3DSChunks in H. apply loop_sound in H.
    destruct H as [(sizes & _ & _ & [[Ha ->]|[_ ->]])
                  |(sizes & s1 & obj1 & rf & _ & _ & _ & _ & _ & ->)];
      first [exact Ha | unfold READ_FAILURE in Hr; lia].
  - intros sizes s' obj' fuel. apply read3DSChunks_sum_met.
  - exact Over.
  - intros front last s' obj' fuel Hrun [Hlo Hhi] Hm Hf.
    pose proof (Forall_weaken_sizes _ (sibling_run_sizes _ _ _ _ _ Hrun)) as Pos.
    apply Forall_app in Pos as Pos'. destruct Pos' as [Pf Pl].
    rewrite total_size_app in Hm, Hhi. simpl in Hm, Hhi.
    assert (Hlast : 0 < last) by (inversion Pl; assumption).
    assert (Af : accumulate_from 0 front = 0 + total_size front).
    { apply accumulate_total; auto; lia. }
    apply (Over (front ++ [last])); auto.
    + apply running_below_app.
      * apply running_below_total; auto; unfold INT32_MAX in *; lia.
      * simpl. rewrite Af. split; [lia|exact I].
    + unfold accumulate.
      rewrite accumulate_total; [|assumption|lia|]; rewrite total_size_app; simpl; lia.
  - intros sizes s1 obj1 r s' obj' fuel Hrun Hb Ha Hd Hr Hf.
    destruct fuel as [|fuel]; [lia|].
    assert (Hf' : (length sizes <= fuel)%nat) by lia.
    destruct (loop_fuel_le _ _ Hf') as [extra ->]. unfold read3DSChunks.
    replace (S (length sizes + extra)) with (length sizes + S extra)%nat by lia.
    rewrite (loop_along_run _ _ _ _ _ Hrun) by exact Hb.
    fold (accumulate sizes). cbn [read3DSChunks_loop].
    rewrite (proj2 (Z.ltb_lt _ _) Ha), Hd, (proj2 (Z.ltb_lt _ _) Hr). reflexivity.
Qed.

(** With a budget of zero the loop body never runs: whatever the handler,
    the call returns 0 and leaves the stream and the object alone. *)
Lemma read3DSChunks_zero (fuel : nat) (s : istream) (obj : T) :
  read3DSChunks chunkFunc fuel s 0 obj = Some (0, s, obj).
Proof. unfold read3DSChunks. now rewrite loop_stop by lia. Qed.

(** The loop returns [READ_FAILURE] or its budget, which is then not
    negative. *)
Lemma read3DSChunks_result (fuel : nat) (s s' : istream) (nBytes r : Z) (obj obj' : T) :
  read3DSChunks chunkFunc fuel s nBytes obj = Some (r, s', obj') ->
  r = READ_FAILURE \/ (r = nBytes /\ 0 <= nBytes).
Proof.
  unfold read3DSChunks. intros H. apply loop_sound in H.
  destruct H as [(sizes & _ & Hb & [[Ha ->]|[_ ->]])
                |(sizes & s1 & obj1 & rf & _ & _ & _ & _ & _ & ->)]; auto.
  right. split; [assumption|].
  destruct sizes as [|size sizes]; [unfold accumulate_from in Ha; simpl in Ha; lia|].
  destruct Hb as [Hlt _]. lia.
Qed.
End EngineFacts.

(** The dispatcher with the percentage handler, on a chunk it reads and on
    a chunk that is not in its vocabulary. *)
Lemma read3DSChunk_recognized_witness :
  read3DSChunk (processPercentageChunk (tags := std_tags))
               (stream_of percent25_chunk) f32_0 =
  Some (8, mkStream [] 8 false false, float32_of_Z 25).
Proof.
  destruct (read3DSChunk_recognized
              (processPercentageChunk (tags := std_tags))
              (stream_of percent25_chunk)
              (mkStream [x08; x00; x00; x00; x19; x00] 2 false false)
              (mkStream [x19; x00] 6 false false)
              f32_0 48 8 eq_refl eq_refl) as [_ H].
  destruct (H 2 (mkStream [] 8 false false) (float32_of_Z 25)
              ltac:(lia) eq_refl ltac:(discriminate)) as (r & Hr & Hiff & _).
  rewrite Hr. rewrite (proj2 Hiff eq_refl). reflexivity.
Defined.

Lemma read3DSChunk_unknown_witness :
  read3DSChunk (processPercentageChunk (tags := std_tags))
               (stream_of foreign_chunk) f32_0 =
  Some (9, mkStream [xff] 9 false false, f32_0) /\ 9 <> READ_FAILURE.
Proof.
  apply (read3DSChunk_unknown
           (processPercentageChunk (tags := std_tags))
           (stream_of foreign_chunk)
           (mkStream [x09; x00; x00; x00; xaa; xbb; xcc; xff] 2 false false)
           (mkStream [xaa; xbb; xcc; xff] 6 false false)
           f32_0 f32_0 0x9999 9 [xaa; xbb; xcc] [xff]);
    [reflexivity|reflexivity|lia|reflexivity|reflexivity|reflexivity].
Defined.

(** The chunk loop on two siblings of 8 and 9 bytes: a budget of 17 is met,
    a budget of 16 is overshot by one byte, and a budget of 18 sends the
    loop into the single byte that is left, where the dispatch fails. *)
Lemma sibling_budget_examples :
  read3DSChunks (processPercentageChunk (tags := std_tags)) 2
                (stream_of two_siblings) 17 f32_0 =
  Some (17, mkStream [xff] 17 false false, float32_of_Z 25) /\
  read3DSChunks (processPercentageChunk (tags := std_tags)) 2
                (stream_of two_siblings) 16 f32_0 =
  Some (READ_FAILURE, mkStream [xff] 17 false false, float32_of_Z 25) /\
  read3DSChunks (processPercentageChunk (tags := std_tags)) 3
                (stream_of two_siblings) 18 f32_0 =
  Some (READ_FAILURE, mkStream [] 18 true true, float32_of_Z 25).
Proof. repeat split; vm_compute; reflexivity. Qed.

(** ** The entry point *)

(** C6 (claim C6): on a stream whose first 16-bit field is not the magic
    tag, [Read3DSFile] returns no scene and has consumed the two bytes of
    that field and nothing after them. *)
Theorem Read3DSFile_wrong_magic
        {tags : ChunkTags} {m3d : Model3DS}
        (fuel : nat) (s : istream) (b0 b1 : byte) (tail : list byte) :
  good s = true ->
  rest s = b0 :: b1 :: tail ->
  wrap_u16 (le_value [b0; b1]) <> M3DCHUNK_MAGIC ->
  Read3DSFile fuel s = Some (None, mkStream tail (gpos s + 2) false false).
Proof.
  intros G R M. unfold Read3DSFile.
  rewrite readUshort_enough by (try assumption; rewrite R; simpl; lia).
  rewrite R. cbn [firstn].
  apply Z.eqb_neq in M. rewrite M. cbn [negb].
  now rewrite (advance_prefix 2 s [b0; b1] tail G R eq_refl).
Qed.

Lemma Read3DSFile_wrong_magic_witness :
  Read3DSFile (tags := std_tags) (m3d := plain_model) 0 (stream_of wrong_magic_file) =
  Some (None, mkStream [x06; x00; x00; x00] 2 false false).
Proof.
  apply (Read3DSFile_wrong_magic (tags := std_tags) (m3d := plain_model)
           0%nat (stream_of wrong_magic_file) x4e x4d [x06; x00; x00; x00]);
    [reflexivity|reflexivity|].
  vm_compute. discriminate.
Defined.

(** C10 (claim C10): with a byte budget of 0, [read3DSChunks] returns 0
    whatever the handler is, even without fuel for a single dispatch, and
    leaves the stream and the object untouched; so a stream that holds the
    magic tag and a total size of 6 yields a scene, the freshly constructed
    one, with no model and no material. *)
Theorem empty_budget_empty_scene :
  (forall (T : Type) (chunkFunc : ProcessChunkFunc T) (fuel : nat)
          (s : istream) (obj : T),
      read3DSChunks chunkFunc fuel s 0 obj = Some (0, s, obj)) /\
  (forall (tags : ChunkTags) (m3d : Model3DS) (fuel : nat) (s : istream)
          (b0 b1 : byte) (tail : list byte),
      good s = true ->
      rest s = b0 :: b1 :: x06 :: x00 :: x00 :: x00 :: tail ->
      wrap_u16 (le_value [b0; b1]) = M3DCHUNK_MAGIC ->
      Read3DSFile fuel s =
      Some (Some new_M3DScene, mkStream tail (gpos s + 6) false false) /\
      models new_M3DScene = [] /\ materials new_M3DScene = []) /\
  Read3DSFile (tags := std_tags) (m3d := plain_model) 0 (stream_of empty_file) =
  Some (Some (mkScene [] [] black), mkStream [] 6 false false).
Proof.
  split; [|split].
  - intros. apply read3DSChunks_zero.
  - intros tags m3d fuel s b0 b1 tail G R M.
    split; [|split; reflexivity].
    unfold Read3DSFile.
    rewrite readUshort_enough by (try assumption; rewrite R; simpl; lia).
    rewrite R. cbn [firstn]. rewrite M, Z.eqb_refl. cbn [negb].
    rewrite (advance_prefix 2 s [b0; b1] _ G R eq_refl).
    change (readInt (mkStream (x06 :: x00 :: x00 :: x00 :: tail)
                              (gpos s + Z.of_nat 2) false false))
      with (Some 6, mkStream tail (gpos s + Z.of_nat 2 + Z.of_nat 4) false false).
    change (6 <? 6) with false. cbv iota.
    change (sub32 6 6) with 0. rewrite read3DSChunks_zero.
    change (0 <? 0) with false. change (negb (0 =? 0)) with false. cbv iota.
    replace (gpos s + Z.of_nat 2 + Z.of_nat 4) with (gpos s + 6) by lia.
    reflexivity.
  - reflexivity.
Qed.

(** ** Switch labels *)

Ltac split_labels ND :=
  repeat match type of ND with
         | NoDup (_ :: _) =>
           let H := fresh "Hnotin" in
           let ND' := fresh "ND" in
           apply NoDup_cons_iff in ND; destruct ND as [H ND']; simpl in H;
           rename ND' into ND
         end.

Section Labels.
Context {tags : ChunkTags}.


Lemma tri_mesh_face_array_label :
  (M3DCHUNK_FACE_ARRAY =? M3DCHUNK_POINT_ARRAY) = false /\
  (M3DCHUNK_FACE_ARRAY =? M3DCHUNK_MESH_TEXTURE_COORDS) = false.
Proof.
  pose proof tri_mesh_labels as ND. split_labels ND.
  repeat split; apply Z.eqb_neq; intuition congruence.
Qed.

Lemma smooth_group_label :
  (M3DCHUNK_MESH_SMOOTH_GROUP =? M3DCHUNK_MESH_MATERIAL_GROUP) = false.
Proof.
  pose proof face_array_labels as ND. split_labels ND.
  apply Z.eqb_neq; intuition congruence.
Qed.

Lemma transparency_label :
  (M3DCHUNK_MATERIAL_TRANSPARENCY =? M3DCHUNK_MATERIAL_NAME) = false /\
  (M3DCHUNK_MATERIAL_TRANSPARENCY =? M3DCHUNK_MATERIAL_AMBIENT) = false /\
  (M3DCHUNK_MATERIAL_TRANSPARENCY =? M3DCHUNK_MATERIAL_DIFFUSE) = false /\
  (M3DCHUNK_MATERIAL_TRANSPARENCY =? M3DCHUNK_MATERIAL_SPECULAR) = false /\
  (M3DCHUNK_MATERIAL_TRANSPARENCY =? M3DCHUNK_MATERIAL_SHININESS) = false.
Proof.
  pose proof material_labels as ND. split_labels ND.
  repeat split; apply Z.eqb_neq; intuition congruence.
Qed.

Lemma scene_entry_labels :
  (M3DCHUNK_MATERIAL_ENTRY =? M3DCHUNK_NAMED_OBJECT) = false /\
  (M3DCHUNK_BACKGROUND_COLOR =? M3DCHUNK_NAMED_OBJECT) = false /\
  (M3DCHUNK_BACKGROUND_COLOR =? M3DCHUNK_MATERIAL_ENTRY) = false.
Proof.
  pose proof scene_labels as ND. split_labels ND.
  repeat split; apply Z.eqb_neq; intuition congruence.
Qed.
End Labels.

(** ** The mesh matrix *)





(** ** Percentages and opacity *)

(** 0.75 as a binary32 value: 12582912 * 2^-24. *)
Lemma three_quarters_bits :
  float32_of_bits 0x3f400000 = S754_finite false 12582912 (-24).
Proof. reflexivity. Qed.

(** An integer-percentage chunk alone in its budget of 8 bytes leaves its
    value, widened, in the percentage. *)
Lemma read_int_percentage
      {tags : ChunkTags} (fuel : nat) (s s1 s2 s3 : istream) (v : Z) (t0 : float32) :
  readUshort s = (Some M3DCHUNK_INT_PERCENTAGE, s1) ->
  readInt s1 = (Some 8, s2) ->
  readShort s2 = (Some v, s3) ->
  read3DSChunks processPercentageChunk (S fuel) s 8 t0 =
  Some (8, s3, float32_of_Z v).
Proof.
  intros Hty Hsz Hv.
  apply (read3DSChunks_sum_met processPercentageChunk s s3 8 t0 _ [8]);
    [|reflexivity|unfold INT32_MAX; lia|simpl; lia].
  econstructor; [|lia|constructor].
  unfold read3DSChunk. rewrite Hty, Hsz.
  change (8 <? 6) with false. cbv iota.
  change (sub32 8 6) with 2.
  unfold processPercentageChunk. rewrite Z.eqb_refl, Hv. reflexivity.
Qed.

(** C8 (claim C8): a transparency chunk whose percentage sub-chunks decode
    to [t] sets the material's opacity to [1 - t / 100] in single precision;
    so does, for its value, an integer percentage alone in the chunk; and a
    transparency percentage of 25 yields the opacity 0.75. *)
Theorem transparency_sets_opacity
        {tags : ChunkTags} {m3d : Model3DS} (fuel : nat) (material : M3DMaterial) :
  (forall (s s' : istream) (contentSize bytesRead : Z) (t : float32),
      read3DSChunks processPercentageChunk fuel s contentSize local_float =
      Some (bytesRead, s', t) ->
      0 <= bytesRead ->
      processMaterialChunk fuel s M3DCHUNK_MATERIAL_TRANSPARENCY contentSize material =
      Some (bytesRead, s',
            setOpacity (f32_sub f32_1 (f32_div t f32_100)) material)) /\
  (forall (s s1 s2 s3 : istream) (v : Z),
      readUshort s = (Some M3DCHUNK_INT_PERCENTAGE, s1) ->
      readInt s1 = (Some 8, s2) ->
      readShort s2 = (Some v, s3) ->
      processMaterialChunk (S fuel) s M3DCHUNK_MATERIAL_TRANSPARENCY 8 material =
      Some (8, s3,
            setOpacity (f32_sub f32_1 (f32_div (float32_of_Z v) f32_100)) material)) /\
  f32_sub f32_1 (f32_div (float32_of_Z 25) f32_100) = float32_of_bits 0x3f400000 /\
  (exists material',
      processMaterialChunk (tags := std_tags) (m3d := plain_model) 1
        (stream_of percent25_chunk) (@M3DCHUNK_MATERIAL_TRANSPARENCY std_tags) 8
        (@new_M3DMaterial plain_model) =
      Some (8, mkStream [] 8 false false, material') /\
      opacity material' = S754_finite false 12582912 (-24)).
Proof.
  assert (General : forall fuel' (s s' : istream) (contentSize bytesRead : Z) (t : float32),
             read3DSChunks processPercentageChunk fuel' s contentSize local_float =
             Some (bytesRead, s', t) ->
             0 <= bytesRead ->
             processMaterialChunk fuel' s M3DCHUNK_MATERIAL_TRANSPARENCY contentSize material =
             Some (bytesRead, s',
                   setOpacity (f32_sub f32_1 (f32_div t f32_100)) material)).
  { intros fuel' s s' contentSize bytesRead t H Hr. unfold processMaterialChunk.
    destruct transparency_label as (-> & -> & -> & -> & ->).
    rewrite Z.eqb_refl, H. apply Z.ltb_ge in Hr. now rewrite Hr. }
  split; [apply General|]. split; [|split].
  - intros s s1 s2 s3 v Hty Hsz Hv. apply General; [|lia].
    eapply read_int_percentage; eauto.
  - reflexivity.
  - eexists. split; [vm_compute; reflexivity|reflexivity].
Qed.

Lemma byte_of_val (z : Z) : 0 <= z < 256 -> exists b : byte, byte_val b = z.
Proof.
  intros Hz. destruct (Byte.of_N (Z.to_N z)) as [b|] eqn:E.
  - exists b. unfold byte_val. apply Byte.to_of_N in E. rewrite E. lia.
  - apply Byte.of_N_None_iff in E. lia.
Qed.

(** Every 16-bit signed value is the value of two bytes on the wire. *)
Lemma int16_on_wire (v : Z) :
  - 2 ^ 15 <= v < 2 ^ 15 -> exists b0 b1 : byte, wrap_i16 (le_value [b0; b1]) = v.
Proof.
  intros Hv. set (u := v mod 2 ^ 16).
  assert (Hu : 0 <= u < 2 ^ 16) by (apply Z.mod_pos_bound; lia).
  destruct (byte_of_val (u mod 256)) as [b0 E0]; [apply Z.mod_pos_bound; lia|].
  destruct (byte_of_val (u / 256)) as [b1 E1].
  { split; [apply Z.div_pos; lia|apply Z.div_lt_upper_bound; lia]. }
  exists b0, b1. cbn [le_value]. rewrite E0, E1.
  replace (u mod 256 + 256 * (u / 256 + 256 * 0)) with u
    by (pose proof (Z.div_mod u 256 ltac:(lia)); lia).
  unfold wrap_i16.
  destruct (Z.lt_ge_cases v 0) as [Neg|Pos].
  - assert (Eu : u = v + 2 ^ 16).
    { unfold u. symmetry. apply Z.mod_unique with (-1); lia. }
    rewrite Eu. replace (v + 2 ^ 16 + 2 ^ 15) with (v + 2 ^ 15 + 1 * 2 ^ 16) by lia.
    rewrite Z.mod_add by lia. rewrite Z.mod_small; lia.
  - assert (Eu : u = v) by (unfold u; apply Z.mod_small; lia).
    rewrite Eu. rewrite Z.mod_small; lia.
Qed.

(** C9 (claim C9): the integer form of a percentage is accepted whatever
    its two bytes are, and they can be any 16-bit signed value; the handler
    returns 2 and the value widened to float.  A transparency of -25 gives
    the opacity 1.25, above 1, and one of 200 gives -1, below 0. *)
Theorem percentage_not_range_checked :
  (forall (tags : ChunkTags) (s : istream) (b0 b1 : byte) (tail : list byte)
          (contentSize : Z) (percent : float32),
      good s = true ->
      rest s = b0 :: b1 :: tail ->
      processPercentageChunk s M3DCHUNK_INT_PERCENTAGE contentSize percent =
      Some (2, mkStream tail (gpos s + 2) false false,
            float32_of_Z (wrap_i16 (le_value [b0; b1])))) /\
  (forall v : Z, - 2 ^ 15 <= v < 2 ^ 15 ->
      exists b0 b1 : byte, wrap_i16 (le_value [b0; b1]) = v) /\
  (exists material',
      processMaterialChunk (tags := std_tags) (m3d := plain_model) 1
        (stream_of percent_minus25_chunk) M3DCHUNK_MATERIAL_TRANSPARENCY 8
        new_M3DMaterial = Some (8, mkStream [] 8 false false, material') /\
      opacity material' = S754_finite false 10485760 (-23) /\
      f32_ltb f32_1 (opacity material') = true) /\
  (exists material',
      processMaterialChunk (tags := std_tags) (m3d := plain_model) 1
        (stream_of percent200_chunk) M3DCHUNK_MATERIAL_TRANSPARENCY 8
        new_M3DMaterial = Some (8, mkStream [] 8 false false, material') /\
      opacity material' = f32_neg f32_1 /\
      f32_ltb (opacity material') f32_0 = true).
Proof.
  split; [|split; [exact int16_on_wire|split]].
  - intros tags s b0 b1 tail contentSize percent G R.
    unfold processPercentageChunk. rewrite Z.eqb_refl.
    rewrite readShort_enough by (try assumption; rewrite R; simpl; lia).
    rewrite (advance_prefix 2 s [b0; b1] tail G R eq_refl), R. reflexivity.
  - eexists. split; [vm_compute; reflexivity|]. split; reflexivity.
  - eexists. split; [vm_compute; reflexivity|]. split; reflexivity.
Qed.

(** ** Smoothing groups *)

Lemma advance_advance (n m : nat) (s : istream) :
  (n + m <= length (rest s))%nat ->
  advance m (advance n s) = advance (n + m) s.
Proof.
  intros L. rewrite (advance_enough n s) by lia.
  rewrite advance_enough by (cbn [rest]; rewrite length_skipn; lia).
  rewrite (advance_enough (n + m)) by lia.
  cbn [rest gpos eofbit failbit]. rewrite skipn_skipn.
  f_equal; [f_equal; lia|lia].
Qed.

Lemma withSmoothingGroups_nil (t : M3DTriangleMesh) : withSmoothingGroups [] t = t.
Proof. destruct t; unfold withSmoothingGroups; simpl. now rewrite app_nil_r. Qed.

Lemma withSmoothingGroups_cons (g : Z) (gs : list Z) (t : M3DTriangleMesh) :
  withSmoothingGroups gs (addSmoothingGroups g t) = withSmoothingGroups (g :: gs) t.
Proof.
  unfold withSmoothingGroups, addSmoothingGroups; simpl. now rewrite <- app_assoc.
Qed.

Lemma decode_int32s_length (n : nat) (bs : list byte) :
  length (decode_int32s n bs) = n.
Proof. revert bs. induction n; intros; simpl; auto. Qed.

(** The smoothing loop on a good stream: it returns the bytes counted when
    the [n] values are there and none is negative, and [READ_FAILURE] in
    every other case. *)
Lemma readSmoothingGroups_spec (n : nat) :
  forall (s : istream) (b : Z) (triMesh : M3DTriangleMesh),
    good s = true -> 0 <= b -> b + 4 * Z.of_nat n <= INT32_MAX ->
    let values := decode_int32s n (rest s) in
    ((4 * n <= length (rest s))%nat /\ Forall (fun g => 0 <= g) values ->
     readSmoothingGroups n s b triMesh =
     (b + 4 * Z.of_nat n, advance (4 * n) s, withSmoothingGroups values triMesh)) /\
    (~ ((4 * n <= length (rest s))%nat /\ Forall (fun g => 0 <= g) values) ->
     exists s' triMesh',
       readSmoothingGroups n s b triMesh = (READ_FAILURE, s', triMesh')).
Proof.
  induction n as [|n IH]; intros s b triMesh G Hb Hm values.
  - split.
    + intros _. cbn [readSmoothingGroups]. subst values. cbn [decode_int32s].
      rewrite withSmoothingGroups_nil.
      replace (b + 4 * Z.of_nat 0) with b by lia.
      replace (advance (4 * 0) s) with s; [reflexivity|].
      destruct s; unfold advance; simpl. f_equal. lia.
    + intros N. exfalso. apply N. split; [simpl; lia|constructor].
  - cbn [readSmoothingGroups].
    destruct (le_lt_dec 4 (length (rest s))) as [L4|L4].
    + rewrite readInt_enough by assumption.
      set (v := wrap_i32 (le_value (firstn 4 (rest s)))) in *.
      assert (Hv : values = v :: decode_int32s n (rest (advance 4 s))) by reflexivity.
      pose proof (wrap_i32_range (le_value (firstn 4 (rest s)))) as Rv. fold v in Rv.
      destruct (v <? 0) eqn:Neg.
      * apply Z.ltb_lt in Neg. split.
        -- intros [_ F]. rewrite Hv in F. inversion F; lia.
        -- intros _. eauto.
      * apply Z.ltb_ge in Neg.
        rewrite add32_small by (unfold INT32_MIN, INT32_MAX in *; lia).
        rewrite Z.mod_small by (unfold INT32_MAX in Rv; lia).
        destruct (IH (advance 4 s) (b + 4) (addSmoothingGroups v triMesh))
          as [Ok Ko]; [exact G|lia|lia|].
        assert (Hlen : length (rest (advance 4 s)) = (length (rest s) - 4)%nat)
          by (cbn [advance rest]; apply length_skipn).
        split.
        -- intros [L F]. rewrite Hv in F. inversion F; subst.
           rewrite Ok by (split; [lia|assumption]).
           rewrite withSmoothingGroups_cons, advance_advance by lia.
           rewrite Hv.
           replace (b + 4 + 4 * Z.of_nat n) with (b + 4 * Z.of_nat (S n)) by lia.
           replace (4 + 4 * n)%nat with (4 * S n)%nat by lia.
           reflexivity.
        -- intros N. apply Ko. intros [L F]. apply N. split; [lia|].
           rewrite Hv. constructor; assumption.
    + split.
      * intros [L _]. lia.
      * intros _. unfold readInt, stream_read. rewrite G.
        destruct (4 <=? length (rest s))%nat eqn:E; [apply Nat.leb_le in E; lia|].
        rewrite good_setstate_fail. eauto.
Qed.

(** Whether the values of a smoothing-group chunk are there and none is
    negative can be decided. *)
Lemma smoothing_values_dec (N : Z) (values : list Z) (bs : list byte) :
  (4 * N <= Z.of_nat (length bs) /\ Forall (fun g => 0 <= g) values) \/
  ~ (4 * N <= Z.of_nat (length bs) /\ Forall (fun g => 0 <= g) values).
Proof.
  destruct (Z_le_gt_dec (4 * N) (Z.of_nat (length bs))) as [L|L]; [|right; lia].
  destruct (Forall_dec (fun g => 0 <= g) (fun g => Z_le_dec 0 g) values) as [F|F];
    [left|right]; tauto.
Qed.

Lemma readFaces_count (n : nat) :
  forall (s s' : istream) (b b' : Z) (triMesh triMesh' : M3DTriangleMesh),
    readFaces n s b triMesh = (Some b', s', triMesh') ->
    length (faces triMesh') = (length (faces triMesh) + n)%nat /\
    smoothingGroups triMesh' = smoothingGroups triMesh.
Proof.
  induction n as [|n IH]; intros s s' b b' triMesh triMesh' H; cbn [readFaces] in H.
  - inversion H; subst. split; [lia|reflexivity].
  - destruct (readUshort s) as [[v0|] s1]; [|discriminate].
    destruct (readUshort s1) as [[v1|] s2]; [|discriminate].
    destruct (readUshort s2) as [[v2|] s3]; [|discriminate].
    destruct (readUshort s3) as [[flags|] s4]; [|discriminate].
    apply IH in H. destruct H as [H1 H2]. rewrite H1, H2. simpl.
    rewrite length_app. simpl. split; [lia|reflexivity].
Qed.

(** The dispatch of a smoothing-group chunk on a mesh: [N] is what the
    16-bit [nFaces] holds of the mesh's face count. *)
Lemma smooth_group_dispatch
      {tags : ChunkTags} (s s1 s2 : istream) (triMesh : M3DTriangleMesh)
      (chunkSize : Z) :
  readUshort s = (Some M3DCHUNK_MESH_SMOOTH_GROUP, s1) ->
  readInt s1 = (Some chunkSize, s2) ->
  let N := wrap_u16 (getFaceCount triMesh) in
  let values := decode_int32s (Z.to_nat N) (rest s2) in
  exists r s' triMesh',
    read3DSChunk processFaceArrayChunk s triMesh = Some (r, s', triMesh') /\
    (0 <= r <->
     chunkSize - 6 = 4 * N /\ 4 * N <= Z.of_nat (length (rest s2)) /\
     Forall (fun g => 0 <= g) values) /\
    (0 <= r ->
     r = chunkSize /\ triMesh' = withSmoothingGroups values triMesh /\
     s' = mkStream (skipn (Z.to_nat (4 * N)) (rest s2)) (gpos s + chunkSize) false false) /\
    (r < 0 -> r = READ_FAILURE).
Proof.
  intros Hty Hsz N values.
  pose proof (readInt_range _ _ _ Hsz) as Rg.
  destruct (header_read _ _ _ _ _ Hty Hsz) as (G & L6 & E2).
  assert (G2 : good s2 = true) by (subst s2; reflexivity).
  pose proof (wrap_u16_range (getFaceCount triMesh)) as RN. fold N in RN.
  unfold read3DSChunk. rewrite Hty, Hsz.
  destruct (chunkSize <? 6) eqn:L.
  { apply Z.ltb_lt in L. exists READ_FAILURE, s2, triMesh.
    split; [reflexivity|]. unfold READ_FAILURE.
    repeat split; intros; try lia. }
  apply Z.ltb_ge in L.
  rewrite sub32_small by (unfold INT32_MIN, INT32_MAX in *; lia).
  unfold processFaceArrayChunk. rewrite smooth_group_label, Z.eqb_refl.
  fold N.
  destruct (readSmoothingGroups_spec (Z.to_nat N) s2 0 triMesh G2)
    as [Ok Ko]; [lia|unfold INT32_MAX; lia|].
  fold values in Ok, Ko.
  destruct (smoothing_values_dec N values (rest s2)) as [C|C].
  - rewrite Ok by (split; [lia|tauto]).
    replace (0 + 4 * Z.of_nat (Z.to_nat N)) with (4 * N) by lia.
    unfold reconcile.
    destruct (4 * N =? READ_FAILURE) eqn:E1; [apply Z.eqb_eq in E1; unfold READ_FAILURE in E1; lia|].
    destruct (4 * N =? UNKNOWN_CHUNK) eqn:E2'; [apply Z.eqb_eq in E2'; unfold UNKNOWN_CHUNK in E2'; lia|].
    destruct (4 * N =? chunkSize - 6) eqn:E3; cbn [negb].
    + apply Z.eqb_eq in E3. eexists _, _, _. split; [reflexivity|].
      split; [split; [intros _; split; [lia|tauto]|lia]|].
      split; [|lia]. intros _. split; [reflexivity|]. split; [reflexivity|].
      rewrite advance_enough by lia. subst s2. cbn [rest gpos eofbit failbit].
      f_equal; [f_equal; lia|lia].
    + apply Z.eqb_neq in E3. eexists _, _, _. split; [reflexivity|].
      unfold READ_FAILURE. repeat split; intros; try lia.
  - destruct (Ko ltac:(intros [? ?]; apply C; split; [lia|assumption])) as (s' & m' & ->).
    eexists _, _, _. split; [reflexivity|].
    unfold READ_FAILURE. repeat split; intros; try lia.
    exfalso. apply C. tauto.
Qed.

Lemma readFaces_bytes (n : nat) :
  forall (s s' : istream) (b b' : Z) (triMesh triMesh' : M3DTriangleMesh),
    readFaces n s b triMesh = (Some b', s', triMesh') ->
    0 <= b -> b + 8 * Z.of_nat n <= INT32_MAX ->
    b' = b + 8 * Z.of_nat n.
Proof.
  induction n as [|n IH]; intros s s' b b' triMesh triMesh' H Hb Hm;
    cbn [readFaces] in H.
  - inversion H; subst. lia.
  - destruct (readUshort s) as [[v0|] s1]; [|discriminate].
    destruct (readUshort s1) as [[v1|] s2]; [|discriminate].
    destruct (readUshort s2) as [[v2|] s3]; [|discriminate].
    destruct (readUshort s3) as [[flags|] s4]; [|discriminate].
    rewrite add32_small in H by (unfold INT32_MIN, INT32_MAX in *; lia).
    apply IH in H; lia.
Qed.

(** Whole files with one face: a smoothing-group chunk with one value
    parses; with no value, with two values, and with a negative value, the
    file yields no scene. *)
Lemma one_face_files :
  (exists scene,
      Read3DSFile (tags := std_tags) (m3d := plain_model) 1
                  (stream_of mesh_file_one_group) =
      Some (Some scene, mkStream [] 52 false false) /\
      map (fun model => map smoothingGroups (triMeshes model)) (models scene) = [[[1]]]) /\
  (exists s', Read3DSFile (tags := std_tags) (m3d := plain_model) 1
                     (stream_of mesh_file_no_group) = Some (None, s')) /\
  (exists s', Read3DSFile (tags := std_tags) (m3d := plain_model) 1
                     (stream_of mesh_file_two_groups) = Some (None, s')) /\
  (exists s', Read3DSFile (tags := std_tags) (m3d := plain_model) 1
                     (stream_of mesh_file_negative_group) = Some (None, s')).
Proof.
  split; [|split; [|split]].
  - eexists. split; [vm_compute; reflexivity|]. vm_compute. reflexivity.
  - eexists. vm_compute. reflexivity.
  - eexists. vm_compute. reflexivity.
  - eexists. vm_compute. reflexivity.
Qed.

(** C4 (claim C4): a mesh takes its faces from a face array that declares
    [N] of them, and a smoothing-group chunk follows in the same face-array
    chunk.  The dispatch of that chunk succeeds exactly when its declared
    content is [N] 32-bit values, they are in the stream and none is
    negative; it then appends these [N] values to the mesh.  A content of
    [N-1] or [N+1] values, or a negative value among the [N] read, gives
    [READ_FAILURE], and so does then the dispatch of the face-array chunk.
    On whole files with one face: one value parses, no value, two values
    and a negative value yield no scene. *)
Theorem smoothing_groups_match_faces
        {tags : ChunkTags} {m3d : Model3DS}
        (sF sF1 s0 s1 s sh1 sh2 : istream) (triMesh0 triMesh : M3DTriangleMesh)
        (faceChunkSize N bytesRead chunkSize : Z) :
  faces triMesh0 = [] ->
  readUshort sF = (Some M3DCHUNK_FACE_ARRAY, sF1) ->
  readInt sF1 = (Some faceChunkSize, s0) ->
  readUshort s0 = (Some N, s1) ->
  readFaces (Z.to_nat N) s1 2 triMesh0 = (Some bytesRead, s, triMesh) ->
  bytesRead < faceChunkSize - 6 ->
  readUshort s = (Some M3DCHUNK_MESH_SMOOTH_GROUP, sh1) ->
  readInt sh1 = (Some chunkSize, sh2) ->
  let values := decode_int32s (Z.to_nat N) (rest sh2) in
  getFaceCount triMesh = N /\
  (exists r s' triMesh',
      read3DSChunk processFaceArrayChunk s triMesh = Some (r, s', triMesh') /\
      (0 <= r <->
       chunkSize - 6 = 4 * N /\ 4 * N <= Z.of_nat (length (rest sh2)) /\
       Forall (fun g => 0 <= g) values) /\
      (0 <= r ->
       r = chunkSize /\
       smoothingGroups triMesh' = smoothingGroups triMesh0 ++ values /\
       Z.of_nat (length values) = N /\
       s' = mkStream (skipn (Z.to_nat (4 * N)) (rest sh2))
                     (gpos s + chunkSize) false false) /\
      (chunkSize - 6 = 4 * (N - 1) \/ chunkSize - 6 = 4 * (N + 1) ->
       r = READ_FAILURE) /\
      (~ Forall (fun g => 0 <= g) values -> r = READ_FAILURE) /\
      (r < 0 ->
       r = READ_FAILURE /\
       forall fuel,
         read3DSChunk (processTriMeshChunk (S fuel)) sF triMesh0 =
         Some (READ_FAILURE, s', triMesh'))) /\
  (exists scene,
      Read3DSFile (tags := std_tags) (m3d := plain_model) 1
                  (stream_of mesh_file_one_group) =
      Some (Some scene, mkStream [] 52 false false) /\
      map (fun model => map smoothingGroups (triMeshes model)) (models scene) = [[[1]]]) /\
  (exists s', Read3DSFile (tags := std_tags) (m3d := plain_model) 1
                     (stream_of mesh_file_no_group) = Some (None, s')) /\
  (exists s', Read3DSFile (tags := std_tags) (m3d := plain_model) 1
                     (stream_of mesh_file_two_groups) = Some (None, s')) /\
  (exists s', Read3DSFile (tags := std_tags) (m3d := plain_model) 1
                     (stream_of mesh_file_negative_group) = Some (None, s')).
Proof.
  intros Hf0 HtyF HszF HN Hfaces Htrail Hty Hsz values.
  pose proof (readUshort_Some _ _ _ HN) as (_ & _ & _ & EN).
  pose proof (wrap_u16_range (le_value (firstn 2 (rest s0)))) as RN.
  rewrite <- EN in RN. clear EN.
  pose proof (readFaces_count _ _ _ _ _ _ _ Hfaces) as [Hcount Hgroups].
  pose proof (readFaces_bytes _ _ _ _ _ _ _ Hfaces ltac:(lia)
                              ltac:(unfold INT32_MAX; lia)) as Hbytes.
  assert (Hfc : getFaceCount triMesh = N).
  { unfold getFaceCount. rewrite Hcount, Hf0. simpl. lia. }
  assert (HwN : wrap_u16 (getFaceCount triMesh) = N).
  { rewrite Hfc. unfold wrap_u16. apply Z.mod_small. lia. }
  split; [exact Hfc|].
  split; [|exact one_face_files].
  destruct (smooth_group_dispatch s sh1 sh2 triMesh chunkSize Hty Hsz)
    as (r & s' & triMesh' & Hd & Hiff & Hok & Hko).
  rewrite HwN in Hiff, Hok. fold values in Hiff, Hok.
  exists r, s', triMesh'. split; [exact Hd|]. split; [exact Hiff|].
  split; [|split; [|split]].
  - intros Hr. destruct (Hok Hr) as (-> & -> & ->).
    split; [reflexivity|]. split; [|split; [|reflexivity]].
    + unfold withSmoothingGroups. cbn [smoothingGroups]. now rewrite Hgroups.
    + unfold values. rewrite decode_int32s_length. lia.
  - intros Hsize. apply Hko.
    destruct (Z.lt_ge_cases r 0) as [Neg|Pos]; [assumption|].
    apply Hiff in Pos. lia.
  - intros Hneg. apply Hko.
    destruct (Z.lt_ge_cases r 0) as [Neg|Pos]; [assumption|].
    apply Hiff in Pos. tauto.
  - intros Hr. split; [now apply Hko|]. intros fuel.
    pose proof (readInt_range _ _ _ HszF) as Rg.
    unfold read3DSChunk at 1. rewrite HtyF, HszF.
    assert (L : (faceChunkSize <? 6) = false) by (apply Z.ltb_ge; lia).
    rewrite L. rewrite sub32_small by (unfold INT32_MIN, INT32_MAX in *; lia).
    unfold processTriMeshChunk.
    destruct tri_mesh_face_array_label as (-> & ->). rewrite Z.eqb_refl.
    unfold readFaceArray. rewrite HN, Hfaces.
    assert (L1 : (bytesRead >? faceChunkSize - 6) = false)
      by (rewrite Z.gtb_ltb; apply Z.ltb_ge; lia).
    rewrite L1, (proj2 (Z.ltb_lt _ _) Htrail).
    rewrite sub32_small by (unfold INT32_MIN, INT32_MAX in *; lia).
    unfold read3DSChunks. cbn [read3DSChunks_loop].
    assert (L2 : (0 <? faceChunkSize - 6 - bytesRead) = true) by (apply Z.ltb_lt; lia).
    rewrite L2, Hd, (proj2 (Z.ltb_lt _ _) Hr).
    rewrite add32_small by (unfold READ_FAILURE, INT32_MIN, INT32_MAX in *; lia).
    unfold reconcile, READ_FAILURE, UNKNOWN_CHUNK.
    destruct (bytesRead + -1 =? -1) eqn:E1; [apply Z.eqb_eq in E1; lia|].
    destruct (bytesRead + -1 =? -2) eqn:E2; [apply Z.eqb_eq in E2; lia|].
    destruct (bytesRead + -1 =? faceChunkSize - 6) eqn:E3; [apply Z.eqb_eq in E3; lia|].
    reflexivity.
Qed.


(** The face-array chunk of [mesh_file_one_group] starts at byte 26 and its
    smoothing-group chunk at byte 42. *)
Lemma smoothing_groups_match_faces_witness :
  exists r s' triMesh',
    read3DSChunk (processFaceArrayChunk (tags := std_tags))
                 (stream_at 42 mesh_file_one_group) one_face_mesh =
    Some (r, s', triMesh') /\
    r = 10 /\ smoothingGroups triMesh' = [1] /\
    s' = mkStream [] 52 false false.
Proof.
  assert (H1 : faces (new_M3DTriangleMesh (H := plain_model)) = []) by reflexivity.
  assert (H2 : readUshort (stream_at 26 mesh_file_one_group) =
               (Some (@M3DCHUNK_FACE_ARRAY std_tags), stream_at 28 mesh_file_one_group))
    by (vm_compute; reflexivity).
  assert (H3 : readInt (stream_at 28 mesh_file_one_group) =
               (Some 26, stream_at 32 mesh_file_one_group))
    by (vm_compute; reflexivity).
  assert (H4 : readUshort (stream_at 32 mesh_file_one_group) =
               (Some 1, stream_at 34 mesh_file_one_group))
    by (vm_compute; reflexivity).
  assert (H5 : readFaces (Z.to_nat 1) (stream_at 34 mesh_file_one_group) 2
                         (new_M3DTriangleMesh (H := plain_model)) =
               (Some 10, stream_at 42 mesh_file_one_group, one_face_mesh))
    by (vm_compute; reflexivity).
  assert (H6 : 10 < 26 - 6) by lia.
  assert (H7 : readUshort (stream_at 42 mesh_file_one_group) =
               (Some (@M3DCHUNK_MESH_SMOOTH_GROUP std_tags),
                stream_at 44 mesh_file_one_group))
    by (vm_compute; reflexivity).
  assert (H8 : readInt (stream_at 44 mesh_file_one_group) =
               (Some 10, stream_at 48 mesh_file_one_group))
    by (vm_compute; reflexivity).
  destruct (smoothing_groups_match_faces
              (tags := std_tags) (m3d := plain_model)
              _ _ _ _ _ _ _ _ _ _ _ _ _ H1 H2 H3 H4 H5 H6 H7 H8)
    as (_ & (r & s' & triMesh' & Hd & Hiff & Hok & _) & _).
  exists r, s', triMesh'. split; [exact Hd|].
  assert (Hr : 0 <= r).
  { apply Hiff. split; [reflexivity|]. split; [vm_compute; discriminate|].
    vm_compute. repeat constructor. discriminate. }
  destruct (Hok Hr) as (E1 & E2 & _ & E3).
  split; [exact E1|]. split; [exact E2|exact E3].
Defined.

(** ** Ownership of sub-objects *)

Lemma add32_not_failure (a b : Z) :
  0 <= a <= INT32_MAX -> 0 <= b <= INT32_MAX -> add32 a b <> READ_FAILURE.
Proof.
  unfold add32, wrap_i32, READ_FAILURE, INT32_MAX. intros Ha Hb.
  destruct (Z.lt_ge_cases (a + b) (2 ^ 31)) as [S|S].
  - rewrite Z.mod_small; lia.
  - replace (a + b + 2 ^ 31) with (a + b - 2 ^ 31 + 1 * 2 ^ 32) by lia.
    rewrite Z.mod_add by lia. rewrite Z.mod_small; lia.
Qed.

Lemma readString_loop_range (n : nat) :
  forall (count : Z) (acc : list byte) (s s' : istream) (r : Z) (bs : list byte),
    readString_loop n count acc s = (r, bs, s') ->
    0 <= count -> count + Z.of_nat n <= INT32_MAX ->
    r = READ_FAILURE \/ count + 1 <= r <= count + Z.of_nat n.
Proof.
  induction n as [|n IH]; intros count acc s s' r bs H Hc Hm;
    cbn [readString_loop] in H.
  - inversion H; auto.
  - destruct (stream_read 1 s) as [bytes s1].
    destruct (good s1); [|inversion H; auto].
    destruct bytes as [|b [|? ?]]; try (inversion H; auto; fail).
    destruct (byte_val b =? 0).
    + inversion H; subst. right.
      rewrite add32_small by (unfold INT32_MIN, INT32_MAX in *; lia). lia.
    + apply IH in H; [|lia|lia]. destruct H; [auto|right; lia].
Qed.

(** [readString] returns [READ_FAILURE] or a count between 1 and 1024. *)
Lemma readString_range (s s' : istream) (n : Z) (name : string) :
  readString s = (n, name, s') -> n = READ_FAILURE \/ 1 <= n <= 1024.
Proof.
  unfold readString. intros H.
  destruct (readString_loop maxLength 0 [] s) as [[r bs] s1] eqn:E.
  inversion H; subst.
  apply readString_loop_range in E; [|lia|unfold maxLength, INT32_MAX; lia].
  unfold maxLength in E. destruct E; [auto|right; lia].
Qed.

Lemma readFaceIndices_bytes (n : nat) :
  forall (s s' : istream) (b b' : Z) (g g' : M3DMeshMaterialGroup),
    readFaceIndices n s b g = (Some b', s', g') ->
    0 <= b -> b + 2 * Z.of_nat n <= INT32_MAX ->
    b' = b + 2 * Z.of_nat n.
Proof.
  induction n as [|n IH]; intros s s' b b' g g' H Hb Hm;
    cbn [readFaceIndices] in H.
  - inversion H; subst. lia.
  - destruct (readUshort s) as [[faceIndex|] s1]; [|discriminate].
    rewrite add32_small in H by (unfold INT32_MIN, INT32_MAX in *; lia).
    apply IH in H; lia.
Qed.

Section Ownership.
Context {tags : ChunkTags} {m3d : Model3DS}.
Variable fuel : nat.

(** A model is added to the scene by a named-object chunk only when its
    name and its nested chunks were read without error. *)
Lemma named_object_attaches
      (s s' : istream) (contentSize r : Z) (scene scene' : M3DScene) :
  processSceneChunk fuel s M3DCHUNK_NAMED_OBJECT contentSize scene =
  Some (r, s', scene') ->
  (r = READ_FAILURE /\ scene' = scene) \/
  (r <> READ_FAILURE /\
   exists n name s1 model',
     readString s = (n, name, s1) /\ 0 <= n /\
     read3DSChunks (processModelChunk fuel) fuel s1 (sub32 contentSize n)
                   (setModelName name new_M3DModel) =
     Some (sub32 contentSize n, s', model') /\
     0 <= sub32 contentSize n /\
     scene' = addModel model' scene).
Proof.
  unfold processSceneChunk. rewrite Z.eqb_refl.
  destruct (readString s) as [[n name] s1] eqn:En.
  destruct (n <? 0) eqn:Ln; [intros H; inversion H; auto|].
  apply Z.ltb_ge in Ln.
  destruct (read3DSChunks (processModelChunk fuel) fuel s1 (sub32 contentSize n)
                          (setModelName name new_M3DModel))
    as [[[chunksSize s2] model']|] eqn:Ec; [|discriminate].
  destruct (chunksSize <? 0) eqn:Lc; intros H; inversion H; subst; auto.
  apply Z.ltb_ge in Lc. right.
  pose proof (read3DSChunks_result _ _ _ _ _ _ _ _ Ec) as [F|[Eq Pos]];
    [unfold READ_FAILURE in F; lia|]. subst chunksSize.
  pose proof (wrap_i32_range (contentSize - n)) as Rc. fold (sub32 contentSize n) in Rc.
  apply readString_range in En as Rn.
  destruct Rn as [F|Rn]; [unfold READ_FAILURE in F; lia|].
  split.
  - apply add32_not_failure; unfold INT32_MAX in *; lia.
  - exists n, name, s1, model'. auto.
Qed.

(** A material is added to the scene by a material-entry chunk only when
    its nested chunks were read without error. *)
Lemma material_entry_attaches
      (s s' : istream) (contentSize r : Z) (scene scene' : M3DScene) :
  processSceneChunk fuel s M3DCHUNK_MATERIAL_ENTRY contentSize scene =
  Some (r, s', scene') ->
  (r = READ_FAILURE /\ scene' = scene) \/
  (0 <= r /\
   exists material',
     read3DSChunks (processMaterialChunk fuel) fuel s contentSize new_M3DMaterial =
     Some (r, s', material') /\
     scene' = addMaterial material' scene).
Proof.
  unfold processSceneChunk.
  destruct scene_entry_labels as (-> & _ & _). rewrite Z.eqb_refl.
  destruct (read3DSChunks (processMaterialChunk fuel) fuel s contentSize new_M3DMaterial)
    as [[[bytesRead s1] material']|] eqn:Ec; [|discriminate].
  destruct (bytesRead <? 0) eqn:L; intros H; inversion H; subst; auto.
  apply Z.ltb_ge in L. right. split; [assumption|]. exists material'. auto.
Qed.

(** A mesh is added to the model by a triangle-mesh chunk only when its
    nested chunks were read without error. *)
Lemma triangle_mesh_attaches
      (s s' : istream) (contentSize r : Z) (model model' : M3DModel) :
  processModelChunk fuel s M3DCHUNK_TRIANGLE_MESH contentSize model =
  Some (r, s', model') ->
  (r = READ_FAILURE /\ model' = model) \/
  (0 <= r /\
   exists triMesh',
     read3DSChunks (processTriMeshChunk fuel) fuel s contentSize new_M3DTriangleMesh =
     Some (r, s', triMesh') /\
     model' = addTriMesh triMesh' model).
Proof.
  unfold processModelChunk. rewrite Z.eqb_refl.
  destruct (read3DSChunks (processTriMeshChunk fuel) fuel s contentSize
                          new_M3DTriangleMesh)
    as [[[bytesRead s1] triMesh']|] eqn:Ec; [|discriminate].
  destruct (bytesRead =? READ_FAILURE) eqn:L; intros H; inversion H; subst; auto.
  apply Z.eqb_neq in L. right.
  pose proof (read3DSChunks_result _ _ _ _ _ _ _ _ Ec) as [F|[Eq Pos]];
    [contradiction|].
  split; [lia|]. exists triMesh'. auto.
Qed.

(** A material group is added to the mesh only when its name, its count
    and all its face indices were read. *)
Lemma material_group_attaches
      (s s' : istream) (contentSize r : Z) (triMesh triMesh' : M3DTriangleMesh) :
  processFaceArrayChunk s M3DCHUNK_MESH_MATERIAL_GROUP contentSize triMesh =
  Some (r, s', triMesh') ->
  (r = READ_FAILURE /\ triMesh' = triMesh) \/
  (0 < r /\
   exists n name s1 nFaces s2 matGroup',
     readString s = (n, name, s1) /\ 1 <= n /\
     readUshort s1 = (Some nFaces, s2) /\
     readFaceIndices (Z.to_nat nFaces) s2 (add32 n 2) (mkMatGroup name []) =
     (Some r, s', matGroup') /\
     triMesh' = addMeshMaterialGroup matGroup' triMesh).
Proof.
  unfold processFaceArrayChunk. rewrite Z.eqb_refl.
  destruct (readString s) as [[n name] s1] eqn:En.
  destruct (n =? READ_FAILURE) eqn:Ln; [intros H; inversion H; auto|].
  apply Z.eqb_neq in Ln.
  apply readString_range in En as Rn. destruct Rn as [F|Rn]; [contradiction|].
  destruct (readUshort s1) as [[nFaces|] s2] eqn:Ef; [|intros H; inversion H; auto].
  cbn [group_faces new_M3DMeshMaterialGroup].
  destruct (readFaceIndices (Z.to_nat nFaces) s2 (add32 n 2) (mkMatGroup name []))
    as [[[bytesRead|] s3] matGroup'] eqn:Ei; intros H; inversion H; subst; auto.
  right.
  pose proof (readUshort_Some _ _ _ Ef) as (_ & _ & _ & EN).
  pose proof (wrap_u16_range (le_value (firstn 2 (rest s1)))) as RN.
  rewrite <- EN in RN.
  rewrite add32_small in Ei by (unfold INT32_MIN, INT32_MAX; lia).
  pose proof (readFaceIndices_bytes _ _ _ _ _ _ _ Ei ltac:(lia)
                                    ltac:(unfold INT32_MAX; lia)) as Hb.
  split; [lia|].
  exists n, name, s1, nFaces, s2, matGroup'.
  rewrite add32_small by (unfold INT32_MIN, INT32_MAX; lia).
  repeat split; auto. lia.
Qed.

(** Whatever the chunk type, a scene handler that fails leaves the scene
    as it was. *)
Lemma scene_unchanged_on_failure
      (s s' : istream) (chunkType contentSize : Z) (scene scene' : M3DScene) :
  processSceneChunk fuel s chunkType contentSize scene =
  Some (READ_FAILURE, s', scene') ->
  scene' = scene.
Proof.
  intros H. destruct (Z.eqb_spec chunkType M3DCHUNK_NAMED_OBJECT) as [->|N1].
  { apply named_object_attaches in H.
    destruct H as [[_ ?]|[F _]]; [assumption|now contradiction F]. }
  destruct (Z.eqb_spec chunkType M3DCHUNK_MATERIAL_ENTRY) as [->|N2].
  { apply material_entry_attaches in H.
    destruct H as [[_ ?]|[F _]]; [assumption|unfold READ_FAILURE in F; lia]. }
  unfold processSceneChunk in H.
  apply Z.eqb_neq in N1, N2. rewrite N1, N2 in H.
  destruct (chunkType =? M3DCHUNK_BACKGROUND_COLOR).
  - destruct (read3DSChunks processColorChunk fuel s contentSize local_color)
      as [[[bytesRead s1] color]|]; [|discriminate].
    destruct (bytesRead <? 0) eqn:L; inversion H; subst; auto.
    apply Z.ltb_ge in L. unfold READ_FAILURE in L. lia.
  - inversion H.
Qed.

(** Whatever the chunk type, a model handler that fails leaves the model
    as it was. *)
Lemma model_unchanged_on_failure
      (s s' : istream) (chunkType contentSize : Z) (model model' : M3DModel) :
  processModelChunk fuel s chunkType contentSize model =
  Some (READ_FAILURE, s', model') ->
  model' = model.
Proof.
  intros H. destruct (Z.eqb_spec chunkType M3DCHUNK_TRIANGLE_MESH) as [->|N1].
  { apply triangle_mesh_attaches in H.
    destruct H as [[_ ?]|[F _]]; [assumption|unfold READ_FAILURE in F; lia]. }
  unfold processModelChunk in H. apply Z.eqb_neq in N1. rewrite N1 in H.
  inversion H.
Qed.

(** The other direction: a nested parse that completes without error has
    its sub-object attached by the step, which then succeeds. *)
Lemma named_object_completes
      (s s1 s' : istream) (contentSize n t : Z) (name : string)
      (scene : M3DScene) (model' : M3DModel) :
  readString s = (n, name, s1) -> 0 <= n ->
  read3DSChunks (processModelChunk fuel) fuel s1 (sub32 contentSize n)
                (setModelName name new_M3DModel) = Some (t, s', model') ->
  0 <= t ->
  processSceneChunk fuel s M3DCHUNK_NAMED_OBJECT contentSize scene =
  Some (add32 n t, s', addModel model' scene) /\
  add32 n t <> READ_FAILURE.
Proof.
  intros En Hn Ec Ht. unfold processSceneChunk. rewrite Z.eqb_refl, En.
  assert (Ln : (n <? 0) = false) by (apply Z.ltb_ge; lia).
  assert (Lt : (t <? 0) = false) by (apply Z.ltb_ge; lia).
  rewrite Ln, Ec, Lt. split; [reflexivity|].
  pose proof (read3DSChunks_result _ _ _ _ _ _ _ _ Ec) as [F|[Eq Pos]];
    [unfold READ_FAILURE in F; lia|].
  pose proof (wrap_i32_range (contentSize - n)) as Rc. fold (sub32 contentSize n) in Rc.
  apply readString_range in En as Rn.
  destruct Rn as [F|Rn]; [unfold READ_FAILURE in F; lia|].
  apply add32_not_failure; unfold INT32_MAX in *; lia.
Qed.

Lemma material_entry_completes
      (s s' : istream) (contentSize r : Z) (scene : M3DScene)
      (material' : M3DMaterial) :
  read3DSChunks (processMaterialChunk fuel) fuel s contentSize new_M3DMaterial =
  Some (r, s', material') ->
  0 <= r ->
  processSceneChunk fuel s M3DCHUNK_MATERIAL_ENTRY contentSize scene =
  Some (r, s', addMaterial material' scene).
Proof.
  intros Ec Hr. unfold processSceneChunk.
  destruct scene_entry_labels as (-> & _ & _). rewrite Z.eqb_refl, Ec.
  assert (L : (r <? 0) = false) by (apply Z.ltb_ge; lia).
  now rewrite L.
Qed.

Lemma triangle_mesh_completes
      (s s' : istream) (contentSize r : Z) (model : M3DModel)
      (triMesh' : M3DTriangleMesh) :
  read3DSChunks (processTriMeshChunk fuel) fuel s contentSize new_M3DTriangleMesh =
  Some (r, s', triMesh') ->
  0 <= r ->
  processModelChunk fuel s M3DCHUNK_TRIANGLE_MESH contentSize model =
  Some (r, s', addTriMesh triMesh' model).
Proof.
  intros Ec Hr. unfold processModelChunk. rewrite Z.eqb_refl, Ec.
  assert (L : (r =? READ_FAILURE) = false)
    by (apply Z.eqb_neq; unfold READ_FAILURE; lia).
  now rewrite L.
Qed.

Lemma material_group_completes
      (s s1 s2 s' : istream) (contentSize n nFaces r : Z) (name : string)
      (triMesh : M3DTriangleMesh) (matGroup' : M3DMeshMaterialGroup) :
  readString s = (n, name, s1) -> 0 <= n ->
  readUshort s1 = (Some nFaces, s2) ->
  readFaceIndices (Z.to_nat nFaces) s2 (add32 n 2) (mkMatGroup name []) =
  (Some r, s', matGroup') ->
  processFaceArrayChunk s M3DCHUNK_MESH_MATERIAL_GROUP contentSize triMesh =
  Some (r, s', addMeshMaterialGroup matGroup' triMesh).
Proof.
  intros En Hn Ef Ei. unfold processFaceArrayChunk. rewrite Z.eqb_refl, En.
  assert (L : (n =? READ_FAILURE) = false)
    by (apply Z.eqb_neq; unfold READ_FAILURE; lia).
  rewrite L, Ef. cbn [group_faces new_M3DMeshMaterialGroup]. now rewrite Ei.
Qed.

(** C5 (claim C5): each of the four steps that build a sub-object, a model
    and a material in the scene, a mesh in the model, a material group in
    the mesh, does one of two things.  It returns [READ_FAILURE] with the
    parent as it was; or it succeeds with the parent extended by the one
    sub-object its nested reads produced without error.  And it does the
    second whenever the nested reads complete without error: the step then
    succeeds and the sub-object they built is attached.  A scene or model
    handler that fails, on any chunk type, leaves its parent unchanged. *)
Theorem sub_objects_attached_on_success :
  (forall (s s' : istream) (contentSize r : Z) (scene scene' : M3DScene),
      processSceneChunk fuel s M3DCHUNK_NAMED_OBJECT contentSize scene =
      Some (r, s', scene') ->
      (r = READ_FAILURE /\ scene' = scene) \/
      (r <> READ_FAILURE /\
       exists n name s1 model',
         readString s = (n, name, s1) /\ 0 <= n /\
         read3DSChunks (processModelChunk fuel) fuel s1 (sub32 contentSize n)
                       (setModelName name new_M3DModel) =
         Some (sub32 contentSize n, s', model') /\
         0 <= sub32 contentSize n /\
         scene' = addModel model' scene)) /\
  (forall (s s' : istream) (contentSize r : Z) (scene scene' : M3DScene),
      processSceneChunk fuel s M3DCHUNK_MATERIAL_ENTRY contentSize scene =
      Some (r, s', scene') ->
      (r = READ_FAILURE /\ scene' = scene) \/
      (0 <= r /\
       exists material',
         read3DSChunks (processMaterialChunk fuel) fuel s contentSize new_M3DMaterial =
         Some (r, s', material') /\
         scene' = addMaterial material' scene)) /\
  (forall (s s' : istream) (contentSize r : Z) (model model' : M3DModel),
      processModelChunk fuel s M3DCHUNK_TRIANGLE_MESH contentSize model =
      Some (r, s', model') ->
      (r = READ_FAILURE /\ model' = model) \/
      (0 <= r /\
       exists triMesh',
         read3DSChunks (processTriMeshChunk fuel) fuel s contentSize
                       new_M3DTriangleMesh =
         Some (r, s', triMesh') /\
         model' = addTriMesh triMesh' model)) /\
  (forall (s s' : istream) (contentSize r : Z) (triMesh triMesh' : M3DTriangleMesh),
      processFaceArrayChunk s M3DCHUNK_MESH_MATERIAL_GROUP contentSize triMesh =
      Some (r, s', triMesh') ->
      (r = READ_FAILURE /\ triMesh' = triMesh) \/
      (0 < r /\
       exists n name s1 nFaces s2 matGroup',
         readString s = (n, name, s1) /\ 1 <= n /\
         readUshort s1 = (Some nFaces, s2) /\
         readFaceIndices (Z.to_nat nFaces) s2 (add32 n 2) (mkMatGroup name []) =
         (Some r, s', matGroup') /\
         triMesh' = addMeshMaterialGroup matGroup' triMesh)) /\
  (forall (s s' : istream) (chunkType contentSize : Z) (scene scene' : M3DScene),
      processSceneChunk fuel s chunkType contentSize scene =
      Some (READ_FAILURE, s', scene') ->
      scene' = scene) /\
  (forall (s s' : istream) (chunkType contentSize : Z) (model model' : M3DModel),
      processModelChunk fuel s chunkType contentSize model =
      Some (READ_FAILURE, s', model') ->
      model' = model) /\
  (forall (s s1 s' : istream) (contentSize n t : Z) (name : string)
          (scene : M3DScene) (model' : M3DModel),
      readString s = (n, name, s1) -> 0 <= n ->
      read3DSChunks (processModelChunk fuel) fuel s1 (sub32 contentSize n)
                    (setModelName name new_M3DModel) = Some (t, s', model') ->
      0 <= t ->
      processSceneChunk fuel s M3DCHUNK_NAMED_OBJECT contentSize scene =
      Some (add32 n t, s', addModel model' scene) /\
      add32 n t <> READ_FAILURE) /\
  (forall (s s' : istream) (contentSize r : Z) (scene : M3DScene)
          (material' : M3DMaterial),
      read3DSChunks (processMaterialChunk fuel) fuel s contentSize new_M3DMaterial =
      Some (r, s', material') ->
      0 <= r ->
      processSceneChunk fuel s M3DCHUNK_MATERIAL_ENTRY contentSize scene =
      Some (r, s', addMaterial material' scene)) /\
  (forall (s s' : istream) (contentSize r : Z) (model : M3DModel)
          (triMesh' : M3DTriangleMesh),
      read3DSChunks (processTriMeshChunk fuel) fuel s contentSize new_M3DTriangleMesh =
      Some (r, s', triMesh') ->
      0 <= r ->
      processModelChunk fuel s M3DCHUNK_TRIANGLE_MESH contentSize model =
      Some (r, s', addTriMesh triMesh' model)) /\
  (forall (s s1 s2 s' : istream) (contentSize n nFaces r : Z) (name : string)
          (triMesh : M3DTriangleMesh) (matGroup' : M3DMeshMaterialGroup),
      readString s = (n, name, s1) -> 0 <= n ->
      readUshort s1 = (Some nFaces, s2) ->
      readFaceIndices (Z.to_nat nFaces) s2 (add32 n 2) (mkMatGroup name []) =
      (Some r, s', matGroup') ->
      processFaceArrayChunk s M3DCHUNK_MESH_MATERIAL_GROUP contentSize triMesh =
      Some (r, s', addMeshMaterialGroup matGroup' triMesh)).
Proof.
  split; [exact named_object_attaches|].
  split; [exact material_entry_attaches|].
  split; [exact triangle_mesh_attaches|].
  split; [exact material_group_attaches|].
  split; [exact scene_unchanged_on_failure|].
  split; [exact model_unchanged_on_failure|].
  split; [exact named_object_completes|].
  split; [exact material_entry_completes|].
  split; [exact triangle_mesh_completes|exact material_group_completes].
Qed.
End Ownership.

(** The steps on sample inputs: the material entry whose content is a name
    chunk, and the named object of [mesh_file_one_group], complete and are
    attached. *)
Lemma sub_objects_attached_on_success_witness :
  processSceneChunk (tags := std_tags) (m3d := plain_model) 1
    (stream_of material_entry_content) M3DCHUNK_MATERIAL_ENTRY 8 new_M3DScene =
  Some (8, mkStream [] 8 false false,
        addMaterial (setName "m" new_M3DMaterial) new_M3DScene) /\
  processSceneChunk (tags := std_tags) (m3d := plain_model) 1
    (stream_at 18 mesh_file_one_group) M3DCHUNK_NAMED_OBJECT 34 new_M3DScene =
  Some (34, mkStream [] 52 false false, addModel model_a_with_group new_M3DScene).
Proof.
  destruct (sub_objects_attached_on_success (tags := std_tags) (m3d := plain_model) 1)
    as (_ & _ & _ & _ & _ & _ & Hmodel & Hmaterial & _).
  split.
  - assert (E : read3DSChunks (processMaterialChunk (tags := std_tags) 1) 1
                  (stream_of material_entry_content) 8
                  (new_M3DMaterial (H := plain_model)) =
                Some (8, mkStream [] 8 false false,
                      setName "m" (new_M3DMaterial (H := plain_model))))
      by (vm_compute; reflexivity).
    assert (Hr : 0 <= 8) by lia.
    exact (Hmaterial _ _ _ _ new_M3DScene _ E Hr).
  - assert (En : readString (stream_at 18 mesh_file_one_group) =
                 (2, "a"%string, stream_at 20 mesh_file_one_group))
      by (vm_compute; reflexivity).
    assert (Hn : 0 <= 2) by lia.
    assert (Ec : read3DSChunks (processModelChunk (tags := std_tags) 1) 1
                   (stream_at 20 mesh_file_one_group) (sub32 34 2)
                   (setModelName "a" new_M3DModel) =
                 Some (32, mkStream [] 52 false false, model_a_with_group))
      by (vm_compute; reflexivity).
    assert (Ht : 0 <= 32) by lia.
    exact (proj1 (Hmodel _ _ _ 34 _ _ _ new_M3DScene _ En Hn Ec Ht)).
Defined.

(** ** Remarks on the claims above *)

(** The named-object step on two of the sample files: with one smoothing
    value the model, complete, is added to the scene; with two the step
    fails and the scene is as it was. *)
Lemma named_object_examples :
  processSceneChunk (tags := std_tags) (m3d := plain_model) 1
    (stream_at 18 mesh_file_one_group) M3DCHUNK_NAMED_OBJECT 34 new_M3DScene =
  Some (34, mkStream [] 52 false false, addModel model_a_with_group new_M3DScene) /\
  processSceneChunk (tags := std_tags) (m3d := plain_model) 1
    (stream_at 18 mesh_file_two_groups) M3DCHUNK_NAMED_OBJECT 38 new_M3DScene =
  Some (READ_FAILURE, mkStream [x02; x00; x00; x00] 52 false false, new_M3DScene).
Proof. split; vm_compute; reflexivity. Qed.


(** X17: the face count reaches the smoothing loop through the 16-bit
    [nFaces]: on a mesh that has gathered 65536 faces a smoothing-group
    chunk without any value is accepted and nothing is read. *)
Lemma smooth_group_count_is_16_bit
      {tags : ChunkTags} (s s1 s2 : istream) (triMesh : M3DTriangleMesh) :
  getFaceCount triMesh = 2 ^ 16 ->
  readUshort s = (Some M3DCHUNK_MESH_SMOOTH_GROUP, s1) ->
  readInt s1 = (Some 6, s2) ->
  read3DSChunk processFaceArrayChunk s triMesh =
  Some (6, mkStream (rest s2) (gpos s + 6) false false, triMesh).
Proof.
  intros Hc Hty Hsz.
  destruct (smooth_group_dispatch s s1 s2 triMesh 6 Hty Hsz)
    as (r & s' & triMesh' & Hd & Hiff & Hok & _).
  rewrite Hc in Hiff, Hok. change (wrap_u16 (2 ^ 16)) with 0 in Hiff, Hok.
  cbn [Z.to_nat decode_int32s Z.mul skipn] in Hiff, Hok.
  assert (Hr : 0 <= r) by (apply Hiff; repeat split; [lia|constructor]).
  destruct (Hok Hr) as (-> & -> & ->).
  rewrite Hd, withSmoothingGroups_nil. reflexivity.
Qed.

Lemma smooth_group_count_is_16_bit_witness :
  read3DSChunk (processFaceArrayChunk (tags := std_tags))
               (stream_of empty_smooth_group_chunk) mesh_of_65536_faces =
  Some (6, mkStream [] 6 false false, mesh_of_65536_faces).
Proof.
  assert (H1 : getFaceCount mesh_of_65536_faces = 2 ^ 16)
    by (vm_compute; reflexivity).
  assert (H2 : readUshort (stream_of empty_smooth_group_chunk) =
               (Some (@M3DCHUNK_MESH_SMOOTH_GROUP std_tags),
                stream_at 2 empty_smooth_group_chunk))
    by (vm_compute; reflexivity).
  assert (H3 : readInt (stream_at 2 empty_smooth_group_chunk) =
               (Some 6, stream_at 6 empty_smooth_group_chunk))
    by (vm_compute; reflexivity).
  exact (smooth_group_count_is_16_bit (tags := std_tags) _ _ _ _ H1 H2 H3).
Defined.

(** X16: an unknown chunk whose declared content is not all there is a
    read failure: the skip runs into the end of the stream. *)
Lemma read3DSChunk_unknown_truncated
      {T : Type} (chunkFunc : ProcessChunkFunc T)
      (s s1 s2 : istream) (obj obj' : T) (chunkType chunkSize : Z) :
  readUshort s = (Some chunkType, s1) ->
  readInt s1 = (Some chunkSize, s2) ->
  6 <= chunkSize ->
  chunkFunc s2 chunkType (chunkSize - 6) obj = Some (UNKNOWN_CHUNK, s2, obj') ->
  Z.of_nat (length (rest s2)) < chunkSize - 6 ->
  exists s', read3DSChunk chunkFunc s obj = Some (READ_FAILURE, s', obj').
Proof.
  intros Hty Hsz L Hf Hshort. pose proof (readInt_range _ _ _ Hsz) as Rg.
  unfold read3DSChunk. rewrite Hty, Hsz.
  assert (L' : (chunkSize <? 6) = false) by (apply Z.ltb_ge; lia).
  rewrite L'. rewrite sub32_small by (unfold INT32_MIN, INT32_MAX in *; lia).
  rewrite Hf. unfold reconcile.
  change (UNKNOWN_CHUNK =? READ_FAILURE) with false.
  change (UNKNOWN_CHUNK =? UNKNOWN_CHUNK) with true. cbv iota.
  rewrite stream_ignore_short by lia. eauto.
Qed.

Lemma read3DSChunk_unknown_truncated_witness :
  exists s',
    read3DSChunk (processPercentageChunk (tags := std_tags))
                 (stream_of truncated_foreign_chunk) f32_0 =
    Some (READ_FAILURE, s', f32_0).
Proof.
  assert (H1 : readUshort (stream_of truncated_foreign_chunk) =
               (Some 0x9999, stream_at 2 truncated_foreign_chunk))
    by (vm_compute; reflexivity).
  assert (H2 : readInt (stream_at 2 truncated_foreign_chunk) =
               (Some 10, stream_at 6 truncated_foreign_chunk))
    by (vm_compute; reflexivity).
  assert (H3 : 6 <= 10) by lia.
  assert (H4 : processPercentageChunk (tags := std_tags)
                 (stream_at 6 truncated_foreign_chunk) 0x9999 (10 - 6) f32_0 =
               Some (UNKNOWN_CHUNK, stream_at 6 truncated_foreign_chunk, f32_0))
    by (vm_compute; reflexivity).
  assert (H5 : Z.of_nat (length (rest (stream_at 6 truncated_foreign_chunk))) < 10 - 6)
    by (vm_compute; reflexivity).
  exact (read3DSChunk_unknown_truncated (processPercentageChunk (tags := std_tags))
           _ _ _ _ _ _ _ H1 H2 H3 H4 H5).
Defined.

(** What every level handler answers on a type outside its vocabulary:
    [UNKNOWN_CHUNK], with the stream and the object untouched. *)
Lemma handlers_leave_unknown_chunks
      {tags : ChunkTags} {m3d : Model3DS} (fuel : nat)
      (s : istream) (chunkType contentSize : Z) :
  (chunkType <> M3DCHUNK_MESHDATA ->
   forall scene, processTopLevelChunk fuel s chunkType contentSize scene =
            Some (UNKNOWN_CHUNK, s, scene)) /\
  (~ In chunkType [M3DCHUNK_NAMED_OBJECT; M3DCHUNK_MATERIAL_ENTRY;
                   M3DCHUNK_BACKGROUND_COLOR] ->
   forall scene, processSceneChunk fuel s chunkType contentSize scene =
            Some (UNKNOWN_CHUNK, s, scene)) /\
  (chunkType <> M3DCHUNK_TRIANGLE_MESH ->
   forall model, processModelChunk fuel s chunkType contentSize model =
            Some (UNKNOWN_CHUNK, s, model)) /\
  (~ In chunkType [M3DCHUNK_POINT_ARRAY; M3DCHUNK_MESH_TEXTURE_COORDS;
                   M3DCHUNK_FACE_ARRAY; M3DCHUNK_MESH_MATRIX] ->
   forall triMesh, processTriMeshChunk fuel s chunkType contentSize triMesh =
              Some (UNKNOWN_CHUNK, s, triMesh)) /\
  (~ In chunkType [M3DCHUNK_MESH_MATERIAL_GROUP; M3DCHUNK_MESH_SMOOTH_GROUP] ->
   forall triMesh, processFaceArrayChunk s chunkType contentSize triMesh =
              Some (UNKNOWN_CHUNK, s, triMesh)) /\
  (~ In chunkType [M3DCHUNK_MATERIAL_NAME; M3DCHUNK_MATERIAL_AMBIENT;
                   M3DCHUNK_MATERIAL_DIFFUSE; M3DCHUNK_MATERIAL_SPECULAR;
                   M3DCHUNK_MATERIAL_SHININESS; M3DCHUNK_MATERIAL_TRANSPARENCY;
                   M3DCHUNK_MATERIAL_TEXMAP] ->
   forall material, processMaterialChunk fuel s chunkType contentSize material =
               Some (UNKNOWN_CHUNK, s, material)) /\
  (~ In chunkType [M3DCHUNK_COLOR_24; M3DCHUNK_COLOR_FLOAT] ->
   forall color, processColorChunk s chunkType contentSize color =
            Some (UNKNOWN_CHUNK, s, color)) /\
  (~ In chunkType [M3DCHUNK_INT_PERCENTAGE; M3DCHUNK_FLOAT_PERCENTAGE] ->
   forall percent, processPercentageChunk s chunkType contentSize percent =
              Some (UNKNOWN_CHUNK, s, percent)) /\
  (chunkType <> M3DCHUNK_MATERIAL_MAPNAME ->
   forall material, processTexmapChunk s chunkType contentSize material =
               Some (UNKNOWN_CHUNK, s, material)).
Proof.
  repeat split; intros N obj;
    unfold processTopLevelChunk, processSceneChunk, processModelChunk,
           processTriMeshChunk, processFaceArrayChunk, processMaterialChunk,
           processColorChunk, processPercentageChunk, processTexmapChunk;
    simpl in N;
    repeat match goal with
           | |- context [chunkType =? ?tag] =>
             destruct (Z.eqb_spec chunkType tag); [exfalso; intuition congruence|]
           end;
    reflexivity.
Qed.

(** A material group whose chunk declares more content than the handler
    read is in the mesh when the dispatcher reports the mismatch: the
    failure comes after the step that built the group. *)
Lemma material_group_declared_size_mismatch :
  processFaceArrayChunk (tags := std_tags)
    (stream_at 6 short_material_group) M3DCHUNK_MESH_MATERIAL_GROUP 10
    (new_M3DTriangleMesh (H := plain_model)) =
  Some (4, mkStream [] 10 false false,
        addMeshMaterialGroup (mkMatGroup "m" []) new_M3DTriangleMesh) /\
  read3DSChunk (processFaceArrayChunk (tags := std_tags))
    (stream_of short_material_group) (new_M3DTriangleMesh (H := plain_model)) =
  Some (READ_FAILURE, mkStream [] 10 false false,
        addMeshMaterialGroup (mkMatGroup "m" []) new_M3DTriangleMesh).
Proof. split; vm_compute; reflexivity. Qed.

(** ** Termination: the reader only moves forward *)

Lemma no_longer_refl (s : istream) : no_longer s s.
Proof. unfold no_longer. lia. Qed.

Lemma no_longer_trans (s1 s2 s3 : istream) :
  no_longer s1 s2 -> no_longer s2 s3 -> no_longer s1 s3.
Proof. unfold no_longer. lia. Qed.

Lemma stream_read_shrinks (n : nat) (s s' : istream) (bs : list byte) :
  stream_read n s = (bs, s') -> no_longer s' s.
Proof.
  unfold stream_read, no_longer. intros H.
  destruct (good s); [destruct (n <=? length (rest s))%nat|];
    inversion H; subst; cbn [rest advance setstate];
    rewrite ?length_skipn; lia.
Qed.

Lemma stream_ignore_shrinks (n : Z) (s : istream) : no_longer (stream_ignore n s) s.
Proof.
  unfold stream_ignore, no_longer.
  destruct (good s); [destruct (n <=? 0); [|destruct (n <=? Z.of_nat (length (rest s)))]|];
    cbn [rest advance setstate]; rewrite ?length_skipn; lia.
Qed.

Ltac reader_shrinks :=
  let H := fresh "H" in
  intros H;
  match type of H with
  | (let (_, _) := stream_read ?n ?s in _) = _ =>
    let E := fresh "E" in
    destruct (stream_read n s) as [? ?] eqn:E;
    apply stream_read_shrinks in E;
    match type of H with
    | (if ?g then _ else _) = _ => destruct g; inversion H; subst; exact E
    end
  end.

Lemma readUshort_shrinks (s s' : istream) (v : option Z) :
  readUshort s = (v, s') -> no_longer s' s.
Proof. unfold readUshort. reader_shrinks. Qed.

Lemma readShort_shrinks (s s' : istream) (v : option Z) :
  readShort s = (v, s') -> no_longer s' s.
Proof. unfold readShort. reader_shrinks. Qed.

Lemma readInt_shrinks (s s' : istream) (v : option Z) :
  readInt s = (v, s') -> no_longer s' s.
Proof. unfold readInt. reader_shrinks. Qed.

Lemma readFloat_shrinks (s s' : istream) (v : option float32) :
  readFloat s = (v, s') -> no_longer s' s.
Proof. unfold readFloat. reader_shrinks. Qed.

Lemma readUchar_shrinks (s s' : istream) (v : option Z) :
  readUchar s = (v, s') -> no_longer s' s.
Proof. unfold readUchar. reader_shrinks. Qed.

(** Case analysis on the next primitive read of a hypothesis [H], keeping
    what it says about the length of the stream. *)
Ltac next_read H :=
  match type of H with
  | context [match readUshort ?s with _ => _ end] =>
    let E := fresh "E" in
    destruct (readUshort s) as [[?|] ?] eqn:E; apply readUshort_shrinks in E
  | context [match readInt ?s with _ => _ end] =>
    let E := fresh "E" in
    destruct (readInt s) as [[?|] ?] eqn:E; apply readInt_shrinks in E
  | context [match readShort ?s with _ => _ end] =>
    let E := fresh "E" in
    destruct (readShort s) as [[?|] ?] eqn:E; apply readShort_shrinks in E
  | context [match readFloat ?s with _ => _ end] =>
    let E := fresh "E" in
    destruct (readFloat s) as [[?|] ?] eqn:E; apply readFloat_shrinks in E
  | context [match readUchar ?s with _ => _ end] =>
    let E := fresh "E" in
    destruct (readUchar s) as [[?|] ?] eqn:E; apply readUchar_shrinks in E
  end.

Ltac close_shrinks :=
  match goal with
  | H : _ = _ |- _ => inversion H; subst; clear H
  end;
  unfold no_longer in *; lia.

Lemma readString_loop_shrinks (n : nat) :
  forall (count : Z) (acc : list byte) (s s' : istream) (r : Z) (bs : list byte),
    readString_loop n count acc s = (r, bs, s') -> no_longer s' s.
Proof.
  induction n as [|n IH]; intros count acc s s' r bs H; cbn [readString_loop] in H.
  - inversion H. apply no_longer_refl.
  - destruct (stream_read 1 s) as [bytes s1] eqn:E. apply stream_read_shrinks in E.
    destruct (good s1); [|inversion H; subst; exact E].
    destruct bytes as [|b [|? ?]]; try (inversion H; subst; exact E).
    destruct (byte_val b =? 0); [inversion H; subst; exact E|].
    apply IH in H. eapply no_longer_trans; eauto.
Qed.

Lemma readString_shrinks (s s' : istream) (n : Z) (name : string) :
  readString s = (n, name, s') -> no_longer s' s.
Proof.
  unfold readString. destruct (readString_loop maxLength 0 [] s) as [[r bs] s1] eqn:E.
  intros H. inversion H; subst. eapply readString_loop_shrinks; eauto.
Qed.

Lemma readFloats_shrinks (n : nat) :
  forall (s s' : istream) (xs : option (list float32)),
    readFloats n s = (xs, s') -> no_longer s' s.
Proof.
  induction n as [|n IH]; intros s s' xs H; cbn [readFloats] in H.
  - inversion H. apply no_longer_refl.
  - next_read H; [|close_shrinks].
    destruct (readFloats n i) as [[ys|] s2] eqn:E2; apply IH in E2; close_shrinks.
Qed.

Lemma readPointArray_loop_shrinks (n : nat) :
  forall (s s' : istream) (b r : Z) (m m' : M3DTriangleMesh),
    readPointArray_loop n s b m = (r, s', m') -> no_longer s' s.
Proof.
  induction n as [|n IH]; intros s s' b r m m' H; cbn [readPointArray_loop] in H.
  - inversion H. apply no_longer_refl.
  - next_read H; [|close_shrinks]. next_read H; [|close_shrinks].
    next_read H; [|close_shrinks]. apply IH in H. unfold no_longer in *; lia.
Qed.

Lemma readTextureCoordArray_loop_shrinks (n : nat) :
  forall (s s' : istream) (b r : Z) (m m' : M3DTriangleMesh),
    readTextureCoordArray_loop n s b m = (r, s', m') -> no_longer s' s.
Proof.
  induction n as [|n IH]; intros s s' b r m m' H;
    cbn [readTextureCoordArray_loop] in H.
  - inversion H. apply no_longer_refl.
  - next_read H; [|close_shrinks]. next_read H; [|close_shrinks].
    apply IH in H. unfold no_longer in *; lia.
Qed.

Lemma readFaceIndices_shrinks (n : nat) :
  forall (s s' : istream) (b : Z) (r : option Z) (g g' : M3DMeshMaterialGroup),
    readFaceIndices n s b g = (r, s', g') -> no_longer s' s.
Proof.
  induction n as [|n IH]; intros s s' b r g g' H; cbn [readFaceIndices] in H.
  - inversion H. apply no_longer_refl.
  - next_read H; [|close_shrinks]. apply IH in H. unfold no_longer in *; lia.
Qed.

Lemma readSmoothingGroups_shrinks (n : nat) :
  forall (s s' : istream) (b r : Z) (m m' : M3DTriangleMesh),
    readSmoothingGroups n s b m = (r, s', m') -> no_longer s' s.
Proof.
  induction n as [|n IH]; intros s s' b r m m' H; cbn [readSmoothingGroups] in H.
  - inversion H. apply no_longer_refl.
  - next_read H; [|close_shrinks].
    destruct (z <? 0); [close_shrinks|].
    apply IH in H. unfold no_longer in *; lia.
Qed.

Lemma readFaces_shrinks (n : nat) :
  forall (s s' : istream) (b : Z) (r : option Z) (m m' : M3DTriangleMesh),
    readFaces n s b m = (r, s', m') -> no_longer s' s.
Proof.
  induction n as [|n IH]; intros s s' b r m m' H; cbn [readFaces] in H.
  - inversion H. apply no_longer_refl.
  - next_read H; [|close_shrinks]. next_read H; [|close_shrinks].
    next_read H; [|close_shrinks]. next_read H; [|close_shrinks].
    apply IH in H. unfold no_longer in *; lia.
Qed.

Section EngineTermination.
Context {T : Type}.
Variable chunkFunc : ProcessChunkFunc T.
Variable fuel : nat.
Hypothesis handler_ok : well_behaved chunkFunc fuel.

(** A dispatch on a stream shorter than the fuel has a result; a successful
    one consumed at least the six bytes of the header. *)
Lemma read3DSChunk_forward (s : istream) (obj : T) :
  (length (rest s) < fuel)%nat ->
  exists r s' obj',
    read3DSChunk chunkFunc s obj = Some (r, s', obj') /\
    no_longer s' s /\
    (0 <= r -> (length (rest s') + 6 <= length (rest s))%nat).
Proof.
  intros Hlen. unfold read3DSChunk.
  destruct (readUshort s) as [[chunkType|] s1] eqn:Ety.
  2:{ apply readUshort_shrinks in Ety. eexists _, _, _. split; [reflexivity|].
      split; [assumption|unfold READ_FAILURE; lia]. }
  destruct (readInt s1) as [[chunkSize|] s2] eqn:Esz.
  2:{ apply readUshort_shrinks in Ety. apply readInt_shrinks in Esz.
      eexists _, _, _. split; [reflexivity|].
      split; [eapply no_longer_trans; eauto|unfold READ_FAILURE; lia]. }
  destruct (header_read _ _ _ _ _ Ety Esz) as (_ & L6 & E2).
  assert (Hs2 : (length (rest s2) + 6 = length (rest s))%nat).
  { subst s2. cbn [rest]. rewrite length_skipn. lia. }
  destruct (chunkSize <? 6).
  { eexists _, _, _. split; [reflexivity|].
    split; [unfold no_longer; lia|unfold READ_FAILURE; lia]. }
  destruct (handler_ok s2 chunkType (sub32 chunkSize 6) obj ltac:(lia))
    as (p & s3 & obj' & -> & Hs3).
  unfold reconcile, no_longer in *.
  destruct (p =? READ_FAILURE).
  { eexists _, _, _. split; [reflexivity|]. split; [lia|unfold READ_FAILURE; lia]. }
  destruct (p =? UNKNOWN_CHUNK).
  { pose proof (stream_ignore_shrinks (sub32 chunkSize 6) s3) as Hi.
    unfold no_longer in Hi.
    eexists _, _, _. split; [reflexivity|]. split; lia. }
  destruct (negb (p =? sub32 chunkSize 6));
    eexists _, _, _; (split; [reflexivity|]); split; lia.
Qed.

Lemma read3DSChunks_loop_forward (nBytes : Z) :
  forall (f : nat) (s : istream) (b : Z) (obj : T),
    (f <= fuel)%nat -> (length (rest s) < f)%nat ->
    exists r s' obj',
      read3DSChunks_loop chunkFunc f s nBytes b obj = Some (r, s', obj') /\
      no_longer s' s.
Proof.
  induction f as [|f IH]; intros s b obj Hf Hlen; [lia|].
  cbn [read3DSChunks_loop].
  destruct (b <? nBytes).
  - destruct (read3DSChunk_forward s obj ltac:(lia))
      as (size & s1 & obj1 & -> & Hs1 & Hsix).
    destruct (size <? 0) eqn:L.
    + eexists _, _, _. split; [reflexivity|assumption].
    + apply Z.ltb_ge in L. specialize (Hsix L).
      destruct (IH s1 (add32 b size) obj1 ltac:(lia) ltac:(lia))
        as (r & s' & obj' & -> & Hs').
      eexists _, _, _. split; [reflexivity|]. eapply no_longer_trans; eauto.
  - destruct (negb (b =? nBytes)); eexists _, _, _;
      (split; [reflexivity|apply no_longer_refl]).
Qed.

(** With fuel beyond the length of the stream, [read3DSChunks] has a
    result. *)
Lemma read3DSChunks_forward (s : istream) (nBytes : Z) (obj : T) :
  (length (rest s) < fuel)%nat ->
  exists r s' obj',
    read3DSChunks chunkFunc fuel s nBytes obj = Some (r, s', obj') /\
    no_longer s' s.
Proof. intros Hlen. now apply read3DSChunks_loop_forward. Qed.
End EngineTermination.

Ltac result_ok :=
  eexists _, _, _; split; [reflexivity|unfold no_longer in *; lia].

Lemma readColor_shrinks (s s' : istream) (c c' : M3DColor) (r : Z) :
  readColor s c = (r, s', c') -> no_longer s' s.
Proof.
  unfold readColor. intros H.
  next_read H; [|close_shrinks]. next_read H; [|close_shrinks].
  next_read H; close_shrinks.
Qed.

Lemma readFloatColor_shrinks (s s' : istream) (c c' : M3DColor) (r : Z) :
  readFloatColor s c = (r, s', c') -> no_longer s' s.
Proof.
  unfold readFloatColor. intros H.
  next_read H; [|close_shrinks]. next_read H; [|close_shrinks].
  next_read H; close_shrinks.
Qed.

Lemma readMeshMatrix_shrinks (s s' : istream) (m m' : Matrix4f) (r : Z) :
  readMeshMatrix s m = (r, s', m') -> no_longer s' s.
Proof.
  unfold readMeshMatrix. intros H.
  destruct (readFloats 12 s) as [[xs|] s1] eqn:E; apply readFloats_shrinks in E;
    close_shrinks.
Qed.

Lemma readPointArray_shrinks (s s' : istream) (m m' : M3DTriangleMesh) (r : Z) :
  readPointArray s m = (r, s', m') -> no_longer s' s.
Proof.
  unfold readPointArray. intros H. next_read H; [|close_shrinks].
  apply readPointArray_loop_shrinks in H. unfold no_longer in *; lia.
Qed.

Lemma readTextureCoordArray_shrinks (s s' : istream) (m m' : M3DTriangleMesh) (r : Z) :
  readTextureCoordArray s m = (r, s', m') -> no_longer s' s.
Proof.
  unfold readTextureCoordArray. intros H. next_read H; [|close_shrinks].
  apply readTextureCoordArray_loop_shrinks in H. unfold no_longer in *; lia.
Qed.

Section HandlerTermination.
Context {tags : ChunkTags} {m3d : Model3DS}.
Variable fuel : nat.

Lemma processColorChunk_ok : well_behaved processColorChunk fuel.
Proof.
  intros s chunkType contentSize color _. unfold processColorChunk.
  destruct (chunkType =? M3DCHUNK_COLOR_24).
  { destruct (readColor s color) as [[r s'] c'] eqn:E.
    apply readColor_shrinks in E. result_ok. }
  destruct (chunkType =? M3DCHUNK_COLOR_FLOAT).
  { destruct (readFloatColor s color) as [[r s'] c'] eqn:E.
    apply readFloatColor_shrinks in E. result_ok. }
  result_ok.
Qed.

Lemma processPercentageChunk_ok : well_behaved processPercentageChunk fuel.
Proof.
  intros s chunkType contentSize percent _. unfold processPercentageChunk.
  destruct (chunkType =? M3DCHUNK_INT_PERCENTAGE).
  { destruct (readShort s) as [[v|] s'] eqn:E; apply readShort_shrinks in E;
      result_ok. }
  destruct (chunkType =? M3DCHUNK_FLOAT_PERCENTAGE).
  { destruct (readFloat s) as [[v|] s'] eqn:E; apply readFloat_shrinks in E;
      result_ok. }
  result_ok.
Qed.

Lemma processTexmapChunk_ok : well_behaved processTexmapChunk fuel.
Proof.
  intros s chunkType contentSize material _. unfold processTexmapChunk.
  destruct (chunkType =? M3DCHUNK_MATERIAL_MAPNAME); [|result_ok].
  destruct (readString s) as [[n name] s'] eqn:E. apply readString_shrinks in E.
  destruct (n <? 0); result_ok.
Qed.

Lemma processFaceArrayChunk_ok : well_behaved processFaceArrayChunk fuel.
Proof.
  intros s chunkType contentSize triMesh _. unfold processFaceArrayChunk.
  destruct (chunkType =? M3DCHUNK_MESH_MATERIAL_GROUP).
  { destruct (readString s) as [[n name] s1] eqn:E. apply readString_shrinks in E.
    destruct (n =? READ_FAILURE); [result_ok|].
    destruct (readUshort s1) as [[nFaces|] s2] eqn:E2;
      apply readUshort_shrinks in E2; [|result_ok].
    destruct (readFaceIndices (Z.to_nat nFaces) s2 (add32 n 2)
                (mkMatGroup name (group_faces new_M3DMeshMaterialGroup)))
      as [[[b|] s3] g] eqn:E3; apply readFaceIndices_shrinks in E3; result_ok. }
  destruct (chunkType =? M3DCHUNK_MESH_SMOOTH_GROUP); [|result_ok].
  destruct (readSmoothingGroups (Z.to_nat (wrap_u16 (getFaceCount triMesh))) s 0 triMesh)
    as [[r s'] m'] eqn:E.
  apply readSmoothingGroups_shrinks in E. result_ok.
Qed.

Lemma readFaceArray_ok (s : istream) (triMesh : M3DTriangleMesh) (contentSize : Z) :
  (length (rest s) < fuel)%nat ->
  exists r s' triMesh',
    readFaceArray fuel s triMesh contentSize = Some (r, s', triMesh') /\
    no_longer s' s.
Proof.
  intros Hlen. unfold readFaceArray.
  destruct (readUshort s) as [[nFaces|] s1] eqn:E; apply readUshort_shrinks in E;
    [|result_ok].
  destruct (readFaces (Z.to_nat nFaces) s1 2 triMesh) as [[[b|] s2] m2] eqn:E2;
    apply readFaces_shrinks in E2; [|result_ok].
  destruct (b >? contentSize); [result_ok|].
  destruct (b <? contentSize); [|result_ok].
  destruct (read3DSChunks_forward processFaceArrayChunk fuel
              processFaceArrayChunk_ok s2 (sub32 contentSize b) m2)
    as (r & s3 & m3 & -> & Hs3); [unfold no_longer in *; lia|].
  result_ok.
Qed.

Lemma processTriMeshChunk_ok : well_behaved (processTriMeshChunk fuel) fuel.
Proof.
  intros s chunkType contentSize triMesh Hlen. unfold processTriMeshChunk.
  destruct (chunkType =? M3DCHUNK_POINT_ARRAY).
  { destruct (readPointArray s triMesh) as [[r s'] m'] eqn:E.
    apply readPointArray_shrinks in E. result_ok. }
  destruct (chunkType =? M3DCHUNK_MESH_TEXTURE_COORDS).
  { destruct (readTextureCoordArray s triMesh) as [[r s'] m'] eqn:E.
    apply readTextureCoordArray_shrinks in E. result_ok. }
  destruct (chunkType =? M3DCHUNK_FACE_ARRAY); [now apply readFaceArray_ok|].
  destruct (chunkType =? M3DCHUNK_MESH_MATRIX); [|result_ok].
  destruct (readMeshMatrix s local_matrix) as [[r s'] m'] eqn:E.
  apply readMeshMatrix_shrinks in E. destruct (r <? 0); result_ok.
Qed.

Lemma processModelChunk_ok : well_behaved (processModelChunk fuel) fuel.
Proof.
  intros s chunkType contentSize model Hlen. unfold processModelChunk.
  destruct (chunkType =? M3DCHUNK_TRIANGLE_MESH); [|result_ok].
  destruct (read3DSChunks_forward (processTriMeshChunk fuel) fuel
              processTriMeshChunk_ok s contentSize new_M3DTriangleMesh Hlen)
    as (r & s1 & m1 & -> & Hs1).
  destruct (r =? READ_FAILURE); result_ok.
Qed.

Lemma readColorInto_ok (set : M3DColor -> M3DMaterial -> M3DMaterial)
      (s : istream) (contentSize : Z) (material : M3DMaterial) :
  (length (rest s) < fuel)%nat ->
  exists r s' material',
    readColorInto fuel set s contentSize material = Some (r, s', material') /\
    no_longer s' s.
Proof.
  intros Hlen. unfold readColorInto.
  destruct (read3DSChunks_forward processColorChunk fuel
              processColorChunk_ok s contentSize local_color Hlen)
    as (r & s1 & c1 & -> & Hs1).
  destruct (r <? 0); result_ok.
Qed.

Lemma processMaterialChunk_ok : well_behaved (processMaterialChunk fuel) fuel.
Proof.
  intros s chunkType contentSize material Hlen. unfold processMaterialChunk.
  destruct (chunkType =? M3DCHUNK_MATERIAL_NAME).
  { destruct (readString s) as [[n name] s'] eqn:E. apply readString_shrinks in E.
    destruct (n <? 0); result_ok. }
  destruct (chunkType =? M3DCHUNK_MATERIAL_AMBIENT); [now apply readColorInto_ok|].
  destruct (chunkType =? M3DCHUNK_MATERIAL_DIFFUSE); [now apply readColorInto_ok|].
  destruct (chunkType =? M3DCHUNK_MATERIAL_SPECULAR); [now apply readColorInto_ok|].
  destruct (chunkType =? M3DCHUNK_MATERIAL_SHININESS).
  { destruct (read3DSChunks_forward processPercentageChunk fuel
                processPercentageChunk_ok s contentSize local_float Hlen)
      as (r & s1 & t & -> & Hs1).
    destruct (r <? 0); result_ok. }
  destruct (chunkType =? M3DCHUNK_MATERIAL_TRANSPARENCY).
  { destruct (read3DSChunks_forward processPercentageChunk fuel
                processPercentageChunk_ok s contentSize local_float Hlen)
      as (r & s1 & t & -> & Hs1).
    destruct (r <? 0); result_ok. }
  destruct (chunkType =? M3DCHUNK_MATERIAL_TEXMAP); [|result_ok].
  apply (read3DSChunks_forward processTexmapChunk fuel processTexmapChunk_ok).
  exact Hlen.
Qed.

Lemma processSceneChunk_ok : well_behaved (processSceneChunk fuel) fuel.
Proof.
  intros s chunkType contentSize scene Hlen. unfold processSceneChunk.
  destruct (chunkType =? M3DCHUNK_NAMED_OBJECT).
  { destruct (readString s) as [[n name] s1] eqn:E. apply readString_shrinks in E.
    destruct (n <? 0); [result_ok|].
    destruct (read3DSChunks_forward (processModelChunk fuel) fuel
                processModelChunk_ok s1 (sub32 contentSize n)
                (setModelName name new_M3DModel))
      as (r & s2 & m2 & -> & Hs2); [unfold no_longer in *; lia|].
    destruct (r <? 0); result_ok. }
  destruct (chunkType =? M3DCHUNK_MATERIAL_ENTRY).
  { destruct (read3DSChunks_forward (processMaterialChunk fuel) fuel
                processMaterialChunk_ok s contentSize new_M3DMaterial Hlen)
      as (r & s1 & m1 & -> & Hs1).
    destruct (r <? 0); result_ok. }
  destruct (chunkType =? M3DCHUNK_BACKGROUND_COLOR); [|result_ok].
  destruct (read3DSChunks_forward processColorChunk fuel
              processColorChunk_ok s contentSize local_color Hlen)
    as (r & s1 & c1 & -> & Hs1).
  destruct (r <? 0); result_ok.
Qed.

Lemma processTopLevelChunk_ok : well_behaved (processTopLevelChunk fuel) fuel.
Proof.
  intros s chunkType contentSize scene Hlen. unfold processTopLevelChunk.
  destruct (chunkType =? M3DCHUNK_MESHDATA); [|result_ok].
  now apply (read3DSChunks_forward (processSceneChunk fuel) fuel processSceneChunk_ok).
Qed.

(** With fuel beyond the length of the stream, [Read3DSFile] returns: a
    scene or none. *)
Theorem Read3DSFile_total (s : istream) :
  (length (rest s) < fuel)%nat ->
  exists (scene : option M3DScene) (s' : istream),
    Read3DSFile fuel s = Some (scene, s') /\ no_longer s' s.
Proof.
  intros Hlen. unfold Read3DSFile.
  destruct (readUshort s) as [[chunkType|] s1] eqn:E; apply readUshort_shrinks in E.
  2:{ eexists _, _. split; [reflexivity|assumption]. }
  destruct (negb (chunkType =? M3DCHUNK_MAGIC)).
  { eexists _, _. split; [reflexivity|assumption]. }
  destruct (readInt s1) as [[chunkSize|] s2] eqn:E2; apply readInt_shrinks in E2.
  2:{ eexists _, _. split; [reflexivity|unfold no_longer in *; lia]. }
  destruct (chunkSize <? 6).
  { eexists _, _. split; [reflexivity|unfold no_longer in *; lia]. }
  destruct (read3DSChunks_forward (processTopLevelChunk fuel) fuel
              processTopLevelChunk_ok s2 (sub32 chunkSize 6) new_M3DScene)
    as (r & s3 & scene' & -> & Hs3); [unfold no_longer in *; lia|].
  destruct (r <? 0); [eexists _, _; split; [reflexivity|unfold no_longer in *; lia]|].
  destruct (negb (r =? sub32 chunkSize 6));
    eexists _, _; (split; [reflexivity|unfold no_longer in *; lia]).
Qed.
End HandlerTermination.

(** ** The fuel does not matter once it exceeds the stream *)

Lemma well_behaved_below {T : Type} (f : ProcessChunkFunc T) (fuel bound : nat) :
  (bound <= fuel)%nat -> well_behaved f fuel -> well_behaved f bound.
Proof. intros L W s chunkType contentSize obj H. apply W. lia. Qed.

Section FuelIrrelevance.
Context {T : Type}.
Variables f g : ProcessChunkFunc T.
Variable bound : nat.
Hypothesis same : agree_below f g bound.
Hypothesis f_ok : well_behaved f bound.

Lemma read3DSChunk_agree (s : istream) (obj : T) :
  (length (rest s) < bound)%nat ->
  read3DSChunk f s obj = read3DSChunk g s obj.
Proof.
  intros Hlen. unfold read3DSChunk.
  destruct (readUshort s) as [[chunkType|] s1] eqn:E; [|reflexivity].
  destruct (readInt s1) as [[chunkSize|] s2] eqn:E2; [|reflexivity].
  apply readUshort_shrinks in E. apply readInt_shrinks in E2.
  destruct (chunkSize <? 6); [reflexivity|].
  rewrite same by (unfold no_longer in *; lia). reflexivity.
Qed.

Lemma read3DSChunks_loop_agree (nBytes : Z) :
  forall (n1 n2 : nat) (s : istream) (b : Z) (obj : T),
    (length (rest s) < bound)%nat ->
    (length (rest s) < n1)%nat -> (length (rest s) < n2)%nat ->
    read3DSChunks_loop f n1 s nBytes b obj = read3DSChunks_loop g n2 s nBytes b obj.
Proof.
  induction n1 as [|n1 IH]; intros n2 s b obj Hb H1 H2; [lia|].
  destruct n2 as [|n2]; [lia|]. cbn [read3DSChunks_loop].
  destruct (b <? nBytes); [|reflexivity].
  rewrite <- read3DSChunk_agree by assumption.
  destruct (read3DSChunk_forward f bound f_ok s obj Hb)
    as (size & s1 & obj1 & -> & Hs1 & Hsix).
  destruct (size <? 0) eqn:L; [reflexivity|].
  apply Z.ltb_ge in L. specialize (Hsix L).
  apply IH; lia.
Qed.
End FuelIrrelevance.

Section HandlerFuel.
Context {tags : ChunkTags} {m3d : Model3DS}.
Variables fuel1 fuel2 : nat.

Lemma agree_below_refl {T : Type} (f : ProcessChunkFunc T) (bound : nat) :
  agree_below f f bound.
Proof. intros s chunkType contentSize obj _. reflexivity. Qed.

(** A nested loop over a handler that takes no fuel. *)
Lemma read3DSChunks_fuel {T : Type} (f : ProcessChunkFunc T) (s : istream)
      (nBytes : Z) (obj : T) :
  (forall fuel, well_behaved f fuel) ->
  (length (rest s) < fuel1)%nat -> (length (rest s) < fuel2)%nat ->
  read3DSChunks f fuel1 s nBytes obj = read3DSChunks f fuel2 s nBytes obj.
Proof.
  intros W H1 H2. unfold read3DSChunks.
  apply (read3DSChunks_loop_agree f f (Nat.min fuel1 fuel2));
    [apply agree_below_refl|apply W|lia|assumption|assumption].
Qed.

(** A nested loop over a handler that takes the fuel. *)
Lemma read3DSChunks_handler_fuel {T : Type} (f : nat -> ProcessChunkFunc T)
      (s : istream) (nBytes : Z) (obj : T) :
  agree_below (f fuel1) (f fuel2) (Nat.min fuel1 fuel2) ->
  well_behaved (f fuel1) fuel1 ->
  (length (rest s) < Nat.min fuel1 fuel2)%nat ->
  read3DSChunks (f fuel1) fuel1 s nBytes obj =
  read3DSChunks (f fuel2) fuel2 s nBytes obj.
Proof.
  intros A W H. unfold read3DSChunks.
  apply (read3DSChunks_loop_agree (f fuel1) (f fuel2) (Nat.min fuel1 fuel2));
    [assumption|apply (well_behaved_below _ fuel1); [lia|assumption]|lia|lia|lia].
Qed.

Lemma processTriMeshChunk_fuel :
  agree_below (processTriMeshChunk fuel1) (processTriMeshChunk fuel2)
              (Nat.min fuel1 fuel2).
Proof.
  intros s chunkType contentSize triMesh Hlen.
  unfold processTriMeshChunk, readFaceArray.
  destruct (chunkType =? M3DCHUNK_POINT_ARRAY); [reflexivity|].
  destruct (chunkType =? M3DCHUNK_MESH_TEXTURE_COORDS); [reflexivity|].
  destruct (chunkType =? M3DCHUNK_FACE_ARRAY); [|reflexivity].
  destruct (readUshort s) as [[nFaces|] s1] eqn:E; [|reflexivity].
  apply readUshort_shrinks in E.
  destruct (readFaces (Z.to_nat nFaces) s1 2 triMesh) as [[[b|] s2] m2] eqn:E2;
    [|reflexivity].
  apply readFaces_shrinks in E2.
  destruct (b >? contentSize); [reflexivity|].
  destruct (b <? contentSize); [|reflexivity].
  rewrite (read3DSChunks_fuel processFaceArrayChunk);
    [reflexivity|intros; apply processFaceArrayChunk_ok| |];
    unfold no_longer in *; lia.
Qed.

Lemma processModelChunk_fuel :
  agree_below (processModelChunk fuel1) (processModelChunk fuel2)
              (Nat.min fuel1 fuel2).
Proof.
  intros s chunkType contentSize model Hlen. unfold processModelChunk.
  destruct (chunkType =? M3DCHUNK_TRIANGLE_MESH); [|reflexivity].
  rewrite (read3DSChunks_handler_fuel processTriMeshChunk);
    [reflexivity|apply processTriMeshChunk_fuel|apply processTriMeshChunk_ok|assumption].
Qed.

Lemma processMaterialChunk_fuel :
  agree_below (processMaterialChunk fuel1) (processMaterialChunk fuel2)
              (Nat.min fuel1 fuel2).
Proof.
  intros s chunkType contentSize material Hlen.
  unfold processMaterialChunk, readColorInto.
  assert (C : read3DSChunks processColorChunk fuel1 s contentSize local_color =
              read3DSChunks processColorChunk fuel2 s contentSize local_color).
  { apply read3DSChunks_fuel; [intros; apply processColorChunk_ok|lia|lia]. }
  assert (P : read3DSChunks processPercentageChunk fuel1 s contentSize local_float =
              read3DSChunks processPercentageChunk fuel2 s contentSize local_float).
  { apply read3DSChunks_fuel; [intros; apply processPercentageChunk_ok|lia|lia]. }
  assert (X : read3DSChunks processTexmapChunk fuel1 s contentSize material =
              read3DSChunks processTexmapChunk fuel2 s contentSize material).
  { apply read3DSChunks_fuel; [intros; apply processTexmapChunk_ok|lia|lia]. }
  rewrite C, P, X. reflexivity.
Qed.

Lemma processSceneChunk_fuel :
  agree_below (processSceneChunk fuel1) (processSceneChunk fuel2)
              (Nat.min fuel1 fuel2).
Proof.
  intros s chunkType contentSize scene Hlen. unfold processSceneChunk.
  destruct (chunkType =? M3DCHUNK_NAMED_OBJECT).
  { destruct (readString s) as [[n name] s1] eqn:E. apply readString_shrinks in E.
    destruct (n <? 0); [reflexivity|].
    rewrite (read3DSChunks_handler_fuel processModelChunk);
      [reflexivity|apply processModelChunk_fuel|apply processModelChunk_ok|].
    unfold no_longer in *; lia. }
  destruct (chunkType =? M3DCHUNK_MATERIAL_ENTRY).
  { rewrite (read3DSChunks_handler_fuel processMaterialChunk);
      [reflexivity|apply processMaterialChunk_fuel|apply processMaterialChunk_ok
       |assumption]. }
  destruct (chunkType =? M3DCHUNK_BACKGROUND_COLOR); [|reflexivity].
  rewrite (read3DSChunks_fuel processColorChunk);
    [reflexivity|intros; apply processColorChunk_ok|lia|lia].
Qed.

Lemma processTopLevelChunk_fuel :
  agree_below (processTopLevelChunk fuel1) (processTopLevelChunk fuel2)
              (Nat.min fuel1 fuel2).
Proof.
  intros s chunkType contentSize scene Hlen. unfold processTopLevelChunk.
  destruct (chunkType =? M3DCHUNK_MESHDATA); [|reflexivity].
  apply (read3DSChunks_handler_fuel processSceneChunk);
    [apply processSceneChunk_fuel|apply processSceneChunk_ok|assumption].
Qed.

(** Any two amounts of fuel beyond the length of the stream give
    [Read3DSFile] the same result. *)
Theorem Read3DSFile_fuel (s : istream) :
  (length (rest s) < fuel1)%nat -> (length (rest s) < fuel2)%nat ->
  Read3DSFile fuel1 s = Read3DSFile fuel2 s.
Proof.
  intros H1 H2. unfold Read3DSFile.
  destruct (readUshort s) as [[chunkType|] s1] eqn:E; [|reflexivity].
  apply readUshort_shrinks in E.
  destruct (negb (chunkType =? M3DCHUNK_MAGIC)); [reflexivity|].
  destruct (readInt s1) as [[chunkSize|] s2] eqn:E2; [|reflexivity].
  apply readInt_shrinks in E2.
  destruct (chunkSize <? 6); [reflexivity|].
  rewrite (read3DSChunks_handler_fuel processTopLevelChunk);
    [reflexivity|apply processTopLevelChunk_fuel|apply processTopLevelChunk_ok|].
  unfold no_longer in *; lia.
Qed.
End HandlerFuel.

(** * Further properties of the reader *)

(** ** Exact consumption by the primitive readers *)

Lemma consumed_good (s s' : istream) (n : Z) : consumed s s' n -> good s' = true.
Proof. intros [_ ->]. reflexivity. Qed.

Lemma consumed_length (s s' : istream) (n : Z) :
  consumed s s' n -> Z.of_nat (length (rest s')) = Z.of_nat (length (rest s)) - n.
Proof. intros [R ->]. cbn [rest]. rewrite length_skipn. lia. Qed.

Lemma consumed_zero (s : istream) : good s = true -> consumed s s 0.
Proof.
  intros G. destruct (good_true s G) as [E F]. split; [lia|].
  destruct s; simpl in *. subst. f_equal. lia.
Qed.

Lemma consumed_trans (s1 s2 s3 : istream) (a b : Z) :
  consumed s1 s2 a -> consumed s2 s3 b -> consumed s1 s3 (a + b).
Proof.
  intros [Ra E2] [Rb E3]. subst s2. cbn [rest gpos] in *.
  rewrite length_skipn in Rb. split; [lia|]. subst s3.
  rewrite skipn_skipn. f_equal; [f_equal; lia|lia].
Qed.

Lemma consumed_sum (s1 s2 s3 : istream) (a b c : Z) :
  consumed s1 s2 a -> consumed s2 s3 b -> c = a + b -> consumed s1 s3 c.
Proof. intros Ca Cb ->. eapply consumed_trans; eauto. Qed.

Lemma advance_consumed (n : nat) (s : istream) :
  good s = true -> (n <= length (rest s))%nat -> consumed s (advance n s) (Z.of_nat n).
Proof.
  intros G L. destruct (good_true s G) as [E F]. split; [lia|].
  rewrite advance_enough by assumption. rewrite E, F, Nat2Z.id. reflexivity.
Qed.

Lemma readUshort_consumed (s s' : istream) (v : Z) :
  readUshort s = (Some v, s') -> consumed s s' 2 /\ v = u16_at (rest s).
Proof.
  intros H. apply readUshort_Some in H. destruct H as (G & L & -> & ->).
  split; [now apply (advance_consumed 2)|reflexivity].
Qed.

Lemma readShort_consumed (s s' : istream) (v : Z) :
  readShort s = (Some v, s') -> consumed s s' 2.
Proof.
  intros H. apply readShort_Some in H. destruct H as (G & L & -> & _).
  now apply (advance_consumed 2).
Qed.

Lemma readInt_consumed (s s' : istream) (v : Z) :
  readInt s = (Some v, s') -> consumed s s' 4.
Proof.
  intros H. apply readInt_Some in H. destruct H as (G & L & -> & _).
  now apply (advance_consumed 4).
Qed.

Lemma readFloat_consumed (s s' : istream) (x : float32) :
  readFloat s = (Some x, s') -> consumed s s' 4 /\ x = f32_at (rest s).
Proof.
  intros H. apply readFloat_Some in H. destruct H as (G & L & -> & ->).
  split; [now apply (advance_consumed 4)|reflexivity].
Qed.

Lemma readUchar_consumed (s s' : istream) (v : Z) :
  readUchar s = (Some v, s') ->
  consumed s s' 1 /\ v = le_value (firstn 1 (rest s)).
Proof.
  unfold readUchar. intros H. reader_some H.
  split; [now apply (advance_consumed 1)|reflexivity].
Qed.

(** A primitive read that fails leaves a stream that is not good. *)
Lemma readUshort_None (s s' : istream) : readUshort s = (None, s') -> good s' = false.
Proof.
  unfold readUshort. destruct (stream_read 2 s) as [bs s1].
  destruct (good s1) eqn:G; intros H; inversion H; subst; assumption.
Qed.

Lemma readInt_None (s s' : istream) : readInt s = (None, s') -> good s' = false.
Proof.
  unfold readInt. destruct (stream_read 4 s) as [bs s1].
  destruct (good s1) eqn:G; intros H; inversion H; subst; assumption.
Qed.

Lemma readFloat_None (s s' : istream) : readFloat s = (None, s') -> good s' = false.
Proof.
  unfold readFloat. destruct (stream_read 4 s) as [bs s1].
  destruct (good s1) eqn:G; intros H; inversion H; subst; assumption.
Qed.

Lemma readFloat_short (s : istream) :
  good s = true -> (length (rest s) < 4)%nat -> exists s', readFloat s = (None, s').
Proof.
  intros G L. unfold readFloat, stream_read. rewrite G.
  destruct (4 <=? length (rest s))%nat eqn:E; [apply Nat.leb_le in E; lia|].
  rewrite good_setstate_fail. eauto.
Qed.

Lemma readUshort_short (s : istream) :
  good s = true -> (length (rest s) < 2)%nat -> exists s', readUshort s = (None, s').
Proof.
  intros G L. unfold readUshort, stream_read. rewrite G.
  destruct (2 <=? length (rest s))%nat eqn:E; [apply Nat.leb_le in E; lia|].
  rewrite good_setstate_fail. eauto.
Qed.

(** On a stream that is not good every primitive read fails. *)
Lemma stream_read_not_good (n : nat) (s : istream) :
  good s = false -> stream_read n s = ([], setstate false true s).
Proof. intros G. unfold stream_read. now rewrite G. Qed.

(** ** Strings *)

Lemma byte_val_zero (b : byte) : byte_val b = 0 <-> b = x00.
Proof.
  split; [|intros ->; reflexivity].
  unfold byte_val. intros H.
  assert (E : Byte.to_N b = 0%N) by lia.
  pose proof (Byte.of_to_N b) as O. rewrite E in O. simpl in O. now inversion O.
Qed.

Lemma readString_loop_found (name : list byte) :
  forall (n : nat) (count : Z) (acc : list byte) (s : istream) (tail : list byte),
    good s = true ->
    rest s = name ++ x00 :: tail ->
    Forall (fun b => b <> x00) name ->
    (length name < n)%nat ->
    0 <= count -> count + Z.of_nat (length name) + 1 <= INT32_MAX ->
    readString_loop n count acc s =
    (count + Z.of_nat (length name) + 1, rev acc ++ name,
     mkStream tail (gpos s + Z.of_nat (length name) + 1) false false).
Proof.
  induction name as [|b name IH]; intros n count acc s tail G R F L Hc Hm;
    (destruct n as [|n]; [simpl in L; lia|]); cbn [readString_loop].
  - rewrite stream_read_enough by (try assumption; rewrite R; simpl; lia).
    rewrite good_advance, G, R. cbn [firstn app].
    change (byte_val x00 =? 0) with true. cbv iota.
    rewrite add32_small by (unfold INT32_MIN, INT32_MAX in *; simpl in *; lia).
    rewrite (advance_prefix 1 s [x00] tail G R eq_refl).
    rewrite app_nil_r. simpl length. do 2 f_equal; [lia|f_equal; lia].
  - rewrite stream_read_enough by (try assumption; rewrite R; simpl; lia).
    rewrite good_advance, G, R. cbn [firstn app].
    inversion F as [|? ? Hb F']; subst.
    destruct (byte_val b =? 0) eqn:E.
    { apply Z.eqb_eq, byte_val_zero in E. contradiction. }
    assert (R' : rest s = [b] ++ (name ++ x00 :: tail)) by (rewrite R; reflexivity).
    rewrite (advance_prefix 1 s [b] _ G R' eq_refl).
    rewrite (IH n (count + 1) (b :: acc) _ tail); try reflexivity; try assumption;
      cbn [rest gpos length] in *; try lia.
    cbn [rev]. rewrite <- app_assoc. cbn [app].
    do 2 f_equal; [lia|f_equal; lia].
Qed.

Lemma readString_loop_not_found (n : nat) :
  forall (count : Z) (acc : list byte) (s : istream),
    Forall (fun b => b <> x00) (firstn n (rest s)) ->
    exists s', readString_loop n count acc s = (READ_FAILURE, [], s').
Proof.
  induction n as [|n IH]; intros count acc s F; cbn [readString_loop]; [eauto|].
  unfold stream_read. destruct (good s) eqn:G.
  - destruct (rest s) as [|b r] eqn:R.
    + cbn [length Nat.leb]. rewrite good_setstate_fail. eauto.
    + cbn [length Nat.leb firstn]. rewrite good_advance, G.
      cbn [firstn] in F. inversion F as [|? ? Hb F']; subst.
      destruct (byte_val b =? 0) eqn:E.
      { apply Z.eqb_eq, byte_val_zero in E. contradiction. }
      apply IH. cbn [advance rest]. rewrite R. exact F'.
  - rewrite good_setstate_fail. eauto.
Qed.

(** ** Exact consumption by the field loops *)

Lemma consumed_facts (s s' : istream) (n : Z) :
  consumed s s' n ->
  good s' = true /\ rest s' = skipn (Z.to_nat n) (rest s) /\
  Z.of_nat (length (rest s')) = Z.of_nat (length (rest s)) - n.
Proof.
  intros C. split; [eapply consumed_good; eauto|].
  split; [destruct C as [_ ->]; reflexivity|now apply consumed_length].
Qed.

Lemma readFloat_None_short (s s' : istream) :
  readFloat s = (None, s') -> good s = true -> (length (rest s) < 4)%nat.
Proof.
  intros H G. destruct (le_lt_dec 4 (length (rest s))) as [L|L]; [|assumption].
  rewrite readFloat_enough in H by assumption. discriminate.
Qed.

Lemma readUshort_None_short (s s' : istream) :
  readUshort s = (None, s') -> good s = true -> (length (rest s) < 2)%nat.
Proof.
  intros H G. destruct (le_lt_dec 2 (length (rest s))) as [L|L]; [|assumption].
  rewrite readUshort_enough in H by assumption. discriminate.
Qed.

Lemma readInt_None_short (s s' : istream) :
  readInt s = (None, s') -> good s = true -> (length (rest s) < 4)%nat.
Proof.
  intros H G. destruct (le_lt_dec 4 (length (rest s))) as [L|L]; [|assumption].
  rewrite readInt_enough in H by assumption. discriminate.
Qed.

(** [take_float E]: from [E : readFloat s = (r, s1)], the facts of a read
    that succeeded, or, for one that failed, that the stream was short. *)
Ltac take_float s E G :=
  destruct (readFloat s) as [[?x|] ?s] eqn:E;
  [ apply readFloat_consumed in E as [E ->];
    let F := fresh "F" in
    pose proof (consumed_facts _ _ _ E) as F;
    destruct F as (?G & ?R & ?L)
  | apply readFloat_None_short in E; [|exact G] ].

Ltac take_ushort s E G :=
  destruct (readUshort s) as [[?v|] ?s] eqn:E;
  [ apply readUshort_consumed in E as [E ->];
    let F := fresh "F" in
    pose proof (consumed_facts _ _ _ E) as F;
    destruct F as (?G & ?R & ?L)
  | apply readUshort_None_short in E; [|exact G] ].

Lemma withPoints_nil (t : M3DTriangleMesh) : withPoints [] t = t.
Proof. destruct t; unfold withPoints; simpl. now rewrite app_nil_r. Qed.

Lemma withPoints_cons (v : float32 * float32 * float32)
      (vs : list (float32 * float32 * float32)) (t : M3DTriangleMesh) :
  withPoints vs (addVertex v t) = withPoints (v :: vs) t.
Proof. unfold withPoints, addVertex; simpl. now rewrite <- app_assoc. Qed.

Lemma withTexCoords_nil (t : M3DTriangleMesh) : withTexCoords [] t = t.
Proof. destruct t; unfold withTexCoords; simpl. now rewrite app_nil_r. Qed.

Lemma withTexCoords_cons (uv : float32 * float32)
      (uvs : list (float32 * float32)) (t : M3DTriangleMesh) :
  withTexCoords uvs (addTexCoord uv t) = withTexCoords (uv :: uvs) t.
Proof. unfold withTexCoords, addTexCoord; simpl. now rewrite <- app_assoc. Qed.

Lemma withFaces_nil (t : M3DTriangleMesh) : withFaces [] t = t.
Proof. destruct t; unfold withFaces; simpl. now rewrite app_nil_r. Qed.

Lemma withFaces_cons (v0 v1 v2 : Z) (fs : list (Z * Z * Z)) (t : M3DTriangleMesh) :
  withFaces fs (addFace v0 v1 v2 t) = withFaces ((v0, v1, v2) :: fs) t.
Proof. unfold withFaces, addFace; simpl. now rewrite <- app_assoc. Qed.

(** The vertex loop: with the [n] triples in the stream it consumes them
    and appends them in order; otherwise it returns [READ_FAILURE]. *)
Lemma readPointArray_loop_spec (n : nat) :
  forall (s : istream) (b : Z) (m : M3DTriangleMesh),
    good s = true -> 0 <= b -> b + 12 * Z.of_nat n <= INT32_MAX ->
    exists r s' m',
      readPointArray_loop n s b m = (r, s', m') /\
      ((12 * Z.of_nat n <= Z.of_nat (length (rest s)) /\
        r = b + 12 * Z.of_nat n /\ consumed s s' (12 * Z.of_nat n) /\
        m' = withPoints (decode_triples n (rest s)) m) \/
       (Z.of_nat (length (rest s)) < 12 * Z.of_nat n /\ r = READ_FAILURE)).
Proof.
  induction n as [|n IH]; intros s b m G Hb Hm; cbn [readPointArray_loop].
  - eexists _, _, _. split; [reflexivity|]. left.
    split; [lia|]. split; [lia|]. split; [now apply consumed_zero|].
    cbn [decode_triples]. now rewrite withPoints_nil.
  - take_float s E1 G; [|eexists _, _, _; split; [reflexivity|right; split; [lia|reflexivity]]].
    take_float s0 E2 G0; [|eexists _, _, _; split; [reflexivity|right; split; [lia|reflexivity]]].
    take_float s1 E3 G1; [|eexists _, _, _; split; [reflexivity|right; split; [lia|reflexivity]]].
    rewrite add32_small by (unfold INT32_MIN, INT32_MAX in *; lia).
    destruct (IH s2 (b + 12) (addVertex (f32_at (rest s), f32_at (rest s0), f32_at (rest s1)) m)
                 G2 ltac:(lia) ltac:(lia)) as (r & s' & m' & -> & Hcase).
    eexists _, _, _. split; [reflexivity|].
    pose proof (consumed_trans _ _ _ _ _ (consumed_trans _ _ _ _ _ E1 E2) E3) as C12.
    cbn [Z.add Pos.add Pos.succ] in C12.
    assert (R12 : rest s2 = skipn 12 (rest s)).
    { rewrite R1, R0, R. rewrite !skipn_skipn. reflexivity. }
    destruct Hcase as [(Le & -> & C & ->)|(Le & ->)]; [left|right; split; [lia|reflexivity]].
    split; [lia|]. split; [lia|]. split.
    + replace (12 * Z.of_nat (S n)) with (12 + 12 * Z.of_nat n) by lia.
      eapply consumed_trans; eauto.
    + rewrite withPoints_cons. cbn [decode_triples].
      rewrite R12, R0, R. rewrite skipn_skipn. reflexivity.
Qed.

Lemma readTextureCoordArray_loop_spec (n : nat) :
  forall (s : istream) (b : Z) (m : M3DTriangleMesh),
    good s = true -> 0 <= b -> b + 8 * Z.of_nat n <= INT32_MAX ->
    exists r s' m',
      readTextureCoordArray_loop n s b m = (r, s', m') /\
      ((8 * Z.of_nat n <= Z.of_nat (length (rest s)) /\
        r = b + 8 * Z.of_nat n /\ consumed s s' (8 * Z.of_nat n) /\
        m' = withTexCoords (map flip_v (decode_pairs n (rest s))) m) \/
       (Z.of_nat (length (rest s)) < 8 * Z.of_nat n /\ r = READ_FAILURE)).
Proof.
  induction n as [|n IH]; intros s b m G Hb Hm; cbn [readTextureCoordArray_loop].
  - eexists _, _, _. split; [reflexivity|]. left.
    split; [lia|]. split; [lia|]. split; [now apply consumed_zero|].
    cbn [decode_pairs map]. now rewrite withTexCoords_nil.
  - take_float s E1 G; [|eexists _, _, _; split; [reflexivity|right; split; [lia|reflexivity]]].
    take_float s0 E2 G0; [|eexists _, _, _; split; [reflexivity|right; split; [lia|reflexivity]]].
    rewrite add32_small by (unfold INT32_MIN, INT32_MAX in *; lia).
    destruct (IH s1 (b + 8) (addTexCoord (f32_at (rest s), f32_neg (f32_at (rest s0))) m)
                 G1 ltac:(lia) ltac:(lia)) as (r & s' & m' & -> & Hcase).
    eexists _, _, _. split; [reflexivity|].
    pose proof (consumed_trans _ _ _ _ _ E1 E2) as C8.
    cbn [Z.add Pos.add Pos.succ] in C8.
    assert (R8 : rest s1 = skipn 8 (rest s)).
    { rewrite R0, R. rewrite !skipn_skipn. reflexivity. }
    destruct Hcase as [(Le & -> & C & ->)|(Le & ->)]; [left|right; split; [lia|reflexivity]].
    split; [lia|]. split; [lia|]. split.
    + replace (8 * Z.of_nat (S n)) with (8 + 8 * Z.of_nat n) by lia.
      eapply consumed_trans; eauto.
    + rewrite withTexCoords_cons. cbn [decode_pairs map].
      rewrite R8, R. reflexivity.
Qed.

Lemma readFaces_spec (n : nat) :
  forall (s : istream) (b : Z) (m : M3DTriangleMesh),
    good s = true -> 0 <= b -> b + 8 * Z.of_nat n <= INT32_MAX ->
    exists r s' m',
      readFaces n s b m = (r, s', m') /\
      ((8 * Z.of_nat n <= Z.of_nat (length (rest s)) /\
        r = Some (b + 8 * Z.of_nat n) /\ consumed s s' (8 * Z.of_nat n) /\
        m' = withFaces (decode_faces n (rest s)) m) \/
       (Z.of_nat (length (rest s)) < 8 * Z.of_nat n /\ r = None)).
Proof.
  induction n as [|n IH]; intros s b m G Hb Hm; cbn [readFaces].
  - eexists _, _, _. split; [reflexivity|]. left.
    split; [lia|]. split; [f_equal; lia|]. split; [now apply consumed_zero|].
    cbn [decode_faces]. now rewrite withFaces_nil.
  - take_ushort s E1 G; [|eexists _, _, _; split; [reflexivity|right; split; [lia|reflexivity]]].
    take_ushort s0 E2 G0; [|eexists _, _, _; split; [reflexivity|right; split; [lia|reflexivity]]].
    take_ushort s1 E3 G1; [|eexists _, _, _; split; [reflexivity|right; split; [lia|reflexivity]]].
    take_ushort s2 E4 G2; [|eexists _, _, _; split; [reflexivity|right; split; [lia|reflexivity]]].
    rewrite add32_small by (unfold INT32_MIN, INT32_MAX in *; lia).
    destruct (IH s3 (b + 8) (addFace (u16_at (rest s)) (u16_at (rest s0)) (u16_at (rest s1)) m)
                 G3 ltac:(lia) ltac:(lia)) as (r & s' & m' & -> & Hcase).
    eexists _, _, _. split; [reflexivity|].
    pose proof (consumed_trans _ _ _ _ _
                  (consumed_trans _ _ _ _ _ (consumed_trans _ _ _ _ _ E1 E2) E3) E4) as C8.
    cbn [Z.add Pos.add Pos.succ] in C8.
    assert (R8 : rest s3 = skipn 8 (rest s)).
    { rewrite R2, R1, R0, R. rewrite !skipn_skipn. reflexivity. }
    destruct Hcase as [(Le & -> & C & ->)|(Le & ->)]; [left|right; split; [lia|reflexivity]].
    split; [lia|]. split; [f_equal; lia|]. split.
    + replace (8 * Z.of_nat (S n)) with (8 + 8 * Z.of_nat n) by lia.
      eapply consumed_trans; eauto.
    + rewrite withFaces_cons. cbn [decode_faces].
      rewrite R8, R0, R. rewrite skipn_skipn. reflexivity.
Qed.

Lemma readFaceIndices_spec (n : nat) :
  forall (s : istream) (b : Z) (g : M3DMeshMaterialGroup),
    good s = true -> 0 <= b -> b + 2 * Z.of_nat n <= INT32_MAX ->
    exists r s' g',
      readFaceIndices n s b g = (r, s', g') /\
      ((2 * Z.of_nat n <= Z.of_nat (length (rest s)) /\
        r = Some (b + 2 * Z.of_nat n) /\ consumed s s' (2 * Z.of_nat n) /\
        g' = mkMatGroup (materialName g) (group_faces g ++ decode_u16s n (rest s))) \/
       (Z.of_nat (length (rest s)) < 2 * Z.of_nat n /\ r = None)).
Proof.
  induction n as [|n IH]; intros s b g G Hb Hm; cbn [readFaceIndices].
  - eexists _, _, _. split; [reflexivity|]. left.
    split; [lia|]. split; [f_equal; lia|]. split; [now apply consumed_zero|].
    cbn [decode_u16s]. rewrite app_nil_r. now destruct g.
  - take_ushort s E1 G; [|eexists _, _, _; split; [reflexivity|right; split; [lia|reflexivity]]].
    rewrite add32_small by (unfold INT32_MIN, INT32_MAX in *; lia).
    destruct (IH s0 (b + 2)
                 (mkMatGroup (materialName g) (group_faces g ++ [u16_at (rest s)]))
                 G0 ltac:(lia) ltac:(lia)) as (r & s' & g' & -> & Hcase).
    eexists _, _, _. split; [reflexivity|].
    destruct Hcase as [(Le & -> & C & ->)|(Le & ->)]; [left|right; split; [lia|reflexivity]].
    split; [lia|]. split; [f_equal; lia|]. split.
    + replace (2 * Z.of_nat (S n)) with (2 + 2 * Z.of_nat n) by lia.
      eapply consumed_trans; eauto.
    + cbn [decode_u16s materialName group_faces]. rewrite R, <- app_assoc. reflexivity.
Qed.

Lemma readFloats_spec (n : nat) :
  forall (s : istream),
    good s = true ->
    exists r s',
      readFloats n s = (r, s') /\
      ((4 * Z.of_nat n <= Z.of_nat (length (rest s)) /\
        consumed s s' (4 * Z.of_nat n) /\ exists xs, r = Some xs) \/
       (Z.of_nat (length (rest s)) < 4 * Z.of_nat n /\ r = None)).
Proof.
  induction n as [|n IH]; intros s G; cbn [readFloats].
  - eexists _, _. split; [reflexivity|]. left.
    split; [lia|]. split; [now apply consumed_zero|eauto].
  - take_float s E1 G; [|eexists _, _; split; [reflexivity|right; split; [lia|reflexivity]]].
    destruct (IH s0 G0) as (r & s' & -> & Hcase).
    destruct Hcase as [(Le & C & xs & ->)|(Le & ->)].
    + eexists _, _. split; [reflexivity|]. left. split; [lia|]. split; [|eauto].
      replace (4 * Z.of_nat (S n)) with (4 + 4 * Z.of_nat n) by lia.
      eapply consumed_trans; eauto.
    + eexists _, _. split; [reflexivity|]. right. split; [lia|reflexivity].
Qed.

Lemma readString_loop_consumed (n : nat) :
  forall (count : Z) (acc : list byte) (s s' : istream) (r : Z) (bs : list byte),
    readString_loop n count acc s = (r, bs, s') ->
    good s = true -> 0 <= count -> count + Z.of_nat n <= INT32_MAX ->
    r = READ_FAILURE \/
    (count + 1 <= r <= count + Z.of_nat n /\ consumed s s' (r - count)).
Proof.
  induction n as [|n IH]; intros count acc s s' r bs H G Hc Hm;
    cbn [readString_loop] in H.
  - inversion H; auto.
  - destruct (stream_read 1 s) as [bytes s1] eqn:E.
    destruct (good s1) eqn:G1; [|inversion H; auto].
    destruct (stream_read_good _ _ _ _ E G1) as (_ & L & -> & ->).
    pose proof (advance_consumed 1 s G L) as C1.
    destruct (firstn 1 (rest s)) as [|b [|? ?]]; try (inversion H; auto; fail).
    destruct (byte_val b =? 0).
    + inversion H; subst. right.
      rewrite add32_small by (unfold INT32_MIN, INT32_MAX in *; lia).
      split; [lia|]. replace (count + 1 - count) with 1 by lia. exact C1.
    + apply IH in H; [|exact G1|lia|lia].
      destruct H as [F|[Rg C]]; [auto|right]. split; [lia|].
      replace (r - count) with (1 + (r - (count + 1))) by lia.
      eapply consumed_trans; eauto.
Qed.

(** [readString] returns [READ_FAILURE] or the number of bytes it consumed,
    between 1 and 1024. *)
Lemma readString_consumed (s s' : istream) (n : Z) (name : string) :
  readString s = (n, name, s') -> good s = true ->
  n = READ_FAILURE \/ (1 <= n <= 1024 /\ consumed s s' n).
Proof.
  unfold readString. intros H G.
  destruct (readString_loop maxLength 0 [] s) as [[r bs] s1] eqn:E.
  inversion H; subst.
  apply readString_loop_consumed in E; [|exact G|lia|unfold maxLength, INT32_MAX; lia].
  unfold maxLength in E. destruct E as [F|[Rg C]]; [auto|right].
  split; [lia|]. now rewrite Z.sub_0_r in C.
Qed.

(** The smoothing loop returns [READ_FAILURE] or the bytes it consumed. *)
Lemma readSmoothingGroups_consumed (n : nat) (s s' : istream) (r : Z)
      (m m' : M3DTriangleMesh) :
  readSmoothingGroups n s 0 m = (r, s', m') ->
  good s = true -> 4 * Z.of_nat n <= INT32_MAX ->
  r = READ_FAILURE \/ (r = 4 * Z.of_nat n /\ consumed s s' r).
Proof.
  intros H G Hm.
  destruct (readSmoothingGroups_spec n s 0 m G ltac:(lia) ltac:(lia)) as [Ok Ko].
  destruct (smoothing_values_dec (Z.of_nat n) (decode_int32s n (rest s)) (rest s))
    as [C|C].
  - specialize (Ok ltac:(split; [lia|tauto])).
    assert (Hr : r = 0 + 4 * Z.of_nat n) by congruence.
    assert (Hs : s' = advance (4 * n) s) by congruence.
    right. split; [lia|]. rewrite Hr, Hs.
    replace (0 + 4 * Z.of_nat n) with (Z.of_nat (4 * n)) by lia.
    apply advance_consumed; [assumption|lia].
  - destruct (Ko ltac:(intros [? ?]; apply C; split; [lia|assumption]))
      as (s1 & m1 & E).
    rewrite E in H. inversion H; auto.
Qed.

(** ** Byte accounting of the chunk engine *)

Lemma stream_ignore_consumed (n : Z) (s : istream) :
  good s = true -> 0 <= n -> good (stream_ignore n s) = true ->
  consumed s (stream_ignore n s) n.
Proof.
  intros G Hn Gi.
  destruct (Z_le_gt_dec n (Z.of_nat (length (rest s)))) as [L|L].
  - rewrite stream_ignore_enough by (try assumption; lia).
    destruct (good_true s G) as [-> ->]. split; [lia|reflexivity].
  - rewrite stream_ignore_short in Gi by lia. discriminate.
Qed.

Section EngineAccounting.
Context {T : Type}.
Variable chunkFunc : ProcessChunkFunc T.
Hypothesis handler_honest : honest chunkFunc.

(** With an honest handler, a dispatch that succeeds has moved the cursor
    by exactly the size it returns, which is at least 6. *)
Lemma read3DSChunk_consumes (s s' : istream) (obj obj' : T) (r : Z) :
  good s = true ->
  Z.of_nat (length (rest s)) <= INT32_MAX ->
  read3DSChunk chunkFunc s obj = Some (r, s', obj') ->
  0 <= r ->
  6 <= r /\ consumed s s' r.
Proof.
  intros G Hlen H Hr. unfold read3DSChunk in H.
  destruct (readUshort s) as [[chunkType|] s1] eqn:Ety;
    [|inversion H; subst; unfold READ_FAILURE in Hr; lia].
  destruct (readInt s1) as [[chunkSize|] s2] eqn:Esz;
    [|inversion H; subst; unfold READ_FAILURE in Hr; lia].
  pose proof (readInt_range _ _ _ Esz) as Rg.
  apply readUshort_consumed in Ety as [C2 _].
  apply readInt_consumed in Esz as C4.
  pose proof (consumed_trans _ _ _ _ _ C2 C4) as C6. cbn [Z.add Pos.add] in C6.
  destruct (consumed_facts _ _ _ C6) as (G2 & _ & L2).
  destruct (chunkSize <? 6) eqn:L;
    [inversion H; subst; unfold READ_FAILURE in Hr; lia|].
  apply Z.ltb_ge in L.
  rewrite sub32_small in H by (unfold INT32_MIN, INT32_MAX in *; lia).
  destruct (chunkFunc s2 chunkType (chunkSize - 6) obj) as [[[p s3] o3]|] eqn:Ef;
    [|discriminate].
  destruct (handler_honest _ _ _ _ _ _ _ G2 ltac:(lia) Ef) as [Hu Hc].
  unfold reconcile in H.
  destruct (p =? READ_FAILURE);
    [inversion H; subst; unfold READ_FAILURE in Hr; lia|].
  destruct (p =? UNKNOWN_CHUNK) eqn:E2.
  - apply Z.eqb_eq in E2. destruct (Hu E2) as [-> ->].
    destruct (good (stream_ignore (chunkSize - 6) s2)) eqn:Gi;
      inversion H; subst; [|unfold READ_FAILURE in Hr; lia].
    split; [assumption|].
    apply (consumed_sum s s2 _ 6 (r - 6)); [exact C6| |lia].
    apply stream_ignore_consumed; [assumption|lia|assumption].
  - destruct (p =? chunkSize - 6) eqn:E3; cbn [negb] in H;
      inversion H; subst; [|unfold READ_FAILURE in Hr; lia].
    apply Z.eqb_eq in E3. split; [assumption|].
    apply (consumed_sum s s2 _ 6 (r - 6)); [exact C6| |lia].
    apply Hc; [assumption|lia].
Qed.

Lemma read3DSChunks_loop_exact (nBytes : Z) :
  forall (fuel : nat) (s s' : istream) (b r : Z) (obj obj' : T),
    good s = true ->
    0 <= b -> b + Z.of_nat (length (rest s)) <= INT32_MAX ->
    read3DSChunks_loop chunkFunc fuel s nBytes b obj = Some (r, s', obj') ->
    0 <= r ->
    r = nBytes /\ b <= nBytes /\ consumed s s' (nBytes - b).
Proof.
  induction fuel as [|fuel IH]; intros s s' b r obj obj' G Hb Hlen H Hr;
    cbn [read3DSChunks_loop] in H.
  - destruct (b <? nBytes) eqn:L; [discriminate|]. apply Z.ltb_ge in L.
    destruct (b =? nBytes) eqn:E; cbn [negb] in H; inversion H; subst;
      [|unfold READ_FAILURE in Hr; lia].
    apply Z.eqb_eq in E. subst. split; [reflexivity|]. split; [lia|].
    rewrite Z.sub_diag. now apply consumed_zero.
  - destruct (b <? nBytes) eqn:L.
    + apply Z.ltb_lt in L.
      destruct (read3DSChunk chunkFunc s obj) as [[[size s1] obj1]|] eqn:Ed;
        [|discriminate].
      destruct (size <? 0) eqn:Ls;
        [inversion H; subst; unfold READ_FAILURE in Hr; lia|].
      apply Z.ltb_ge in Ls.
      destruct (read3DSChunk_consumes _ _ _ _ _ G ltac:(lia) Ed Ls) as [S6 C].
      destruct (consumed_facts _ _ _ C) as (G1 & _ & L1).
      pose proof (proj1 C) as Rg.
      rewrite add32_small in H by (unfold INT32_MIN, INT32_MAX in *; lia).
      destruct (IH s1 s' (b + size) r obj1 obj' G1 ltac:(lia) ltac:(lia) H Hr)
        as (-> & Hle & C').
      split; [reflexivity|]. split; [lia|].
      replace (nBytes - b) with (size + (nBytes - (b + size))) by lia.
      eapply consumed_trans; eauto.
    + apply Z.ltb_ge in L.
      destruct (b =? nBytes) eqn:E; cbn [negb] in H; inversion H; subst;
        [|unfold READ_FAILURE in Hr; lia].
      apply Z.eqb_eq in E. subst. split; [reflexivity|]. split; [lia|].
      rewrite Z.sub_diag. now apply consumed_zero.
Qed.

(** With an honest handler, a loop that succeeds has consumed exactly its
    budget. *)
Lemma read3DSChunks_consumes (fuel : nat) (s s' : istream) (nBytes r : Z)
        (obj obj' : T) :
  good s = true ->
  Z.of_nat (length (rest s)) <= INT32_MAX ->
  read3DSChunks chunkFunc fuel s nBytes obj = Some (r, s', obj') ->
  0 <= r ->
  r = nBytes /\ consumed s s' nBytes.
Proof.
  intros G Hlen H Hr. unfold read3DSChunks in H.
  destruct (read3DSChunks_loop_exact nBytes fuel s s' 0 r obj obj' G ltac:(lia)
              ltac:(lia) H Hr) as (-> & _ & C).
  split; [reflexivity|]. now rewrite Z.sub_0_r in C.
Qed.
End EngineAccounting.

(** ** The field groups, read exactly *)

Lemma u16_at_range (bs : list byte) : 0 <= u16_at bs < 2 ^ 16.
Proof. apply wrap_u16_range. Qed.

Lemma failed (s s' : istream) : exact_or_failed s s' READ_FAILURE.
Proof. left. reflexivity. Qed.

Lemma readPointArray_exact (s s' : istream) (m m' : M3DTriangleMesh) (r : Z) :
  good s = true -> readPointArray s m = (r, s', m') -> exact_or_failed s s' r.
Proof.
  intros G H. pose proof (u16_at_range (rest s)) as Rn. unfold readPointArray in H.
  take_ushort s E G; [|inversion H; apply failed].
  destruct (readPointArray_loop_spec (Z.to_nat (u16_at (rest s))) s0 2 m G0
              ltac:(lia) ltac:(unfold INT32_MAX; lia))
    as (r1 & s1 & m1 & E1 & Hcase).
  rewrite E1 in H. rewrite Z2Nat.id in Hcase by lia.
  destruct Hcase as [(_ & Hr & C & _)|(_ & Hr)]; [|left; congruence].
  assert (r = 2 + 12 * u16_at (rest s)) by congruence.
  assert (s' = s1) by congruence. subst r s'.
  right. split; [lia|]. apply (consumed_sum s s0 _ 2 (12 * u16_at (rest s))); auto.
Qed.

Lemma readTextureCoordArray_exact (s s' : istream) (m m' : M3DTriangleMesh) (r : Z) :
  good s = true -> readTextureCoordArray s m = (r, s', m') -> exact_or_failed s s' r.
Proof.
  intros G H. pose proof (u16_at_range (rest s)) as Rn.
  unfold readTextureCoordArray in H.
  take_ushort s E G; [|inversion H; apply failed].
  change (add32 0 2) with 2 in H.
  destruct (readTextureCoordArray_loop_spec (Z.to_nat (u16_at (rest s))) s0 2 m G0
              ltac:(lia) ltac:(unfold INT32_MAX; lia))
    as (r1 & s1 & m1 & E1 & Hcase).
  rewrite E1 in H. rewrite Z2Nat.id in Hcase by lia.
  destruct Hcase as [(_ & Hr & C & _)|(_ & Hr)]; [|left; congruence].
  assert (r = 2 + 8 * u16_at (rest s)) by congruence.
  assert (s' = s1) by congruence. subst r s'.
  right. split; [lia|]. apply (consumed_sum s s0 _ 2 (8 * u16_at (rest s))); auto.
Qed.

Lemma readMeshMatrix_exact (s s' : istream) (m m' : Matrix4f) (r : Z) :
  good s = true -> readMeshMatrix s m = (r, s', m') -> exact_or_failed s s' r.
Proof.
  intros G H. unfold readMeshMatrix in H.
  destruct (readFloats_spec 12 s G) as (xs & s1 & E & Hcase). rewrite E in H.
  destruct Hcase as [(_ & C & ys & ->)|(_ & ->)]; inversion H; subst.
  - right. split; [lia|exact C].
  - left. reflexivity.
Qed.

Ltac take_uchar s E G :=
  destruct (readUchar s) as [[?v|] ?s] eqn:E;
  [ apply readUchar_consumed in E as [E ->];
    let F := fresh "F" in
    pose proof (consumed_facts _ _ _ E) as F;
    destruct F as (?G & ?R & ?L)
  | idtac ].

Lemma readColor_exact (s s' : istream) (c c' : M3DColor) (r : Z) :
  good s = true -> readColor s c = (r, s', c') -> exact_or_failed s s' r.
Proof.
  intros G H. unfold readColor in H.
  take_uchar s E1 G; [|inversion H; left; reflexivity].
  take_uchar s0 E2 G0; [|inversion H; left; reflexivity].
  take_uchar s1 E3 G1; [|inversion H; left; reflexivity].
  inversion H; subst. right. split; [lia|].
  apply (consumed_sum s s1 _ 2 1); [|assumption|lia].
  apply (consumed_sum s s0 _ 1 1); [assumption|assumption|lia].
Qed.

Lemma readFloatColor_exact (s s' : istream) (c c' : M3DColor) (r : Z) :
  good s = true -> readFloatColor s c = (r, s', c') -> exact_or_failed s s' r.
Proof.
  intros G H. unfold readFloatColor in H.
  take_float s E1 G; [|inversion H; left; reflexivity].
  take_float s0 E2 G0; [|inversion H; left; reflexivity].
  take_float s1 E3 G1; [|inversion H; left; reflexivity].
  inversion H; subst. right. split; [lia|].
  apply (consumed_sum s s1 _ 8 4); [|assumption|lia].
  apply (consumed_sum s s0 _ 4 4); [assumption|assumption|lia].
Qed.

(** ** Every handler is honest *)

Lemma exact_honest {T : Type} (s s' : istream) (r contentSize : Z) (obj obj' : T) :
  exact_or_failed s s' r ->
  (r = UNKNOWN_CHUNK -> s' = s /\ obj' = obj) /\
  (r = contentSize -> 0 <= contentSize -> consumed s s' contentSize).
Proof.
  unfold exact_or_failed, READ_FAILURE, UNKNOWN_CHUNK.
  intros [->|[Hr C]]; (split; [intros; lia|intros <- ?; try lia; exact C]).
Qed.

Lemma unknown_honest {T : Type} (s : istream) (contentSize : Z) (obj : T) :
  (UNKNOWN_CHUNK = UNKNOWN_CHUNK -> s = s /\ obj = obj) /\
  (UNKNOWN_CHUNK = contentSize -> 0 <= contentSize -> consumed s s contentSize).
Proof. unfold UNKNOWN_CHUNK. split; [auto|intros; lia]. Qed.

(** A nested loop over an honest handler returns [READ_FAILURE] or the
    bytes it consumed. *)
Lemma read3DSChunks_exact_or_failed {T : Type} (f : ProcessChunkFunc T)
      (fuel : nat) (s s' : istream) (nBytes r : Z) (obj obj' : T) :
  honest f -> good s = true -> Z.of_nat (length (rest s)) <= INT32_MAX ->
  read3DSChunks f fuel s nBytes obj = Some (r, s', obj') ->
  exact_or_failed s s' r /\ (r = READ_FAILURE \/ r = nBytes).
Proof.
  intros Hf G Hlen H.
  destruct (read3DSChunks_result f fuel s s' nBytes r obj obj' H) as [->|[-> Hn]].
  - split; [apply failed|auto].
  - split; [|auto]. right. split; [assumption|].
    now destruct (read3DSChunks_consumes f Hf fuel s s' nBytes nBytes obj obj' G Hlen H Hn).
Qed.

(** [answered H]: closes an honesty goal whose handler call [H] has been
    reduced to a result, from the facts in the context. *)
Ltac answered H :=
  injection H; intros; subst; clear H;
  first [ apply unknown_honest
        | apply exact_honest; first [ apply failed | assumption ] ].

Section HandlerAccounting.
Context {tags : ChunkTags} {m3d : Model3DS}.
Variable fuel : nat.

Lemma processColorChunk_honest : honest processColorChunk.
Proof.
  intros s chunkType contentSize color r s' color' G Hlen H.
  unfold processColorChunk in H.
  destruct (chunkType =? M3DCHUNK_COLOR_24).
  { destruct (readColor s color) as [[r0 s0] c0] eqn:E.
    apply readColor_exact in E; [|exact G]. answered H. }
  destruct (chunkType =? M3DCHUNK_COLOR_FLOAT).
  { destruct (readFloatColor s color) as [[r0 s0] c0] eqn:E.
    apply readFloatColor_exact in E; [|exact G]. answered H. }
  answered H.
Qed.

Lemma processPercentageChunk_honest : honest processPercentageChunk.
Proof.
  intros s chunkType contentSize percent r s' percent' G Hlen H.
  unfold processPercentageChunk in H.
  destruct (chunkType =? M3DCHUNK_INT_PERCENTAGE).
  { destruct (readShort s) as [[v|] s0] eqn:E; [|answered H].
    apply readShort_consumed in E.
    assert (exact_or_failed s s0 2) by (right; split; [lia|assumption]).
    answered H. }
  destruct (chunkType =? M3DCHUNK_FLOAT_PERCENTAGE).
  { destruct (readFloat s) as [[v|] s0] eqn:E; [|answered H].
    apply readFloat_consumed in E as [E _].
    assert (exact_or_failed s s0 4) by (right; split; [lia|assumption]).
    answered H. }
  answered H.
Qed.

(** A string read whose failure test has passed. *)
Lemma readString_exact (s s' : istream) (n : Z) (name : string) :
  readString s = (n, name, s') -> good s = true ->
  (n <? 0) = false \/ (n =? READ_FAILURE) = false ->
  1 <= n <= 1024 /\ consumed s s' n /\ exact_or_failed s s' n.
Proof.
  intros E G Hn. apply readString_consumed in E; [|exact G].
  destruct E as [->|[Rg C]].
  - destruct Hn as [Hn|Hn]; vm_compute in Hn; discriminate.
  - split; [assumption|]. split; [assumption|]. right. split; [lia|assumption].
Qed.

Lemma processTexmapChunk_honest : honest processTexmapChunk.
Proof.
  intros s chunkType contentSize material r s' material' G Hlen H.
  unfold processTexmapChunk in H.
  destruct (chunkType =? M3DCHUNK_MATERIAL_MAPNAME); [|answered H].
  destruct (readString s) as [[n name] s1] eqn:E.
  destruct (n <? 0) eqn:Hn; [answered H|].
  destruct (readString_exact s s1 n name E G (or_introl Hn)) as (_ & _ & X).
  answered H.
Qed.

Lemma processFaceArrayChunk_honest : honest processFaceArrayChunk.
Proof.
  intros s chunkType contentSize triMesh r s' triMesh' G Hlen H.
  unfold processFaceArrayChunk in H.
  destruct (chunkType =? M3DCHUNK_MESH_MATERIAL_GROUP).
  { destruct (readString s) as [[n name] s1] eqn:E.
    destruct (n =? READ_FAILURE) eqn:Hn; [answered H|].
    destruct (readString_exact s s1 n name E G (or_intror Hn)) as (Rn & C1 & _).
    destruct (consumed_facts _ _ _ C1) as (G1 & R1 & L1).
    take_ushort s1 E2 G1; [|answered H].
    pose proof (u16_at_range (rest s1)) as Ru.
    rewrite add32_small in H by (unfold INT32_MIN, INT32_MAX; lia).
    destruct (readFaceIndices_spec (Z.to_nat (u16_at (rest s1))) s0 (n + 2)
                (mkMatGroup name (group_faces new_M3DMeshMaterialGroup)) G0
                ltac:(lia) ltac:(unfold INT32_MAX; lia))
      as (r3 & s3 & g3 & E3 & Hcase).
    rewrite E3 in H. rewrite Z2Nat.id in Hcase by lia.
    destruct Hcase as [(Le & -> & C3 & _)|(_ & ->)]; [|answered H].
    assert (exact_or_failed s s3 (n + 2 + 2 * u16_at (rest s1))).
    { right. split; [lia|].
      apply (consumed_sum s s0 _ (n + 2) (2 * u16_at (rest s1))); [|assumption|lia].
      apply (consumed_sum s s1 _ n 2); [assumption|assumption|lia]. }
    answered H. }
  destruct (chunkType =? M3DCHUNK_MESH_SMOOTH_GROUP); [|answered H].
  destruct (readSmoothingGroups (Z.to_nat (wrap_u16 (getFaceCount triMesh))) s 0 triMesh)
    as [[r0 s0] m0] eqn:E.
  pose proof (wrap_u16_range (getFaceCount triMesh)) as Ru.
  apply readSmoothingGroups_consumed in E; [|exact G|unfold INT32_MAX; lia].
  assert (exact_or_failed s s0 r0).
  { destruct E as [->|[-> C]]; [apply failed|right; split; [lia|assumption]]. }
  answered H.
Qed.

(** [readFaceArray] never answers [UNKNOWN_CHUNK], and when it returns the
    content size it was given it has consumed exactly that many bytes. *)
Lemma readFaceArray_honest (s s' : istream) (triMesh triMesh' : M3DTriangleMesh)
      (contentSize r : Z) :
  good s = true -> Z.of_nat (length (rest s)) <= INT32_MAX ->
  readFaceArray fuel s triMesh contentSize = Some (r, s', triMesh') ->
  (r = UNKNOWN_CHUNK -> s' = s /\ triMesh' = triMesh) /\
  (r = contentSize -> 0 <= contentSize -> consumed s s' contentSize).
Proof.
  intros G Hlen H. unfold readFaceArray in H.
  take_ushort s E1 G; [|answered H].
  pose proof (u16_at_range (rest s)) as Ru.
  destruct (readFaces_spec (Z.to_nat (u16_at (rest s))) s0 2 triMesh G0
              ltac:(lia) ltac:(unfold INT32_MAX; lia))
    as (r2 & s2 & m2 & E2 & Hcase).
  rewrite E2 in H. rewrite Z2Nat.id in Hcase by lia.
  destruct Hcase as [(Le & -> & C2 & _)|(_ & ->)]; [|answered H].
  assert (C : consumed s s2 (2 + 8 * u16_at (rest s))).
  { apply (consumed_sum s s0 _ 2 (8 * u16_at (rest s))); auto. }
  destruct (consumed_facts _ _ _ C) as (G2 & R2 & L2).
  destruct (2 + 8 * u16_at (rest s) >? contentSize) eqn:Hgt; [answered H|].
  destruct (2 + 8 * u16_at (rest s) <? contentSize) eqn:Hlt.
  - destruct (read3DSChunks processFaceArrayChunk fuel s2
                (sub32 contentSize (2 + 8 * u16_at (rest s))) m2)
      as [[[t s3] m3]|] eqn:E3; [|discriminate].
    apply read3DSChunks_exact_or_failed in E3;
      [|exact processFaceArrayChunk_honest|exact G2|lia].
    destruct E3 as [[->|[Ht C3]] _].
    + rewrite add32_small in H by (unfold READ_FAILURE, INT32_MIN, INT32_MAX; lia).
      assert (Hr : r = 2 + 8 * u16_at (rest s) + READ_FAILURE) by congruence.
      apply Z.ltb_lt in Hlt. unfold READ_FAILURE, UNKNOWN_CHUNK in *.
      split; intros; lia.
    + pose proof (proj1 C3) as Rt.
      rewrite add32_small in H by (unfold INT32_MIN, INT32_MAX in *; lia).
      assert (exact_or_failed s s3 (2 + 8 * u16_at (rest s) + t)).
      { right. split; [lia|].
        apply (consumed_sum s s2 _ (2 + 8 * u16_at (rest s)) t); auto. }
      answered H.
  - assert (exact_or_failed s s2 (2 + 8 * u16_at (rest s))).
    { right. split; [lia|assumption]. }
    answered H.
Qed.

Lemma processTriMeshChunk_honest : honest (processTriMeshChunk fuel).
Proof.
  intros s chunkType contentSize triMesh r s' triMesh' G Hlen H.
  unfold processTriMeshChunk in H.
  destruct (chunkType =? M3DCHUNK_POINT_ARRAY).
  { destruct (readPointArray s triMesh) as [[r0 s0] m0] eqn:E.
    apply readPointArray_exact in E; [|exact G]. answered H. }
  destruct (chunkType =? M3DCHUNK_MESH_TEXTURE_COORDS).
  { destruct (readTextureCoordArray s triMesh) as [[r0 s0] m0] eqn:E.
    apply readTextureCoordArray_exact in E; [|exact G]. answered H. }
  destruct (chunkType =? M3DCHUNK_FACE_ARRAY).
  { now apply (readFaceArray_honest s s' triMesh triMesh' contentSize r). }
  destruct (chunkType =? M3DCHUNK_MESH_MATRIX); [|answered H].
  destruct (readMeshMatrix s local_matrix) as [[r0 s0] m0] eqn:E.
  apply readMeshMatrix_exact in E; [|exact G].
  destruct (r0 <? 0); answered H.
Qed.

(** [nested E]: the facts of the nested loop [E] over an honest handler. *)
Ltac nested E Hf G Hlen :=
  apply read3DSChunks_exact_or_failed in E; [|exact Hf|exact G|exact Hlen];
  destruct E as [E _].

Lemma processModelChunk_honest : honest (processModelChunk fuel).
Proof.
  intros s chunkType contentSize model r s' model' G Hlen H.
  unfold processModelChunk in H.
  destruct (chunkType =? M3DCHUNK_TRIANGLE_MESH); [|answered H].
  destruct (read3DSChunks (processTriMeshChunk fuel) fuel s contentSize
              new_M3DTriangleMesh) as [[[r0 s0] m0]|] eqn:E; [|discriminate].
  nested E processTriMeshChunk_honest G Hlen.
  destruct (r0 =? READ_FAILURE); answered H.
Qed.

Lemma readColorInto_honest (set : M3DColor -> M3DMaterial -> M3DMaterial)
      (s s' : istream) (contentSize r : Z) (material material' : M3DMaterial) :
  good s = true -> Z.of_nat (length (rest s)) <= INT32_MAX ->
  readColorInto fuel set s contentSize material = Some (r, s', material') ->
  exact_or_failed s s' r.
Proof.
  intros G Hlen H. unfold readColorInto in H.
  destruct (read3DSChunks processColorChunk fuel s contentSize local_color)
    as [[[r0 s0] c0]|] eqn:E; [|discriminate].
  nested E processColorChunk_honest G Hlen.
  destruct (r0 <? 0); inversion H; subst; [apply failed|assumption].
Qed.

Lemma processMaterialChunk_honest : honest (processMaterialChunk fuel).
Proof.
  intros s chunkType contentSize material r s' material' G Hlen H.
  unfold processMaterialChunk in H.
  destruct (chunkType =? M3DCHUNK_MATERIAL_NAME).
  { destruct (readString s) as [[n name] s1] eqn:E.
    destruct (n <? 0) eqn:Hn; [answered H|].
    destruct (readString_exact s s1 n name E G (or_introl Hn)) as (_ & _ & X).
    answered H. }
  destruct (chunkType =? M3DCHUNK_MATERIAL_AMBIENT).
  { apply exact_honest. eapply readColorInto_honest; eauto. }
  destruct (chunkType =? M3DCHUNK_MATERIAL_DIFFUSE).
  { apply exact_honest. eapply readColorInto_honest; eauto. }
  destruct (chunkType =? M3DCHUNK_MATERIAL_SPECULAR).
  { apply exact_honest. eapply readColorInto_honest; eauto. }
  destruct (chunkType =? M3DCHUNK_MATERIAL_SHININESS).
  { destruct (read3DSChunks processPercentageChunk fuel s contentSize local_float)
      as [[[r0 s0] t0]|] eqn:E; [|discriminate].
    nested E processPercentageChunk_honest G Hlen.
    destruct (r0 <? 0); answered H. }
  destruct (chunkType =? M3DCHUNK_MATERIAL_TRANSPARENCY).
  { destruct (read3DSChunks processPercentageChunk fuel s contentSize local_float)
      as [[[r0 s0] t0]|] eqn:E; [|discriminate].
    nested E processPercentageChunk_honest G Hlen.
    destruct (r0 <? 0); answered H. }
  destruct (chunkType =? M3DCHUNK_MATERIAL_TEXMAP); [|answered H].
  apply exact_honest.
  nested H processTexmapChunk_honest G Hlen. exact H.
Qed.

Lemma processSceneChunk_honest : honest (processSceneChunk fuel).
Proof.
  intros s chunkType contentSize scene r s' scene' G Hlen H.
  unfold processSceneChunk in H.
  destruct (chunkType =? M3DCHUNK_NAMED_OBJECT).
  { destruct (readString s) as [[n name] s1] eqn:E.
    destruct (n <? 0) eqn:Hn; [answered H|].
    destruct (readString_exact s s1 n name E G (or_introl Hn)) as (Rn & C1 & _).
    destruct (consumed_facts _ _ _ C1) as (G1 & R1 & L1).
    destruct (read3DSChunks (processModelChunk fuel) fuel s1 (sub32 contentSize n)
                (setModelName name new_M3DModel)) as [[[t s2] m2]|] eqn:E2;
      [|discriminate].
    assert (Hl1 : Z.of_nat (length (rest s1)) <= INT32_MAX) by lia.
    nested E2 processModelChunk_honest G1 Hl1.
    destruct (t <? 0) eqn:Ht; [answered H|].
    destruct E2 as [->|[Rt C2]]; [vm_compute in Ht; discriminate|].
    pose proof (proj1 C2) as Bt.
    rewrite add32_small in H by (unfold INT32_MIN, INT32_MAX in *; lia).
    assert (exact_or_failed s s2 (n + t)).
    { right. split; [lia|]. apply (consumed_sum s s1 _ n t); auto. }
    answered H. }
  destruct (chunkType =? M3DCHUNK_MATERIAL_ENTRY).
  { destruct (read3DSChunks (processMaterialChunk fuel) fuel s contentSize
                new_M3DMaterial) as [[[r0 s0] m0]|] eqn:E; [|discriminate].
    nested E processMaterialChunk_honest G Hlen.
    destruct (r0 <? 0); answered H. }
  destruct (chunkType =? M3DCHUNK_BACKGROUND_COLOR); [|answered H].
  destruct (read3DSChunks processColorChunk fuel s contentSize local_color)
    as [[[r0 s0] c0]|] eqn:E; [|discriminate].
  nested E processColorChunk_honest G Hlen.
  destruct (r0 <? 0); answered H.
Qed.

Lemma processTopLevelChunk_honest : honest (processTopLevelChunk fuel).
Proof.
  intros s chunkType contentSize scene r s' scene' G Hlen H.
  unfold processTopLevelChunk in H.
  destruct (chunkType =? M3DCHUNK_MESHDATA); [|answered H].
  apply exact_honest.
  nested H processSceneChunk_honest G Hlen. exact H.
Qed.

Lemma Read3DSFile_consumes (s s' : istream) (scene : M3DScene) :
  Z.of_nat (length (rest s)) <= INT32_MAX ->
  Read3DSFile fuel s = Some (Some scene, s') ->
  u16_at (rest s) = M3DCHUNK_MAGIC /\
  6 <= i32_at (skipn 2 (rest s)) /\
  consumed s s' (i32_at (skipn 2 (rest s))).
Proof.
  intros Hlen H. unfold Read3DSFile in H.
  assert (G : good s = true).
  { destruct (readUshort s) as [[v|] s0] eqn:E1; [|discriminate].
    now apply readUshort_Some in E1. }
  take_ushort s E1 G; [|discriminate].
  destruct (u16_at (rest s) =? M3DCHUNK_MAGIC) eqn:Hm; [|discriminate].
  cbn [negb] in H. apply Z.eqb_eq in Hm.
  destruct (readInt s0) as [[chunkSize|] s2] eqn:E2; [|discriminate].
  pose proof (readInt_range _ _ _ E2) as Rc.
  pose proof (readInt_Some _ _ _ E2) as (_ & _ & _ & Hv).
  apply readInt_consumed in E2.
  destruct (consumed_facts _ _ _ E2) as (G2 & R2 & L2).
  replace (i32_at (skipn 2 (rest s))) with chunkSize
    by (rewrite Hv, R; reflexivity).
  clear Hv.
  destruct (chunkSize <? 6) eqn:H6; [discriminate|]. apply Z.ltb_ge in H6.
  rewrite sub32_small in H by (unfold INT32_MIN, INT32_MAX in *; lia).
  destruct (read3DSChunks (processTopLevelChunk fuel) fuel s2 (chunkSize - 6)
              new_M3DScene) as [[[r s3] sc]|] eqn:E3; [|discriminate].
  destruct (r <? 0) eqn:Hr; [discriminate|].
  destruct (r =? chunkSize - 6) eqn:Hq; [|discriminate].
  apply Z.eqb_eq in Hq. subst r. inversion H; subst; clear H.
  assert (Hl2 : Z.of_nat (length (rest s2)) <= INT32_MAX) by lia.
  nested E3 processTopLevelChunk_honest G2 Hl2.
  destruct E3 as [F|[_ C3]]; [unfold READ_FAILURE in F; lia|].
  split; [assumption|]. split; [assumption|].
  apply (consumed_sum s s2 _ 6 (chunkSize - 6)); [|assumption|lia].
  apply (consumed_sum s s0 _ 2 4); [assumption|assumption|lia].
Qed.
End HandlerAccounting.

(** * What the reader guarantees *)

(** ** Strings *)

(** X1: a name of fewer than 1024 bytes, none of them zero, followed by a
    zero byte, is read back as it is: [readString] returns the length of the
    name plus one for the terminator and leaves the cursor on the byte after
    the terminator. *)
Theorem readString_roundtrip (s : istream) (name tail : list byte) :
  good s = true ->
  rest s = name ++ x00 :: tail ->
  Forall (fun b => b <> x00) name ->
  (length name < 1024)%nat ->
  readString s =
  (Z.of_nat (length name) + 1, string_of_list_byte name,
   mkStream tail (gpos s + Z.of_nat (length name) + 1) false false).
Proof.
  intros G R F L. unfold readString.
  rewrite (readString_loop_found name maxLength 0 [] s tail); auto;
    unfold maxLength, INT32_MAX; try lia.
Qed.

Lemma readString_roundtrip_witness :
  readString (stream_of [x61; x62; x00; x07]) =
  (3, "ab"%string, mkStream [x07] 3 false false).
Proof.
  apply (readString_roundtrip (stream_of [x61; x62; x00; x07]) [x61; x62] [x07]);
    [reflexivity|reflexivity|repeat constructor; discriminate|simpl; lia].
Defined.

(** X2: when none of the first 1024 bytes of the stream is zero, or the
    stream ends before a zero byte, [readString] returns [READ_FAILURE]. *)
Theorem readString_no_terminator (s : istream) :
  Forall (fun b => b <> x00) (firstn 1024 (rest s)) ->
  exists name s', readString s = (READ_FAILURE, name, s').
Proof.
  intros F. unfold readString.
  destruct (readString_loop_not_found maxLength 0 [] s F) as [s' ->]. eauto.
Qed.

Lemma readString_no_terminator_witness :
  exists name s', readString (stream_of [x61; x62]) = (READ_FAILURE, name, s').
Proof.
  apply (readString_no_terminator (stream_of [x61; x62])).
  simpl. repeat constructor; discriminate.
Defined.

(** ** Arrays of a mesh *)

(** X3: [readPointArray] succeeds exactly when the stream holds the vertex
    count and that many triples of floats; it then returns 2 + 12 * count,
    has consumed as many bytes, and has appended the vertices to the mesh in
    wire order, leaving the rest of the mesh alone.  Otherwise it returns
    [READ_FAILURE]. *)
Theorem readPointArray_spec (s : istream) (m : M3DTriangleMesh) :
  good s = true ->
  exists r s' m',
    readPointArray s m = (r, s', m') /\
    ((2 + 12 * u16_at (rest s) <= Z.of_nat (length (rest s)) /\
      r = 2 + 12 * u16_at (rest s) /\ consumed s s' r /\
      m' = withPoints (decode_triples (Z.to_nat (u16_at (rest s))) (skipn 2 (rest s))) m) \/
     (Z.of_nat (length (rest s)) < 2 + 12 * u16_at (rest s) /\ r = READ_FAILURE)).
Proof.
  intros G. pose proof (u16_at_range (rest s)) as Rn. unfold readPointArray.
  take_ushort s E G.
  2:{ eexists _, _, _. split; [reflexivity|]. right. split; [lia|reflexivity]. }
  destruct (readPointArray_loop_spec (Z.to_nat (u16_at (rest s))) s0 2 m G0
              ltac:(lia) ltac:(unfold INT32_MAX; lia))
    as (r & s' & m' & -> & Hcase).
  eexists _, _, _. split; [reflexivity|].
  rewrite Z2Nat.id in Hcase by lia.
  destruct Hcase as [(Le & -> & C & ->)|(Le & ->)]; [left|right; split; [lia|reflexivity]].
  split; [lia|]. split; [reflexivity|]. split.
  - apply (consumed_sum s s0 _ 2 (12 * u16_at (rest s))); auto.
  - rewrite R. reflexivity.
Qed.

Lemma readPointArray_spec_witness :
  readPointArray (stream_of point_array_wire) (new_M3DTriangleMesh (H := plain_model)) =
  (14, mkStream [] 14 false false,
   withPoints [(f32_1, f32_2, f32_3)] (new_M3DTriangleMesh (H := plain_model))).
Proof.
  destruct (readPointArray_spec (stream_of point_array_wire)
              (new_M3DTriangleMesh (H := plain_model)) eq_refl)
    as (r & s' & m' & E & [(_ & Hr & C & Hm)|(L & _)]).
  - subst r m'. rewrite E. destruct C as [_ ->]. vm_compute. reflexivity.
  - vm_compute in L. discriminate L.
Defined.

(** X4: [readTextureCoordArray] succeeds exactly when the stream holds the
    count and that many pairs of floats; it returns 2 + 8 * count, has
    consumed as many bytes, and has appended each pair with its second
    coordinate negated.  Otherwise it returns [READ_FAILURE]. *)
Theorem readTextureCoordArray_spec (s : istream) (m : M3DTriangleMesh) :
  good s = true ->
  exists r s' m',
    readTextureCoordArray s m = (r, s', m') /\
    ((2 + 8 * u16_at (rest s) <= Z.of_nat (length (rest s)) /\
      r = 2 + 8 * u16_at (rest s) /\ consumed s s' r /\
      m' = withTexCoords
             (map flip_v (decode_pairs (Z.to_nat (u16_at (rest s))) (skipn 2 (rest s)))) m) \/
     (Z.of_nat (length (rest s)) < 2 + 8 * u16_at (rest s) /\ r = READ_FAILURE)).
Proof.
  intros G. pose proof (u16_at_range (rest s)) as Rn. unfold readTextureCoordArray.
  take_ushort s E G.
  2:{ eexists _, _, _. split; [reflexivity|]. right. split; [lia|reflexivity]. }
  change (add32 0 2) with 2.
  destruct (readTextureCoordArray_loop_spec (Z.to_nat (u16_at (rest s))) s0 2 m G0
              ltac:(lia) ltac:(unfold INT32_MAX; lia))
    as (r & s' & m' & -> & Hcase).
  eexists _, _, _. split; [reflexivity|].
  rewrite Z2Nat.id in Hcase by lia.
  destruct Hcase as [(Le & -> & C & ->)|(Le & ->)]; [left|right; split; [lia|reflexivity]].
  split; [lia|]. split; [reflexivity|]. split.
  - apply (consumed_sum s s0 _ 2 (8 * u16_at (rest s))); auto.
  - rewrite R. reflexivity.
Qed.

Lemma readTextureCoordArray_spec_witness :
  readTextureCoordArray (stream_of tex_coord_array_wire)
                        (new_M3DTriangleMesh (H := plain_model)) =
  (10, mkStream [] 10 false false,
   withTexCoords [(f32_1, f32_neg f32_2)] (new_M3DTriangleMesh (H := plain_model))).
Proof.
  destruct (readTextureCoordArray_spec (stream_of tex_coord_array_wire)
              (new_M3DTriangleMesh (H := plain_model)) eq_refl)
    as (r & s' & m' & E & [(_ & Hr & C & Hm)|(L & _)]).
  - subst r m'. rewrite E. destruct C as [_ ->]. vm_compute. reflexivity.
  - vm_compute in L. discriminate L.
Defined.

(** ** Colours *)

Lemma byte_channel_in_unit (b : byte) :
  in_unit (f32_div (float32_of_Z (byte_val b)) f32_255) = true.
Proof. destruct b; vm_compute; reflexivity. Qed.

(** A byte read that succeeds takes the first byte of the stream; one that
    fails found the stream not good or at its end. *)
Lemma readUchar_head (s s' : istream) (v : Z) :
  readUchar s = (Some v, s') ->
  good s = true /\
  exists b tl, rest s = b :: tl /\ v = byte_val b /\ rest s' = tl /\ consumed s s' 1.
Proof.
  intros H.
  assert (G : good s = true).
  { unfold readUchar, stream_read in H. destruct (good s); [reflexivity|].
    rewrite good_setstate_fail in H. discriminate. }
  pose proof (readUchar_consumed _ _ _ H) as [C ->].
  pose proof (consumed_facts _ _ _ C) as (_ & R & _).
  pose proof (proj2 (proj1 C)) as L.
  destruct (rest s) as [|b tl] eqn:Rs; [cbn [length Z.of_nat] in L; lia|].
  split; [exact G|]. exists b, tl.
  split; [reflexivity|]. split; [cbn [firstn le_value]; lia|].
  split; [exact R|exact C].
Qed.

Lemma readUchar_None_short (s s' : istream) :
  readUchar s = (None, s') -> good s = false \/ rest s = [].
Proof.
  unfold readUchar, stream_read. destruct (good s) eqn:G; [|auto].
  destruct (rest s) as [|b tl]; [auto|].
  cbn [length Nat.leb]. rewrite good_advance, G. discriminate.
Qed.

(** X5: [readColor] succeeds exactly on a good stream that holds three
    bytes: it returns 3, has consumed them, and has stored, as red, green
    and blue, each byte divided by 255 in single precision, which is a value
    between 0 and 1.  Otherwise it returns [READ_FAILURE] and leaves the
    colour it was given. *)
Theorem readColor_unit_range (s s' : istream) (c c' : M3DColor) (r : Z) :
  readColor s c = (r, s', c') ->
  (r = READ_FAILURE /\ c' = c /\
   (good s = false \/ (length (rest s) < 3)%nat)) \/
  (r = 3 /\ good s = true /\ consumed s s' 3 /\
   exists b1 b2 b3 tail,
     rest s = b1 :: b2 :: b3 :: tail /\
     c' = mkColor (f32_div (float32_of_Z (byte_val b1)) f32_255)
                  (f32_div (float32_of_Z (byte_val b2)) f32_255)
                  (f32_div (float32_of_Z (byte_val b3)) f32_255) /\
     in_unit (red c') = true /\ in_unit (green c') = true /\
     in_unit (blue c') = true).
Proof.
  intros H. unfold readColor in H.
  destruct (readUchar s) as [[v1|] s1] eqn:E1.
  2:{ apply readUchar_None_short in E1. inversion H; subst. left.
      repeat split; try reflexivity.
      destruct E1 as [Gf|R]; [auto|right; rewrite R; simpl; lia]. }
  destruct (readUchar_head _ _ _ E1) as (G & b1 & t1 & R0 & -> & <- & C1).
  pose proof (consumed_good _ _ _ C1) as G1.
  destruct (readUchar s1) as [[v2|] s2] eqn:E2.
  2:{ apply readUchar_None_short in E2. inversion H; subst. left.
      repeat split; try reflexivity.
      destruct E2 as [Gf|R]; [congruence|].
      right. rewrite R0, R. simpl; lia. }
  destruct (readUchar_head _ _ _ E2) as (_ & b2 & t2 & R1 & -> & <- & C2).
  pose proof (consumed_good _ _ _ C2) as G2.
  destruct (readUchar s2) as [[v3|] s3] eqn:E3.
  2:{ apply readUchar_None_short in E3. inversion H; subst. left.
      repeat split; try reflexivity.
      destruct E3 as [Gf|R]; [congruence|].
      right. rewrite R0, R1, R. simpl; lia. }
  destruct (readUchar_head _ _ _ E3) as (_ & b3 & t3 & R2 & -> & <- & C3).
  injection H; intros; subst. right.
  split; [reflexivity|].
  split; [exact G|].
  split.
  { apply (consumed_sum s s2 _ 2 1); [|assumption|lia].
    apply (consumed_sum s s1 _ 1 1); [assumption|assumption|lia]. }
  exists b1, b2, b3. eexists.
  split; [rewrite R0, R1, R2; reflexivity|].
  split; [reflexivity|].
  cbn [red green blue]. repeat split; apply byte_channel_in_unit.
Qed.

Lemma readColor_unit_range_witness :
  readColor (stream_of [xff; x33; x80]) black =
  (3, mkStream [] 3 false false,
   mkColor f32_1 (float32_of_bits 0x3e4ccccd) (float32_of_bits 0x3f008081)).
Proof.
  destruct (readColor (stream_of [xff; x33; x80]) black) as [[r s'] c'] eqn:E.
  destruct (readColor_unit_range _ _ _ _ _ E)
    as [(_ & _ & [G|L])|(-> & _ & C & b1 & b2 & b3 & tl & R & -> & _)].
  - discriminate G.
  - simpl in L. lia.
  - cbn [rest stream_of] in R. injection R as <- <- <- <-.
    destruct C as [_ ->]. vm_compute. reflexivity.
Defined.

(** X6: [readFloatColor] succeeds exactly when the stream holds twelve
    bytes: it returns 12, has consumed them, and has stored the three floats
    as they are on the wire, without scaling or range check.  Otherwise it
    returns [READ_FAILURE] and leaves the colour it was given. *)
Theorem readFloatColor_spec (s : istream) (c : M3DColor) :
  good s = true ->
  exists r s' c',
    readFloatColor s c = (r, s', c') /\
    ((12 <= Z.of_nat (length (rest s)) /\ r = 12 /\ consumed s s' 12 /\
      c' = mkColor (f32_at (rest s)) (f32_at (skipn 4 (rest s)))
                   (f32_at (skipn 8 (rest s)))) \/
     (Z.of_nat (length (rest s)) < 12 /\ r = READ_FAILURE /\ c' = c)).
Proof.
  intros G. unfold readFloatColor.
  take_float s E1 G;
    [|eexists _, _, _; split; [reflexivity|right; split; [lia|auto]]].
  take_float s0 E2 G0;
    [|eexists _, _, _; split; [reflexivity|right; split; [lia|auto]]].
  take_float s1 E3 G1;
    [|eexists _, _, _; split; [reflexivity|right; split; [lia|auto]]].
  eexists _, _, _. split; [reflexivity|]. left.
  change (Z.to_nat 4) with 4%nat in *.
  split; [lia|]. split; [reflexivity|]. split.
  - apply (consumed_sum s s1 _ 8 4); [|assumption|lia].
    apply (consumed_sum s s0 _ 4 4); [assumption|assumption|lia].
  - rewrite R0, R, skipn_skipn. reflexivity.
Qed.

Lemma readFloatColor_spec_witness :
  readFloatColor (stream_of (skipn 2 point_array_wire)) black =
  (12, mkStream [] 12 false false, mkColor f32_1 f32_2 f32_3).
Proof.
  destruct (readFloatColor_spec (stream_of (skipn 2 point_array_wire)) black eq_refl)
    as (r & s' & c' & E & [(_ & Hr & C & Hc)|(L & _)]).
  - subst r c'. rewrite E. destruct C as [_ ->]. vm_compute. reflexivity.
  - vm_compute in L. discriminate L.
Defined.

(** ** Faces and material groups *)

(** X7: on a stream that holds the face count and that many faces,
    [readFaceArray] appends the faces in wire order, dropping the flags of
    each, and has counted [b] = 2 + 8 * count bytes.  With a content size
    below [b] it returns [READ_FAILURE], the faces already in the mesh; with
    a content size of [b] it returns [b]; and when the trailing chunks of a
    larger content fail it returns [b - 1], a positive count, not
    [READ_FAILURE]. *)
Theorem readFaceArray_spec
        {tags : ChunkTags} (fuel : nat) (s : istream) (m : M3DTriangleMesh)
        (contentSize : Z) :
  good s = true ->
  2 + 8 * u16_at (rest s) <= Z.of_nat (length (rest s)) ->
  Z.of_nat (length (rest s)) <= INT32_MAX ->
  let b := 2 + 8 * u16_at (rest s) in
  let s2 := mkStream (skipn (Z.to_nat b) (rest s)) (gpos s + b) false false in
  let m2 := withFaces (decode_faces (Z.to_nat (u16_at (rest s))) (skipn 2 (rest s))) m in
  (contentSize < b ->
   readFaceArray fuel s m contentSize = Some (READ_FAILURE, s2, m2)) /\
  (contentSize = b ->
   readFaceArray fuel s m contentSize = Some (b, s2, m2)) /\
  (b < contentSize <= INT32_MAX ->
   forall s3 m3,
     read3DSChunks processFaceArrayChunk fuel s2 (contentSize - b) m2 =
     Some (READ_FAILURE, s3, m3) ->
     readFaceArray fuel s m contentSize = Some (b - 1, s3, m3) /\ 0 < b - 1).
Proof.
  intros G Hb Hlen b s2 m2. pose proof (u16_at_range (rest s)) as Ru.
  unfold readFaceArray. take_ushort s E1 G; [|lia].
  change (Z.to_nat 2) with 2%nat in R.
  destruct (readFaces_spec (Z.to_nat (u16_at (rest s))) s0 2 m G0
              ltac:(lia) ltac:(unfold INT32_MAX; lia))
    as (r2 & s2' & m2' & -> & Hcase).
  rewrite Z2Nat.id in Hcase by lia.
  destruct Hcase as [(_ & -> & C2 & ->)|(Short & _)]; [|lia].
  assert (C : consumed s s2' b).
  { apply (consumed_sum s s0 _ 2 (8 * u16_at (rest s))); auto. }
  destruct C as [_ ->]. rewrite R. fold b s2 m2.
  rewrite Z.gtb_ltb. repeat split.
  - intros Lt. apply Z.ltb_lt in Lt. now rewrite Lt.
  - intros ->. now rewrite Z.ltb_irrefl.
  - destruct H as [Lt U].
    assert (L1 : (contentSize <? b) = false) by (apply Z.ltb_ge; lia).
    apply Z.ltb_lt in Lt. rewrite L1, Lt.
    rewrite sub32_small by (unfold INT32_MIN, INT32_MAX in *; lia).
    rewrite H0.
    rewrite add32_small by (unfold READ_FAILURE, INT32_MIN, INT32_MAX in *; lia).
    reflexivity.
  - lia.
Qed.

Lemma readFaceArray_spec_witness :
  readFaceArray (tags := std_tags) 0 (stream_of face_array_wire)
                (new_M3DTriangleMesh (H := plain_model)) 10 =
  Some (10, mkStream [] 10 false false,
        withFaces [(0, 1, 2)] (new_M3DTriangleMesh (H := plain_model))) /\
  readFaceArray (tags := std_tags) 0 (stream_of face_array_wire)
                (new_M3DTriangleMesh (H := plain_model)) 9 =
  Some (READ_FAILURE, mkStream [] 10 false false,
        withFaces [(0, 1, 2)] (new_M3DTriangleMesh (H := plain_model))).
Proof.
  assert (G : good (stream_of face_array_wire) = true) by reflexivity.
  assert (Hb : 2 + 8 * u16_at (rest (stream_of face_array_wire)) <=
               Z.of_nat (length (rest (stream_of face_array_wire))))
    by (vm_compute; discriminate).
  assert (Hlen : Z.of_nat (length (rest (stream_of face_array_wire))) <= INT32_MAX)
    by (vm_compute; discriminate).
  split.
  - destruct (readFaceArray_spec (tags := std_tags) 0 (stream_of face_array_wire)
                (new_M3DTriangleMesh (H := plain_model)) 10 G Hb Hlen)
      as (_ & Eq & _).
    rewrite (Eq eq_refl). vm_compute. reflexivity.
  - destruct (readFaceArray_spec (tags := std_tags) 0 (stream_of face_array_wire)
                (new_M3DTriangleMesh (H := plain_model)) 9 G Hb Hlen)
      as (Lt & _).
    rewrite (Lt eq_refl). vm_compute. reflexivity.
Defined.

(** X8: a material group on the wire, a name of fewer than 1024 bytes with
    its terminator, a count and that many face indices, comes back as a
    group of that name and those indices, in order, appended to the groups
    of the mesh; the handler returns the bytes it consumed, whatever content
    size the chunk declared. *)
Theorem material_group_roundtrip
        {tags : ChunkTags} (s : istream) (name tail : list byte)
        (m : M3DTriangleMesh) (contentSize : Z) :
  good s = true ->
  rest s = name ++ x00 :: tail ->
  Forall (fun b => b <> x00) name ->
  (length name < 1024)%nat ->
  2 + 2 * u16_at tail <= Z.of_nat (length tail) ->
  Z.of_nat (length (rest s)) <= INT32_MAX ->
  let n := Z.of_nat (length name) + 1 + 2 + 2 * u16_at tail in
  exists s',
    processFaceArrayChunk s M3DCHUNK_MESH_MATERIAL_GROUP contentSize m =
    Some (n, s',
          addMeshMaterialGroup
            (mkMatGroup (string_of_list_byte name)
                        (decode_u16s (Z.to_nat (u16_at tail)) (skipn 2 tail))) m) /\
    consumed s s' n.
Proof.
  intros G R F L Hb Hlen n. pose proof (u16_at_range tail) as Ru.
  assert (Hl : Z.of_nat (length (rest s)) =
               Z.of_nat (length name) + 1 + Z.of_nat (length tail))
    by (rewrite R, length_app; cbn [length]; lia).
  unfold processFaceArrayChunk. rewrite Z.eqb_refl.
  assert (RS : readString s =
               (Z.of_nat (length name) + 1, string_of_list_byte name,
                mkStream tail (gpos s + Z.of_nat (length name) + 1) false false)).
  { unfold readString.
    rewrite (readString_loop_found name maxLength 0 [] s tail); auto;
      unfold maxLength, INT32_MAX; try lia. }
  rewrite RS.
  assert (Hn : (Z.of_nat (length name) + 1 =? READ_FAILURE) = false)
    by (apply Z.eqb_neq; unfold READ_FAILURE; lia).
  rewrite Hn.
  set (s1 := mkStream tail (gpos s + Z.of_nat (length name) + 1) false false).
  assert (C1 : consumed s s1 (Z.of_nat (length name) + 1)).
  { split; [rewrite R, length_app; cbn [length]; lia|].
    unfold s1. f_equal; [|lia].
    replace (Z.to_nat (Z.of_nat (length name) + 1)) with (length name + 1)%nat by lia.
    rewrite R, skipn_app, skipn_all2 by lia.
    replace (length name + 1 - length name)%nat with 1%nat by lia. reflexivity. }
  assert (G1 : good s1 = true) by reflexivity.
  take_ushort s1 E2 G1; [|cbn [rest s1] in E2; lia].
  cbn [rest s1] in *. change (Z.to_nat 2) with 2%nat in R0.
  rewrite add32_small by (unfold INT32_MIN, INT32_MAX in *; lia).
  destruct (readFaceIndices_spec (Z.to_nat (u16_at tail)) s0
              (Z.of_nat (length name) + 1 + 2)
              (mkMatGroup (string_of_list_byte name)
                          (group_faces new_M3DMeshMaterialGroup)) G0
              ltac:(lia) ltac:(unfold INT32_MAX in *; lia))
    as (r3 & s3 & g3 & -> & Hcase).
  rewrite Z2Nat.id in Hcase by lia.
  destruct Hcase as [(_ & -> & C3 & ->)|(Short & _)]; [|lia].
  exists s3. rewrite R0. split; [reflexivity|].
  apply (consumed_sum s s0 _ (Z.of_nat (length name) + 1 + 2) (2 * u16_at tail));
    [|assumption|unfold n; lia].
  apply (consumed_sum s s1 _ (Z.of_nat (length name) + 1) 2); auto.
Qed.

Lemma material_group_roundtrip_witness :
  exists s',
    processFaceArrayChunk (tags := std_tags) (stream_of material_group_wire)
      (@M3DCHUNK_MESH_MATERIAL_GROUP std_tags) 100
      (new_M3DTriangleMesh (H := plain_model)) =
    Some (8, s', addMeshMaterialGroup (mkMatGroup "m" [5; 9])
                   (new_M3DTriangleMesh (H := plain_model))) /\
    consumed (stream_of material_group_wire) s' 8.
Proof.
  assert (G : good (stream_of material_group_wire) = true) by reflexivity.
  assert (R : rest (stream_of material_group_wire) =
              [x6d] ++ x00 :: [x02; x00; x05; x00; x09; x00]) by reflexivity.
  assert (F : Forall (fun b => b <> x00) [x6d]) by (repeat constructor; discriminate).
  assert (L : (length [x6d] < 1024)%nat) by (simpl; lia).
  assert (Hb : 2 + 2 * u16_at [x02; x00; x05; x00; x09; x00] <=
               Z.of_nat (length [x02; x00; x05; x00; x09; x00]))
    by (vm_compute; discriminate).
  assert (Hlen : Z.of_nat (length (rest (stream_of material_group_wire))) <= INT32_MAX)
    by (vm_compute; discriminate).
  exact (material_group_roundtrip (tags := std_tags) (stream_of material_group_wire)
           [x6d] [x02; x00; x05; x00; x09; x00]
           (new_M3DTriangleMesh (H := plain_model)) 100 G R F L Hb Hlen).
Defined.

(** ** The chunk engine *)

(** A dispatch that succeeds returns the size its header declares. *)
Lemma read3DSChunk_declared {T : Type} (chunkFunc : ProcessChunkFunc T)
      (s s' : istream) (obj obj' : T) (r : Z) :
  read3DSChunk chunkFunc s obj = Some (r, s', obj') -> 0 <= r ->
  r = i32_at (skipn 2 (rest s)).
Proof.
  unfold read3DSChunk, READ_FAILURE. intros H Hr.
  destruct (readUshort s) as [[chunkType|] s1] eqn:E1; [|inversion H; lia].
  destruct (readInt s1) as [[chunkSize|] s2] eqn:E2; [|inversion H; lia].
  apply readUshort_Some in E1 as (_ & _ & -> & _).
  apply readInt_Some in E2 as (_ & _ & _ & E2). cbn [rest advance] in E2.
  fold (i32_at (skipn 2 (rest s))) in E2. rewrite <- E2. clear E2.
  destruct (chunkSize <? 6); [inversion H; lia|].
  destruct (chunkFunc s2 chunkType (sub32 chunkSize 6) obj) as [[[p s3] o3]|];
    [|discriminate].
  unfold reconcile, READ_FAILURE in H.
  destruct (p =? -1); [inversion H; lia|].
  destruct (p =? UNKNOWN_CHUNK).
  { destruct (good (stream_ignore (sub32 chunkSize 6) s3)); inversion H; lia. }
  destruct (negb (p =? sub32 chunkSize 6)); inversion H; lia.
Qed.

Section EngineGuarantees.
Context {T : Type}.
Variable chunkFunc : ProcessChunkFunc T.
Hypothesis handler_honest : honest chunkFunc.

(** X9: with an honest handler, a dispatch that succeeds returns the size
    its header declares, which is at least 6, and has moved the cursor by
    exactly that size: known or unknown, a chunk is consumed whole and
    nothing after it is touched. *)
Theorem read3DSChunk_exact (s s' : istream) (obj obj' : T) (r : Z) :
  good s = true ->
  Z.of_nat (length (rest s)) <= INT32_MAX ->
  read3DSChunk chunkFunc s obj = Some (r, s', obj') ->
  0 <= r ->
  6 <= r /\ r = i32_at (skipn 2 (rest s)) /\ consumed s s' r.
Proof.
  intros G Hlen H Hr.
  destruct (read3DSChunk_consumes chunkFunc handler_honest s s' obj obj' r G Hlen H Hr)
    as [H6 C].
  split; [assumption|]. split; [|assumption].
  exact (read3DSChunk_declared chunkFunc s s' obj obj' r H Hr).
Qed.

(** X10: with an honest handler, a chunk loop that succeeds returns its
    budget and has moved the cursor by exactly the budget: the sibling
    chunks it read fill the budget with no byte left over or borrowed. *)
Theorem read3DSChunks_exact (fuel : nat) (s s' : istream) (nBytes r : Z)
        (obj obj' : T) :
  good s = true ->
  Z.of_nat (length (rest s)) <= INT32_MAX ->
  read3DSChunks chunkFunc fuel s nBytes obj = Some (r, s', obj') ->
  0 <= r ->
  r = nBytes /\ consumed s s' nBytes.
Proof.
  intros G Hlen H Hr. unfold read3DSChunks in H.
  destruct (read3DSChunks_loop_exact chunkFunc handler_honest nBytes fuel s s' 0 r
              obj obj' G ltac:(lia) ltac:(lia) H Hr) as (-> & _ & C).
  split; [reflexivity|]. now rewrite Z.sub_0_r in C.
Qed.
End EngineGuarantees.

Lemma read3DSChunk_exact_witness :
  6 <= 8 /\ 8 = i32_at (skipn 2 (rest (stream_of percent25_chunk))) /\
  consumed (stream_of percent25_chunk) (mkStream [] 8 false false) 8.
Proof.
  assert (G : good (stream_of percent25_chunk) = true) by reflexivity.
  assert (Hlen : Z.of_nat (length (rest (stream_of percent25_chunk))) <= INT32_MAX)
    by (vm_compute; discriminate).
  assert (H : read3DSChunk (processPercentageChunk (tags := std_tags))
                (stream_of percent25_chunk) f32_0 =
              Some (8, mkStream [] 8 false false, float32_of_Z 25))
    by (vm_compute; reflexivity).
  assert (Hr : 0 <= 8) by lia.
  exact (read3DSChunk_exact (processPercentageChunk (tags := std_tags))
           (processPercentageChunk_honest (tags := std_tags))
           _ _ _ _ _ G Hlen H Hr).
Defined.

Lemma read3DSChunks_exact_witness :
  17 = 17 /\ consumed (stream_of two_siblings) (mkStream [xff] 17 false false) 17.
Proof.
  assert (G : good (stream_of two_siblings) = true) by reflexivity.
  assert (Hlen : Z.of_nat (length (rest (stream_of two_siblings))) <= INT32_MAX)
    by (vm_compute; discriminate).
  assert (H : read3DSChunks (processPercentageChunk (tags := std_tags)) 2
                (stream_of two_siblings) 17 f32_0 =
              Some (17, mkStream [xff] 17 false false, float32_of_Z 25))
    by (vm_compute; reflexivity).
  assert (Hr : 0 <= 17) by lia.
  exact (read3DSChunks_exact (processPercentageChunk (tags := std_tags))
           (processPercentageChunk_honest (tags := std_tags))
           _ _ _ _ _ _ _ G Hlen H Hr).
Defined.

(** X11: whatever the handler, a chunk loop never returns a partial count:
    its result is [READ_FAILURE] or the budget itself, which is then not
    negative; and with a negative budget it fails at once, the stream and
    the object untouched. *)
Theorem read3DSChunks_all_or_nothing
        {T : Type} (chunkFunc : ProcessChunkFunc T) (fuel : nat)
        (s : istream) (nBytes : Z) (obj : T) :
  (nBytes < 0 ->
   read3DSChunks chunkFunc fuel s nBytes obj = Some (READ_FAILURE, s, obj)) /\
  (forall r s' obj',
      read3DSChunks chunkFunc fuel s nBytes obj = Some (r, s', obj') ->
      r = READ_FAILURE \/ (r = nBytes /\ 0 <= nBytes)).
Proof.
  split.
  - intros N. unfold read3DSChunks. rewrite loop_stop by lia.
    assert (E : (0 =? nBytes) = false) by (apply Z.eqb_neq; lia).
    now rewrite E.
  - intros r s' obj'. apply read3DSChunks_result.
Qed.

(** ** The handlers *)

(** X12: every handler of the reader keeps the contract the engine relies
    on: when it answers [UNKNOWN_CHUNK] it has left the stream and its
    object as they were, and when it returns the content size it was given
    it has consumed exactly that many bytes. *)
Theorem every_handler_honest {tags : ChunkTags} {m3d : Model3DS} (fuel : nat) :
  honest (processTopLevelChunk fuel) /\ honest (processSceneChunk fuel) /\
  honest (processModelChunk fuel) /\ honest (processTriMeshChunk fuel) /\
  honest processFaceArrayChunk /\ honest (processMaterialChunk fuel) /\
  honest processColorChunk /\ honest processPercentageChunk /\
  honest processTexmapChunk.
Proof.
  split; [apply processTopLevelChunk_honest|].
  split; [apply processSceneChunk_honest|].
  split; [apply processModelChunk_honest|].
  split; [apply processTriMeshChunk_honest|].
  split; [apply processFaceArrayChunk_honest|].
  split; [apply processMaterialChunk_honest|].
  split; [apply processColorChunk_honest|].
  split; [apply processPercentageChunk_honest|].
  apply processTexmapChunk_honest.
Qed.

(** ** The whole file *)

(** X13: when [Read3DSFile] yields a scene, the stream began with the magic
    tag, the size its header declares is at least 6 and no more than the
    bytes of the stream, and the cursor has moved by exactly that size: the
    reader has accounted for every byte of the file and touched none after
    it. *)
Theorem Read3DSFile_exact
        {tags : ChunkTags} {m3d : Model3DS} (fuel : nat)
        (s s' : istream) (scene : M3DScene) :
  Z.of_nat (length (rest s)) <= INT32_MAX ->
  Read3DSFile fuel s = Some (Some scene, s') ->
  u16_at (rest s) = M3DCHUNK_MAGIC /\
  6 <= i32_at (skipn 2 (rest s)) <= Z.of_nat (length (rest s)) /\
  consumed s s' (i32_at (skipn 2 (rest s))).
Proof.
  intros Hlen H.
  destruct (Read3DSFile_consumes fuel s s' scene Hlen H) as (M & L & C).
  pose proof (proj1 C) as B.
  split; [assumption|]. split; [lia|assumption].
Qed.

Lemma Read3DSFile_exact_witness :
  exists scene,
    Read3DSFile (tags := std_tags) (m3d := plain_model) 1
                (stream_of mesh_file_one_group) =
    Some (Some scene, mkStream [] 52 false false) /\
    consumed (stream_of mesh_file_one_group) (mkStream [] 52 false false) 52.
Proof.
  assert (E : exists scene,
             Read3DSFile (tags := std_tags) (m3d := plain_model) 1
                         (stream_of mesh_file_one_group) =
             Some (Some scene, mkStream [] 52 false false))
    by (eexists; vm_compute; reflexivity).
  destruct E as [scene E]. exists scene. split; [exact E|].
  assert (Hlen : Z.of_nat (length (rest (stream_of mesh_file_one_group))) <= INT32_MAX)
    by (vm_compute; discriminate).
  destruct (Read3DSFile_exact (tags := std_tags) (m3d := plain_model) 1
              (stream_of mesh_file_one_group) _ scene Hlen E) as (_ & _ & C).
  exact C.
Defined.

(** X14: a stream shorter than the size its header declares never yields a
    scene. *)
Theorem Read3DSFile_truncated
        {tags : ChunkTags} {m3d : Model3DS} (fuel : nat) (s : istream) :
  (length (rest s) < fuel)%nat ->
  Z.of_nat (length (rest s)) <= INT32_MAX ->
  Z.of_nat (length (rest s)) < i32_at (skipn 2 (rest s)) ->
  exists s', Read3DSFile fuel s = Some (None, s').
Proof.
  intros Hfuel Hlen Short.
  destruct (Read3DSFile_total fuel s Hfuel) as ([scene|] & s' & E & _); [|eauto].
  destruct (Read3DSFile_consumes fuel s s' scene Hlen E) as (_ & _ & C).
  pose proof (proj1 C). lia.
Qed.

Lemma Read3DSFile_truncated_witness :
  exists s', Read3DSFile (tags := std_tags) (m3d := plain_model) 7
                    (stream_of truncated_file) = Some (None, s').
Proof.
  assert (Hfuel : (length (rest (stream_of truncated_file)) < 7)%nat)
    by (vm_compute; lia).
  assert (Hlen : Z.of_nat (length (rest (stream_of truncated_file))) <= INT32_MAX)
    by (vm_compute; discriminate).
  assert (Short : Z.of_nat (length (rest (stream_of truncated_file))) <
                  i32_at (skipn 2 (rest (stream_of truncated_file))))
    by (vm_compute; reflexivity).
  exact (Read3DSFile_truncated (tags := std_tags) (m3d := plain_model) 7
           (stream_of truncated_file) Hfuel Hlen Short).
Defined.

(** X15: [Read3DSFile] terminates on every stream: with fuel beyond the
    length of the stream it returns, a scene or none, without having gone
    back in the stream, and every such amount of fuel gives the same
    result. *)
Theorem Read3DSFile_terminates
        {tags : ChunkTags} {m3d : Model3DS} (fuel : nat) (s : istream) :
  (length (rest s) < fuel)%nat ->
  exists (scene : option M3DScene) (s' : istream),
    Read3DSFile fuel s = Some (scene, s') /\ no_longer s' s /\
    forall fuel' : nat, (length (rest s) < fuel')%nat ->
                   Read3DSFile fuel' s = Some (scene, s').
Proof.
  intros Hfuel.
  destruct (Read3DSFile_total fuel s Hfuel) as (scene & s' & E & N).
  exists scene, s'. split; [assumption|]. split; [assumption|].
  intros fuel' Hfuel'. now rewrite (Read3DSFile_fuel fuel' fuel s Hfuel' Hfuel).
Qed.

Lemma Read3DSFile_terminates_witness :
  exists (scene : option M3DScene) (s' : istream),
    Read3DSFile (tags := std_tags) (m3d := plain_model) 53
                (stream_of mesh_file_negative_group) = Some (scene, s') /\
    no_longer s' (stream_of mesh_file_negative_group) /\
    forall fuel' : nat,
      (length (rest (stream_of mesh_file_negative_group)) < fuel')%nat ->
      Read3DSFile (tags := std_tags) (m3d := plain_model) fuel'
                  (stream_of mesh_file_negative_group) = Some (scene, s').
Proof.
  assert (Hfuel : (length (rest (stream_of mesh_file_negative_group)) < 53)%nat)
    by (vm_compute; lia).
  exact (Read3DSFile_terminates (tags := std_tags) (m3d := plain_model) 53
           (stream_of mesh_file_negative_group) Hfuel).
Defined.

(** ** A float percentage cut short *)

(** [float32_bits] undoes [float32_of_bits] on every pattern that is not a
    NaN. *)
Lemma float32_bits_of_bits (w : Z) :
  0 <= w < 2 ^ 32 ->
  float32_of_bits w <> S754_nan ->
  float32_bits (float32_of_bits w) = w.
Proof.
  intros Rw. unfold float32_of_bits.
  change 255 with (Z.ones 8). change (2 ^ 23 - 1) with (Z.ones 23).
  rewrite !Z.land_ones, Z.shiftr_div_pow2 by lia.
  change (Z.ones 8) with 255.
  assert (Hs : (if Z.testbit w 31 then 2 ^ 31 else 0) = (w / 2 ^ 31) * 2 ^ 31).
  { destruct (Z.testbit w 31) eqn:T.
    - apply Z.testbit_true in T; [|lia].
      assert (w / 2 ^ 31 = 1) by (Z.div_mod_to_equations; lia). lia.
    - apply Z.testbit_false in T; [|lia].
      assert (w / 2 ^ 31 = 0) by (Z.div_mod_to_equations; lia). lia. }
  assert (Hw : w = (w / 2 ^ 31) * 2 ^ 31 + ((w / 2 ^ 23) mod 2 ^ 8) * 2 ^ 23 + w mod 2 ^ 23)
    by (Z.div_mod_to_equations; lia).
  assert (Re : 0 <= (w / 2 ^ 23) mod 2 ^ 8 < 256) by (Z.div_mod_to_equations; lia).
  assert (Rm : 0 <= w mod 2 ^ 23 < 2 ^ 23) by (Z.div_mod_to_equations; lia).
  set (e := (w / 2 ^ 23) mod 2 ^ 8) in *. set (m := w mod 2 ^ 23) in *.
  destruct (e =? 0) eqn:E0.
  - apply Z.eqb_eq in E0. destruct m as [|p|p] eqn:Em; intros _; cbn [float32_bits].
    + rewrite Hs. lia.
    + rewrite Hs. assert (L : (Z.pos p <? 2 ^ 23) = true) by (apply Z.ltb_lt; lia).
      rewrite L. lia.
    + lia.
  - apply Z.eqb_neq in E0. destruct (e =? 255) eqn:E255.
    + apply Z.eqb_eq in E255.
      destruct (m =? 0) eqn:M0; [|intros N; exfalso; apply N; reflexivity].
      apply Z.eqb_eq in M0. intros _. cbn [float32_bits]. rewrite Hs. lia.
    + apply Z.eqb_neq in E255.
      destruct (m + 2 ^ 23) as [|p|p] eqn:Ep;
        [intros N; exfalso; apply N; reflexivity|
        |intros N; exfalso; apply N; reflexivity].
      intros _. cbn [float32_bits]. rewrite Hs.
      assert (L : (Z.pos p <? 2 ^ 23) = false) by (apply Z.ltb_ge; lia).
      rewrite L. lia.
Qed.

(** A float percentage of which only the bytes 80 3f are in the stream: the
    read fails, and the two bytes lie over the low-order bytes of the float
    that was there, 0.0 or 1.0. *)
Lemma failed_float_read_examples :
  processPercentageChunk (tags := std_tags) (stream_of [x80; x3f])
    M3DCHUNK_FLOAT_PERCENTAGE 4 f32_0 =
  Some (READ_FAILURE, mkStream [] 2 true true, float32_of_bits 0x00003f80) /\
  processPercentageChunk (tags := std_tags) (stream_of [x80; x3f])
    M3DCHUNK_FLOAT_PERCENTAGE 4 f32_1 =
  Some (READ_FAILURE, mkStream [] 2 true true, float32_of_bits 0x3f803f80) /\
  processPercentageChunk (tags := std_tags) (stream_of [])
    M3DCHUNK_FLOAT_PERCENTAGE 4 f32_1 =
  Some (READ_FAILURE, mkStream [] 0 true true, f32_1).
Proof. repeat split; vm_compute; reflexivity. Qed.
